(** * Planning core of the assistant: priority manager, task scheduler,
      resource allocator

    Shallow embedding of
      - [src/intelligence/planning/priority_manager.py]
      - [src/intelligence/planning/task_scheduler.py]
      - [src/intelligence/planning/resource_allocator.py]

    Conventions of the embedding.
      - The numeric code is read twice.  In the exact reading a Python
        number ([int] or [float]) is a rational ([Q]) and the four
        operations are exact; it serves for the properties that do not
        depend on how a result is rounded.  In the binary64 reading
        (module [Binary64]) a [float] is an IEEE 754 binary64 number, as
        in CPython, computed by Rocq's primitive floats, and an [int] is
        an integer that is converted when it meets a float; it serves
        where rounding decides the outcome.
      - A Python [dict] with string keys is a [gmap string _]; where the
        source iterates over [items()] the model walks [map_to_list],
        whose order is the canonical order of the map.  Keys are unique
        in both.
      - An exception is a value of [exn]; a function that may raise
        returns a [result].
      - Reading the clock ([time.time()], [datetime.now()]) is an explicit
        argument [now]. *)

From Stdlib Require Import QArith Qminmax Lqa Lia ZArith List Sorting.Sorted Permutation.
From Stdlib Require OrderedTypeEx.
From Stdlib Require Floats.
From stdpp Require Import gmap strings list fin_maps.

Local Open Scope Q_scope.

(** ** Python-level preliminaries *)

Inductive exn : Type :=
  | TypeError
  | KeyError
  | AttributeError
  | ValueError
  | OverflowError.

Inductive result (A : Type) : Type :=
  | Ok (a : A)
  | Raise (e : exn).
Arguments Ok {A} a.
Arguments Raise {A} e.

(** Sequencing: the first exception aborts what follows.  stdpp's
    notation [x ← m; k] is used for it. *)
#[global] Instance result_bind : MBind result := fun A B k m =>
  match m with
  | Ok a => k a
  | Raise e => Raise e
  end.

(** Strict comparison on rationals, as a boolean. *)
Definition Qltb (x y : Q) : bool := negb (Qle_bool y x).

(** [max(a, b)] and [min(a, b)] of Python: the first argument wins ties. *)
Definition py_max (a b : Q) : Q := if Qltb a b then b else a.
Definition py_min (a b : Q) : Q := if Qltb b a then b else a.

(** The dynamically typed values the planning code reads out of its
    dictionaries: [None], a number ([int], [float] or [bool]), a string,
    or a [datetime] (of which only [.hour] is ever read). *)
Inductive pyval : Type :=
  | VNone
  | VNum (q : Q)
  | VStr (s : string)
  | VTime (hour : Z).

(** Truth value of an object in a boolean context. *)
Definition truthy (v : pyval) : bool :=
  match v with
  | VNone => false
  | VNum q => negb (Qeq_bool q 0)
  | VStr s => negb (String.eqb s EmptyString)
  | VTime _ => true
  end.

(** The binary64 numbers lie strictly between [-float_limit] and
    [float_limit]: halfway between the largest of them, 2^1024 - 2^971,
    and 2^1024.  A number of the exact reading that is not in this range
    can only be an [int], and one that does not convert to a [float]. *)
Definition float_limit : Q := inject_Z (2 ^ 1024 - 2 ^ 970).

Definition beyond_float_range (q : Q) : bool :=
  Qle_bool float_limit q || Qle_bool q (- float_limit).
Arguments beyond_float_range : simpl never.

(** [v * w] for a float [w].  An [int] is converted to a [float] first,
    which raises [OverflowError] when it is too large. *)
Definition py_mul_float (v : pyval) (w : Q) : result Q :=
  match v with
  | VNum q => if beyond_float_range q then Raise OverflowError else Ok (q * w)
  | _ => Raise TypeError
  end.

(** [v >= c], [v > c], [v < c] for a numeric constant [c]. *)
Definition py_ge (v : pyval) (c : Q) : result bool :=
  match v with
  | VNum q => Ok (Qle_bool c q)
  | _ => Raise TypeError
  end.

Definition py_gt (v : pyval) (c : Q) : result bool :=
  match v with
  | VNum q => Ok (Qltb c q)
  | _ => Raise TypeError
  end.

Definition py_lt (v : pyval) (c : Q) : result bool :=
  match v with
  | VNum q => Ok (Qltb q c)
  | _ => Raise TypeError
  end.

(** [v.hour] *)
Definition py_hour (v : pyval) : result Z :=
  match v with
  | VTime h => Ok h
  | _ => Raise AttributeError
  end.

(** [d.get(k, dflt)] *)
Definition dict_get (d : gmap string pyval) (k : string) (dflt : pyval) : pyval :=
  match d !! k with
  | Some v => v
  | None => dflt
  end.

(** ** priority_manager.py *)

Module PriorityManager.

Inductive PriorityLevel : Type :=
  | CRITICAL
  | HIGH
  | MEDIUM
  | LOW
  | NONE.

(** [level.value] *)
Definition value (l : PriorityLevel) : Z :=
  match l with
  | CRITICAL => 4
  | HIGH => 3
  | MEDIUM => 2
  | LOW => 1
  | NONE => 0
  end.

(** [PriorityLevel(n)]: look a member up by value. *)
Definition PriorityLevel_of (n : Z) : result PriorityLevel :=
  match n with
  | 4%Z => Ok CRITICAL
  | 3%Z => Ok HIGH
  | 2%Z => Ok MEDIUM
  | 1%Z => Ok LOW
  | 0%Z => Ok NONE
  | _ => Raise ValueError
  end.

(** [self.factor_weights], in the order of the dict literal. *)
Definition factor_weights : list (string * Q) :=
  [ ("deadline"%string, 0.3);
    ("importance"%string, 0.25);
    ("effort"%string, 0.2);
    ("dependencies"%string, 0.15);
    ("user_preference"%string, 0.1) ].

Definition _score_to_level (score : Q) : PriorityLevel :=
  if Qle_bool 0.8 score then CRITICAL
  else if Qle_bool 0.6 score then HIGH
  else if Qle_bool 0.4 score then MEDIUM
  else if Qle_bool 0.2 score then LOW
  else NONE.

Definition _rule_high_importance (task : gmap string pyval) : result Q :=
  let importance := dict_get task "importance" (VNum 0) in
  b ← py_ge importance 0.8;
  if (b : bool) then Ok 0.25 else Ok 0.

Definition _rule_blocked_tasks (task : gmap string pyval) : result Q :=
  let blocking_count := dict_get task "blocking_count" (VNum 0) in
  b ← py_gt blocking_count 0;
  if (b : bool) then
    match blocking_count with
    | VNum bc => Ok (0.2 * py_min bc 5)
    | _ => Raise TypeError
    end
  else Ok 0.

Definition _rule_user_preference (task : gmap string pyval) : result Q :=
  let user_preference := dict_get task "user_preference" (VNum 0) in
  py_mul_float user_preference 0.15.

(** The weighted sum of [calculate_priority]:
    [for factor, weight in self.factor_weights.items(): ...]. *)
Fixpoint weigh_factors (task : gmap string pyval) (weights : list (string * Q))
    (priority_score : Q) : result Q :=
  match weights with
  | [] => Ok priority_score
  | (factor, weight) :: rest =>
      let factor_value := dict_get task factor (VNum 0) in
      term ← py_mul_float factor_value weight;
      weigh_factors task rest (priority_score + term)
  end.

(** [for rule in self.priority_rules: ...] *)
Fixpoint apply_rules (task : gmap string pyval)
    (rules : list (gmap string pyval -> result Q)) (priority_score : Q) : result Q :=
  match rules with
  | [] => Ok priority_score
  | rule :: rest =>
      rule_result ← rule task;
      if negb (Qeq_bool (rule_result : Q) 0)
      then apply_rules task rest (priority_score + rule_result)
      else apply_rules task rest priority_score
  end.

Section Manager.

(** [(datetime.fromisoformat(deadline) - datetime.now()).days]: parsing
    and the clock belong to the Python library, so the number of days
    left is taken as given; it raises when the string is not an ISO
    date. *)
Variable days_until_deadline : string -> result Z.

Definition _rule_urgent_deadline (task : gmap string pyval) : result Q :=
  let deadline := dict_get task "deadline" VNone in
  match deadline with
  | VStr s =>
      if truthy deadline then
        days ← days_until_deadline s;
        if ((days : Z) <=? 1)%Z then Ok 0.3
        else if (days <=? 3)%Z then Ok 0.15
        else Ok 0
      else Ok 0
  | _ => Ok 0
  end.

(** [self.priority_rules] *)
Definition priority_rules : list (gmap string pyval -> result Q) :=
  [ _rule_urgent_deadline;
    _rule_high_importance;
    _rule_blocked_tasks;
    _rule_user_preference ].

(** The body of the [try] block of [calculate_priority], up to the
    final score. *)
Definition priority_score (task : gmap string pyval) : result Q :=
  score ← weigh_factors task factor_weights 0;
  apply_rules task priority_rules score.

Definition calculate_priority (task : gmap string pyval) : PriorityLevel :=
  match priority_score task with
  | Ok score => _score_to_level score
  | Raise _ => MEDIUM
  end.

(** The test [current_time and current_time.hour >= 22 or
    current_time.hour <= 6], which Python reads as
    [(current_time and current_time.hour >= 22) or (current_time.hour <= 6)]. *)
Definition night_test (current_time : pyval) : result bool :=
  lhs ← (if truthy current_time
         then h ← py_hour current_time; Ok (22 <=? h)%Z
         else Ok false);
  if (lhs : bool) then Ok true
  else h ← py_hour current_time; Ok (h <=? 6)%Z.

Definition adjust_priority_based_on_context
    (task context : gmap string pyval) : result PriorityLevel :=
  let base_priority := calculate_priority task in
  let current_time := dict_get context "current_time" VNone in
  let resource_availability := dict_get context "resource_availability" (VNum 1.0) in
  (* [user_availability] is read from the context too, and never used. *)
  let availability_step : result PriorityLevel :=
    low ← py_lt resource_availability 0.3;
    if (low : bool)
    then PriorityLevel_of (Z.max (value base_priority - 1) 0)
    else Ok base_priority in
  night ← night_test current_time;
  if (night : bool) then
    if (value base_priority <? value CRITICAL)%Z
    then PriorityLevel_of (Z.max (value base_priority - 1) 0)
    else availability_step
  else availability_step.

(** The values of the dictionaries that [prioritize_tasks] builds: those
    of the task, and the [PriorityLevel] member stored under
    ['priority']. *)
Inductive outval : Type :=
  | Plain (v : pyval)
  | Level (l : PriorityLevel).

(** [{**task, 'priority': priority, 'priority_score': priority.value}] *)
Definition with_priority (task : gmap string pyval) : gmap string outval :=
  let priority := calculate_priority task in
  <["priority_score" := Plain (VNum (inject_Z (value priority)))]>
    (<["priority" := Level priority]> (Plain <$> task)).

(** The sort key [x['priority_score']].  The keys are compared as
    numbers; the comparison of other values is not modelled and is
    reported as a [TypeError]. *)
Definition score_key (x : gmap string outval) : result Q :=
  match x !! "priority_score" with
  | Some (Plain (VNum q)) => Ok q
  | Some _ => Raise TypeError
  | None => Raise KeyError
  end.

(** [list.sort] computes the key of every element before it compares
    any. *)
Fixpoint keyed (l : list (gmap string outval))
    : result (list (Q * gmap string outval)) :=
  match l with
  | [] => Ok []
  | x :: rest =>
      k ← score_key x;
      ks ← keyed rest;
      Ok (((k : Q), x) :: (ks : list (Q * gmap string outval)))
  end.

(** [list.sort(key=..., reverse=True)]: descending, and stable (elements
    with equal keys keep their order); so is this insertion sort. *)
Fixpoint insert_by_score (x : Q * gmap string outval)
    (l : list (Q * gmap string outval)) : list (Q * gmap string outval) :=
  match l with
  | [] => [x]
  | y :: l' => if Qltb x.1 y.1 then y :: insert_by_score x l' else x :: y :: l'
  end.

Definition sort_by_score (l : list (gmap string outval))
    : result (list (gmap string outval)) :=
  ks ← keyed l;
  Ok (foldr insert_by_score [] (ks : list (Q * gmap string outval))).*2.

Definition prioritize_tasks (tasks : list (gmap string pyval))
    : result (list (gmap string outval)) :=
  let prioritized_tasks := with_priority <$> tasks in
  sort_by_score prioritized_tasks.

End Manager.

(** A deadline parser for the examples below: no string is an ISO date. *)
Definition no_iso_date : string -> result Z := fun _ => Raise ValueError.

End PriorityManager.

(** ** task_scheduler.py *)

Module TaskScheduler.

Section Scheduler.

(** The callable of a task and its arguments are opaque to the
    scheduler: it only stores them and hands them to the executor. *)
Context {Callable Args Kwargs : Type}.

(** The task dictionary built by [add_task].  A [datetime] is a number
    of microseconds and a [timedelta] a difference of such;
    [schedule_time.timestamp()] is the same instant read as a number. *)
Record Task : Type := {
  id : string;
  function : Callable;
  schedule_time : Z;
  priority : Z;
  args : Args;
  kwargs : Kwargs;
  recurring : bool;
  interval : option Z;
  added_at : Z
}.

(** A queue entry: the tuple [(priority, timestamp, task_id, task)]. *)
Definition entry : Type := Z * Z * string * Task.

(** Tuple order of Python on the first three components.  Two entries
    that agree on all three would make Python compare the task dicts and
    raise; no operation below creates such a pair, since a task id has at
    most one entry in the queue. *)
Definition entry_lt (a b : entry) : bool :=
  let '(pa, ta, ia, _) := a in
  let '(pb, tb, ib, _) := b in
  (pa <? pb)%Z
  || ((pa =? pb)%Z && ((ta <? tb)%Z
                       || ((ta =? tb)%Z && String.ltb ia ib))).

(** [queue.PriorityQueue]: a min-heap whose [get] returns the least
    entry.  The model keeps the entries in ascending order, so that
    [get_nowait] takes the head. *)
Fixpoint put (e : entry) (q : list entry) : list entry :=
  match q with
  | [] => [e]
  | x :: q' => if entry_lt e x then e :: x :: q' else x :: put e q'
  end.

Definition get_nowait (q : list entry) : option (entry * list entry) :=
  match q with
  | [] => None
  | x :: q' => Some (x, q')
  end.

(** The scheduler object.  [submitted] records, in order, the tasks
    that [_execute_task] handed to the thread pool. *)
Record Scheduler : Type := {
  task_queue : list entry;
  registered_tasks : gmap string Task;
  submitted : list Task
}.

Definition add_task (task_id : string) (task_func : Callable) (schedule_time : Z)
    (priority : Z) (args : Args) (kwargs : Kwargs) (recurring : bool)
    (interval : option Z) (now : Z) (self : Scheduler) : bool * Scheduler :=
  match registered_tasks self !! task_id with
  | Some _ => (false, self)
  | None =>
      let task := {| id := task_id; function := task_func;
                     schedule_time := schedule_time; priority := priority;
                     args := args; kwargs := kwargs; recurring := recurring;
                     interval := interval; added_at := now |} in
      (true,
       {| task_queue := put (priority, schedule_time, task_id, task) (task_queue self);
          registered_tasks := <[task_id := task]> (registered_tasks self);
          submitted := submitted self |})
  end.

Definition remove_task (task_id : string) (self : Scheduler) : bool * Scheduler :=
  match registered_tasks self !! task_id with
  | None => (false, self)
  | Some _ =>
      (true,
       {| task_queue :=
            foldl (fun new_queue e => put e new_queue) []
                  (filter (fun e : entry => e.1.2 ≠ task_id) (task_queue self));
          registered_tasks := delete task_id (registered_tasks self);
          submitted := submitted self |})
  end.

Definition _execute_task (task : Task) (self : Scheduler) : Scheduler :=
  {| task_queue := task_queue self;
     registered_tasks := registered_tasks self;
     submitted := submitted self ++ [task] |}.

(** [task['recurring'] and task['interval']]: a zero [timedelta] is
    false. *)
Definition reschedules (task : Task) : option Z :=
  if recurring task then
    match interval task with
    | Some d => if (d =? 0)%Z then None else Some d
    | None => None
    end
  else None.

(** [new_task = task.copy(); new_task['schedule_time'] = t] *)
Definition with_schedule_time (task : Task) (t : Z) : Task :=
  {| id := id task; function := function task;
     schedule_time := t; priority := priority task;
     args := args task; kwargs := kwargs task;
     recurring := recurring task; interval := interval task;
     added_at := added_at task |}.

(** The [while not self.task_queue.empty()] loop of one pass of
    [_scheduler_loop].  A recurring task is put back during the loop, so
    the number of iterations is not bounded by the length of the queue;
    [fuel] bounds it, and [None] means the bound was reached. *)
Fixpoint drain (fuel : nat) (current_time : Z) (pending_tasks : list entry)
    (self : Scheduler) : option (list entry * Scheduler) :=
  match get_nowait (task_queue self) with
  | None => Some (pending_tasks, self)
  | Some ((priority, timestamp, task_id, task), rest) =>
      match fuel with
      | O => None
      | S fuel' =>
          let self1 := {| task_queue := rest;
                          registered_tasks := registered_tasks self;
                          submitted := submitted self |} in
          match registered_tasks self1 !! task_id with
          | None => drain fuel' current_time pending_tasks self1
          | Some _ =>
              if (schedule_time task <=? current_time)%Z then
                let self2 := _execute_task task self1 in
                match reschedules task with
                | Some d =>
                    let new_schedule_time := (schedule_time task + d)%Z in
                    let new_task := with_schedule_time task new_schedule_time in
                    drain fuel' current_time pending_tasks
                      {| task_queue :=
                           put (priority, new_schedule_time, task_id, new_task)
                               (task_queue self2);
                         registered_tasks := <[task_id := new_task]> (registered_tasks self2);
                         submitted := submitted self2 |}
                | None => drain fuel' current_time pending_tasks self2
                end
              else
                drain fuel' current_time
                      (pending_tasks ++ [(priority, timestamp, task_id, task)]) self1
          end
      end
  end.

(** One iteration of the [while self.is_running] loop, at clock
    reading [current_time]. *)
Definition scheduler_pass (fuel : nat) (current_time : Z) (self : Scheduler)
    : option Scheduler :=
  match drain fuel current_time [] self with
  | None => None
  | Some (pending_tasks, self') =>
      Some {| task_queue := foldl (fun q task_data => put task_data q)
                                  (task_queue self') pending_tasks;
              registered_tasks := registered_tasks self';
              submitted := submitted self' |}
  end.

(** [TaskScheduler()] *)
Definition new_scheduler : Scheduler :=
  {| task_queue := []; registered_tasks := ∅; submitted := [] |}.

(** The order in which the queue hands its entries out, as far as the
    priority goes: the smaller number first. *)
Definition priority_ascending (a b : entry) : Prop := (a.1.1.1 <= b.1.1.1)%Z.

(** An entry that a pass at [current_time] submits and does not put back. *)
Definition due_once (current_time : Z) (registered : gmap string Task) (e : entry)
    : Prop :=
  is_Some (registered !! e.1.2)
  /\ (schedule_time e.2 <= current_time)%Z
  /\ reschedules e.2 = None.

(** [get_pending_tasks]: the summaries [(id, schedule_time, priority,
    recurring)] of the queued entries whose id is registered, in the order
    the queue hands them out, and the scheduler with the queue put
    together again. *)
Definition get_pending_tasks (self : Scheduler)
    : list (string * Z * Z * bool) * Scheduler :=
  (omap (fun e : entry =>
           match registered_tasks self !! e.1.2 with
           | Some _ => Some (e.1.2, schedule_time e.2, priority e.2, recurring e.2)
           | None => None
           end)
        (task_queue self),
   {| task_queue := foldl (fun temp_queue e => put e temp_queue) [] (task_queue self);
      registered_tasks := registered_tasks self;
      submitted := submitted self |}).

(** [reschedule_task]: the registered dict is updated in place and every
    entry of the id is put back with the new time and that dict.  The
    entry of a queued task holds the very dict of the registry, so that
    the update in place and the replacement agree. *)
Definition reschedule_task (task_id : string) (new_time : Z) (self : Scheduler)
    : bool * Scheduler :=
  match registered_tasks self !! task_id with
  | None => (false, self)
  | Some task =>
      let task' := with_schedule_time task new_time in
      (true,
       {| task_queue :=
            foldl (fun new_queue e => put e new_queue) []
                  ((fun e : entry =>
                      if decide (e.1.2 = task_id)
                      then (e.1.1.1, new_time, task_id, task')
                      else e) <$> task_queue self);
          registered_tasks := <[task_id := task']> (registered_tasks self);
          submitted := submitted self |})
  end.

(** The calls on a scheduler; [Pass fuel now] is one iteration of the
    scheduler loop at clock reading [now]. *)
Inductive scheduler_call : Type :=
  | Add (task_id : string) (task_func : Callable) (schedule_time priority : Z)
        (args : Args) (kwargs : Kwargs) (recurring : bool) (interval : option Z)
        (now : Z)
  | Remove (task_id : string)
  | Reschedule (task_id : string) (new_time : Z)
  | ListPending
  | Pass (fuel : nat) (now : Z).

Definition perform_call (c : scheduler_call) (self : Scheduler) : option Scheduler :=
  match c with
  | Add task_id task_func schedule_time priority args kwargs recurring interval now =>
      Some (add_task task_id task_func schedule_time priority args kwargs
                     recurring interval now self).2
  | Remove task_id => Some (remove_task task_id self).2
  | Reschedule task_id new_time => Some (reschedule_task task_id new_time self).2
  | ListPending => Some (get_pending_tasks self).2
  | Pass fuel now => scheduler_pass fuel now self
  end.

(** The scheduler after a sequence of calls, [None] when a pass ran out of
    fuel. *)
Fixpoint run_calls (calls : list scheduler_call) (self : Scheduler) : option Scheduler :=
  match calls with
  | [] => Some self
  | c :: rest =>
      match perform_call c self with
      | Some self' => run_calls rest self'
      | None => None
      end
  end.

(** [a] may come out of the queue before [b]. *)
Definition queue_order (a b : entry) : Prop := entry_lt b a = false.

(** Entries that agree with a registry: the entry of an id carries the
    registered task of that id, whose fields are those of the tuple. *)
Definition entry_agrees (registered : gmap string Task) (e : entry) : Prop :=
  registered !! e.1.2 = Some e.2
  /\ id e.2 = e.1.2 /\ priority e.2 = e.1.1.1 /\ schedule_time e.2 = e.1.1.2.

(** The state invariant of the scheduler. *)
Record coherent (self : Scheduler) : Prop := {
  queue_sorted : StronglySorted queue_order (task_queue self);
  queue_ids : NoDup ((fun e : entry => e.1.2) <$> task_queue self);
  queue_agrees : Forall (entry_agrees (registered_tasks self)) (task_queue self);
  registry_ids : forall i t, registered_tasks self !! i = Some t -> id t = i
}.

(** One iteration of the loop of [drain], as a relation between the
    pairs (entries set aside, scheduler): the entry taken from the queue is
    stale (its id is not registered), or due and not recurring, or due and
    recurring, or not yet due. *)
Inductive drain_step (current_time : Z)
    : list entry * Scheduler -> list entry * Scheduler -> Prop :=
  | step_stale pending_tasks self e rest :
      task_queue self = e :: rest ->
      registered_tasks self !! e.1.2 = None ->
      drain_step current_time (pending_tasks, self)
        (pending_tasks,
         {| task_queue := rest;
            registered_tasks := registered_tasks self;
            submitted := submitted self |})
  | step_once pending_tasks self e rest :
      task_queue self = e :: rest ->
      is_Some (registered_tasks self !! e.1.2) ->
      (schedule_time e.2 <= current_time)%Z ->
      reschedules e.2 = None ->
      drain_step current_time (pending_tasks, self)
        (pending_tasks,
         {| task_queue := rest;
            registered_tasks := registered_tasks self;
            submitted := submitted self ++ [e.2] |})
  | step_again pending_tasks self e rest d :
      task_queue self = e :: rest ->
      is_Some (registered_tasks self !! e.1.2) ->
      (schedule_time e.2 <= current_time)%Z ->
      reschedules e.2 = Some d ->
      let new_task := with_schedule_time e.2 (schedule_time e.2 + d) in
      drain_step current_time (pending_tasks, self)
        (pending_tasks,
         {| task_queue := put (e.1.1.1, (schedule_time e.2 + d)%Z, e.1.2, new_task) rest;
            registered_tasks := <[e.1.2 := new_task]> (registered_tasks self);
            submitted := submitted self ++ [e.2] |})
  | step_later pending_tasks self e rest :
      task_queue self = e :: rest ->
      is_Some (registered_tasks self !! e.1.2) ->
      (current_time < schedule_time e.2)%Z ->
      drain_step current_time (pending_tasks, self)
        (pending_tasks ++ [e],
         {| task_queue := rest;
            registered_tasks := registered_tasks self;
            submitted := submitted self |}).

(** The invariant of the loop of [drain]: the entries set aside and the
    queue together are what a coherent queue holds. *)
Definition draining (state : list entry * Scheduler) : Prop :=
  StronglySorted queue_order (task_queue state.2)
  /\ NoDup ((fun e : entry => e.1.2) <$> (state.1 ++ task_queue state.2))
  /\ Forall (entry_agrees (registered_tasks state.2)) (state.1 ++ task_queue state.2)
  /\ (forall i t, registered_tasks state.2 !! i = Some t -> id t = i).

(** The first [n] occurrences of a recurring task: the task at its
    schedule time and at every [d] after it. *)
Definition occurrences (task : Task) (d : Z) (n : nat) : list Task :=
  (fun j : nat => with_schedule_time task (schedule_time task + Z.of_nat j * d))
    <$> seq 0 n.

End Scheduler.

Arguments Task : clear implicits.
Arguments Scheduler : clear implicits.
Arguments entry : clear implicits.
Arguments scheduler_call : clear implicits.

End TaskScheduler.

(** ** resource_allocator.py *)

Module ResourceAllocator.

(** [class Resource] (the field [unit] of the source is [unit_] here). *)
Record Resource : Type := {
  name : string;
  total : Q;
  allocated : Q;
  unit_ : string
}.

Definition with_allocated (r : Resource) (a : Q) : Resource :=
  {| name := name r; total := total r; allocated := a; unit_ := unit_ r |}.

Definition available (r : Resource) : Q :=
  py_max 0 (total r - allocated r).

Definition can_allocate (r : Resource) (amount : Q) : bool :=
  Qle_bool 0 amount && Qle_bool amount (available r).

(** [Resource.allocate] and [Resource.release]: the returned boolean and
    the resource after the call. *)
Definition allocate (r : Resource) (amount : Q) : bool * Resource :=
  if negb (can_allocate r amount) then (false, r)
  else (true, with_allocated r (allocated r + amount)).

Definition release (r : Resource) (amount : Q) : bool * Resource :=
  if Qltb amount 0 || Qltb (allocated r) amount then (false, r)
  else (true, with_allocated r (allocated r - amount)).

(** [class ResourceRequest] (its fields [id], [priority] and [allocated]
    carry the prefix [req_]). *)
Record ResourceRequest : Type := {
  req_id : string;
  requirements : gmap string Q;
  req_priority : Z;
  timeout : option Q;
  timestamp : Q;
  req_allocated : bool
}.

Definition mark_allocated (req : ResourceRequest) : ResourceRequest :=
  {| req_id := req_id req; requirements := requirements req;
     req_priority := req_priority req; timeout := timeout req;
     timestamp := timestamp req; req_allocated := true |}.

(** [class ResourceAllocator] *)
Record Allocator : Type := {
  resources : gmap string Resource;
  pending_requests : list ResourceRequest;
  allocated_resources : gmap string (gmap string Q)
}.

(** [ResourceAllocator()] *)
Definition new_allocator : Allocator :=
  {| resources := ∅; pending_requests := []; allocated_resources := ∅ |}.

Definition register_resource (name : string) (total : Q) (unit : string)
    (self : Allocator) : bool * Allocator :=
  match resources self !! name with
  | Some _ => (false, self)
  | None =>
      if Qle_bool total 0 then (false, self)
      else
        (true,
         {| resources := <[name := {| name := name; total := total;
                                      allocated := 0; unit_ := unit |}]>
                           (resources self);
            pending_requests := pending_requests self;
            allocated_resources := allocated_resources self |})
  end.

(** [for name, amount in requirements.items(): ...] of [_validate_request] *)
Fixpoint validate_items (res : gmap string Resource) (items : list (string * Q)) : bool :=
  match items with
  | [] => true
  | (name, amount) :: rest =>
      match res !! name with
      | None => false
      | Some _ => if Qle_bool amount 0 then false else validate_items res rest
      end
  end.

Definition _validate_request (self : Allocator) (requirements : gmap string Q) : bool :=
  validate_items (resources self) (map_to_list requirements).

(** The loop of [_check_availability]; [self.resources[name]] raises
    [KeyError] on an unknown name. *)
Fixpoint check_items (res : gmap string Resource) (items : list (string * Q))
    : result bool :=
  match items with
  | [] => Ok true
  | (name, amount) :: rest =>
      match res !! name with
      | None => Raise KeyError
      | Some r => if negb (can_allocate r amount) then Ok false
                  else check_items res rest
      end
  end.

Definition _check_availability (self : Allocator) (requirements : gmap string Q)
    : result bool :=
  check_items (resources self) (map_to_list requirements).

(** The loop of [_allocate_resources]: the result of [allocate] is not
    looked at. *)
Fixpoint allocate_items (items : list (string * Q)) (res : gmap string Resource)
    : result () * gmap string Resource :=
  match items with
  | [] => (Ok (), res)
  | (name, amount) :: rest =>
      match res !! name with
      | None => (Raise KeyError, res)
      | Some r => allocate_items rest (<[name := (allocate r amount).2]> res)
      end
  end.

Definition _allocate_resources (request_id : string) (requirements : gmap string Q)
    (self : Allocator) : result () * Allocator :=
  let recorded := <[request_id := requirements]> (allocated_resources self) in
  let '(outcome, res) := allocate_items (map_to_list requirements) (resources self) in
  (outcome,
   {| resources := res;
      pending_requests := pending_requests self;
      allocated_resources := recorded |}).

Definition request_resources (request_id : string) (requirements : gmap string Q)
    (priority : Z) (timeout : option Q) (now : Q) (self : Allocator)
    : result bool * Allocator :=
  if negb (_validate_request self requirements) then (Ok false, self)
  else
    match _check_availability self requirements with
    | Raise e => (Raise e, self)
    | Ok true =>
        match _allocate_resources request_id requirements self with
        | (Raise e, self') => (Raise e, self')
        | (Ok _, self') => (Ok true, self')
        end
    | Ok false =>
        let request := {| req_id := request_id; requirements := requirements;
                          req_priority := priority; timeout := timeout;
                          timestamp := now; req_allocated := false |} in
        (Ok false,
         {| resources := resources self;
            pending_requests := pending_requests self ++ [request];
            allocated_resources := allocated_resources self |})
    end.

(** [req.timeout is None or (current_time - req.timestamp) < req.timeout] *)
Definition alive (current_time : Q) (req : ResourceRequest) : bool :=
  match timeout req with
  | None => true
  | Some t => Qltb (current_time - timestamp req) t
  end.

(** Order of the sort keys [(-x.priority, x.timestamp)]. *)
Definition key_lt (a b : ResourceRequest) : bool :=
  (- req_priority a <? - req_priority b)%Z
  || ((- req_priority a =? - req_priority b)%Z && Qltb (timestamp a) (timestamp b)).

(** [list.sort(key=...)] is stable; so is this insertion sort. *)
Fixpoint insert_by_key (x : ResourceRequest) (l : list ResourceRequest)
    : list ResourceRequest :=
  match l with
  | [] => [x]
  | y :: l' => if key_lt y x then y :: insert_by_key x l' else x :: y :: l'
  end.

Definition sort_by_key (l : list ResourceRequest) : list ResourceRequest :=
  foldr insert_by_key [] l.

(** The [for request in self.pending_requests] loop of
    [_process_pending_requests].  It returns the requests as the loop
    leaves them (the granted ones marked); when a call raises, the
    requests not yet visited are returned unchanged. *)
Fixpoint grant_loop (requests : list ResourceRequest) (self : Allocator)
    : result () * list ResourceRequest * Allocator :=
  match requests with
  | [] => (Ok (), [], self)
  | request :: rest =>
      match _check_availability self (requirements request) with
      | Raise e => (Raise e, request :: rest, self)
      | Ok false =>
          let '(outcome, rest', self') := grant_loop rest self in
          (outcome, request :: rest', self')
      | Ok true =>
          match _allocate_resources (req_id request) (requirements request) self with
          | (Raise e, self1) => (Raise e, request :: rest, self1)
          | (Ok _, self1) =>
              let '(outcome, rest', self') := grant_loop rest self1 in
              (outcome, mark_allocated request :: rest', self')
          end
      end
  end.

Definition _process_pending_requests (current_time : Q) (self : Allocator)
    : result () * Allocator :=
  let live := filter (fun req => alive current_time req = true) (pending_requests self) in
  let sorted := sort_by_key live in
  let '(outcome, visited, self') := grant_loop sorted self in
  match outcome with
  | Raise e =>
      (Raise e,
       {| resources := resources self';
          pending_requests := visited;
          allocated_resources := allocated_resources self' |})
  | Ok _ =>
      (Ok (),
       {| resources := resources self';
          pending_requests := filter (fun req => req_allocated req = false) visited;
          allocated_resources := allocated_resources self' |})
  end.

(** The loop of [release_resources]: a name that is not registered is
    skipped, a refused release is only logged. *)
Fixpoint release_items (items : list (string * Q)) (res : gmap string Resource)
    : gmap string Resource :=
  match items with
  | [] => res
  | (name, amount) :: rest =>
      match res !! name with
      | None => release_items rest res
      | Some r => release_items rest (<[name := (release r amount).2]> res)
      end
  end.

Definition release_resources (request_id : string) (now : Q) (self : Allocator)
    : bool * Allocator :=
  match allocated_resources self !! request_id with
  | None => (false, self)
  | Some recorded =>
      let self1 :=
        {| resources := release_items (map_to_list recorded) (resources self);
           pending_requests := pending_requests self;
           allocated_resources := delete request_id (allocated_resources self) |} in
      match _process_pending_requests now self1 with
      | (Ok _, self2) => (true, self2)
      | (Raise _, self2) => (false, self2)
      end
  end.

(** [class AllocationStrategy] *)
Inductive AllocationStrategy : Type :=
  | BALANCED
  | PRIORITY
  | FIRST_COME.

(** [Resource.utilization], in percent. *)
Definition utilization (r : Resource) : Q :=
  if Qltb 0 (total r) then (allocated r / total r) * 100 else 0.

Definition get_resource_utilization (self : Allocator) : gmap string Q :=
  utilization <$> resources self.

Definition get_available_resources (self : Allocator) : gmap string Q :=
  available <$> resources self.

(** The dict returned by [optimize_allocation]: [optimized] is always
    [True]; [average_utilization] is present for the balanced strategy,
    [processed_requests] for the other two; the [message] string is left
    out. *)
Record OptimizationResult : Type := {
  strategy : AllocationStrategy;
  optimized : bool;
  average_utilization : option Q;
  processed_requests : option nat
}.

(** [sum(utilization.values()) / len(utilization) if utilization else 0] *)
Definition _optimize_balanced (self : Allocator) : OptimizationResult :=
  let values := (map_to_list (get_resource_utilization self)).*2 in
  let avg_utilization :=
    match values with
    | [] => 0
    | _ => foldl Qplus 0 values / inject_Z (Z.of_nat (length values))
    end in
  {| strategy := BALANCED; optimized := true;
     average_utilization := Some avg_utilization;
     processed_requests := None |}.

(** Order of the sort keys [-x.priority] of [_optimize_priority]. *)
Definition priority_lt (a b : ResourceRequest) : bool :=
  (- req_priority a <? - req_priority b)%Z.

Fixpoint insert_by_priority (x : ResourceRequest) (l : list ResourceRequest)
    : list ResourceRequest :=
  match l with
  | [] => [x]
  | y :: l' => if priority_lt y x then y :: insert_by_priority x l' else x :: y :: l'
  end.

Definition sort_by_priority (l : list ResourceRequest) : list ResourceRequest :=
  foldr insert_by_priority [] l.

(** The [for request in self.pending_requests] loop of
    [_optimize_priority] and [_optimize_first_come], which counts the
    requests it grants. *)
Fixpoint optimize_loop (requests : list ResourceRequest) (self : Allocator)
    (processed_count : nat)
    : result () * list ResourceRequest * Allocator * nat :=
  match requests with
  | [] => (Ok (), [], self, processed_count)
  | request :: rest =>
      match _check_availability self (requirements request) with
      | Raise e => (Raise e, request :: rest, self, processed_count)
      | Ok false =>
          let '(outcome, rest', self', n) := optimize_loop rest self processed_count in
          (outcome, request :: rest', self', n)
      | Ok true =>
          match _allocate_resources (req_id request) (requirements request) self with
          | (Raise e, self1) => (Raise e, request :: rest, self1, processed_count)
          | (Ok _, self1) =>
              let '(outcome, rest', self', n) :=
                optimize_loop rest self1 (S processed_count) in
              (outcome, mark_allocated request :: rest', self', n)
          end
      end
  end.

(** What the two strategies do once the queue is in the order they walk
    it in. *)
Definition optimize_queue (which : AllocationStrategy)
    (queue : list ResourceRequest) (self : Allocator)
    : result OptimizationResult * Allocator :=
  let '(outcome, visited, self', processed_count) := optimize_loop queue self 0 in
  match outcome with
  | Raise e =>
      (Raise e,
       {| resources := resources self';
          pending_requests := visited;
          allocated_resources := allocated_resources self' |})
  | Ok _ =>
      (Ok {| strategy := which; optimized := true;
             average_utilization := None;
             processed_requests := Some processed_count |},
       {| resources := resources self';
          pending_requests := filter (fun req => req_allocated req = false) visited;
          allocated_resources := allocated_resources self' |})
  end.

Definition _optimize_priority (self : Allocator)
    : result OptimizationResult * Allocator :=
  optimize_queue PRIORITY (sort_by_priority (pending_requests self)) self.

Definition _optimize_first_come (self : Allocator)
    : result OptimizationResult * Allocator :=
  optimize_queue FIRST_COME (pending_requests self) self.

Definition optimize_allocation (strategy : AllocationStrategy) (self : Allocator)
    : result OptimizationResult * Allocator :=
  match strategy with
  | BALANCED => (Ok (_optimize_balanced self), self)
  | PRIORITY => _optimize_priority self
  | FIRST_COME => _optimize_first_come self
  end.

(** [shutdown]: every id recorded when the call starts is released, then
    the queue is cleared.  [order] is [list(self.allocated_resources.keys())]:
    the recorded ids in the order in which the dict received them.  The map
    of the model does not keep that order, so the list is an argument; the
    source passes a permutation of the recorded ids.  [clock request_id] is
    the clock reading of the release of that id. *)
Definition shutdown (order : list string) (clock : string -> Q) (self : Allocator)
    : Allocator :=
  let released :=
    foldl (fun s request_id => (release_resources request_id (clock request_id) s).2)
          self order in
  {| resources := resources released;
     pending_requests := [];
     allocated_resources := allocated_resources released |}.

End ResourceAllocator.

(** ** The design document's reading of the priority manager

    These definitions follow the words of the design document, not the
    code; the theorems below compare them with the code. *)

Module Design.

Import PriorityManager.

(** The normalized attribute bundle of the document. *)
Record PriorityInput : Type := {
  urgency : Q;
  importance : Q;
  effort : Q;
  blockingCount : Q;
  userPreference : Q
}.

(** The dictionary a caller of the code builds from such a bundle: the
    urgency is the value weighted under ["deadline"], the number of
    blocked tasks is read both by the weight ["dependencies"] and by the
    rule on ["blocking_count"]. *)
Definition task_of_input (i : PriorityInput) : gmap string pyval :=
  {[ "deadline"%string := VNum (urgency i);
     "importance"%string := VNum (importance i);
     "effort"%string := VNum (effort i);
     "dependencies"%string := VNum (blockingCount i);
     "blocking_count"%string := VNum (blockingCount i);
     "user_preference"%string := VNum (userPreference i) ]}.

(** "score = 0.30·urgency + 0.25·importance + 0.20·effort
     + 0.15·min(blockingCount,5)/5 + 0.10·userPreference", then the three
    bonuses. *)
Definition document_score (i : PriorityInput) : Q :=
  0.30 * urgency i + 0.25 * importance i + 0.20 * effort i
  + 0.15 * (py_min (blockingCount i) 5 / 5) + 0.10 * userPreference i
  + (if Qle_bool 1.0 (urgency i) then 0.30 else 0)
  + (if Qle_bool 0.8 (importance i) then 0.25 else 0)
  + (if Qltb 0 (blockingCount i) then 0.20 * py_min (blockingCount i) 5 else 0).

(** "≥0.8 → CRITICAL, ≥0.6 → HIGH, ≥0.4 → MEDIUM, ≥0.2 → LOW, else NONE" *)
Definition document_level (score : Q) : PriorityLevel :=
  if Qle_bool 0.8 score then CRITICAL
  else if Qle_bool 0.6 score then HIGH
  else if Qle_bool 0.4 score then MEDIUM
  else if Qle_bool 0.2 score then LOW
  else NONE.

Definition document_calculate (i : PriorityInput) : PriorityLevel :=
  document_level (document_score i).

(** One ordinal step down, never below [NONE]. *)
Definition lower (l : PriorityLevel) : PriorityLevel :=
  match l with
  | CRITICAL => HIGH
  | HIGH => MEDIUM
  | MEDIUM => LOW
  | LOW => NONE
  | NONE => NONE
  end.

(** The off-hours window: hour ≥ 22 or hour ≤ 6. *)
Definition off_hours (hour : Z) : bool := (22 <=? hour)%Z || (hour <=? 6)%Z.

(** "downgrades by one ordinal step when the time of day is off-hours and
    the level is below CRITICAL, and independently downgrades by one step
    when resourceAvailability < 0.3; both adjustments may compose". *)
Definition document_adjustForContext (level : PriorityLevel) (hour : Z)
    (resourceAvailability : Q) : PriorityLevel :=
  let after_hours :=
    if off_hours hour && (value level <? value CRITICAL)%Z then lower level else level in
  if Qltb resourceAvailability 0.3 then lower after_hours else after_hours.

(** Order on the outcomes of the score computation: two scores compare as
    numbers, two failures are alike, a score and a failure do not
    compare. *)
Definition score_le (a b : result Q) : Prop :=
  match a, b with
  | Ok x, Ok y => x <= y
  | Raise _, Raise _ => True
  | _, _ => False
  end.

(** Order on attribute values: a number may grow, on the same side of the
    float range; anything else stays. *)
Definition val_le (a b : pyval) : Prop :=
  match a, b with
  | VNum x, VNum y => x <= y /\ beyond_float_range x = beyond_float_range y
  | _, _ => a = b
  end.

(** [t2] is [t1] with some numeric attributes increased. *)
Definition task_le (t1 t2 : gmap string pyval) : Prop :=
  forall k dflt, val_le (dict_get t1 k dflt) (dict_get t2 k dflt).

End Design.

(** ** Notions used to state the allocator's properties *)

Module Ledger.

Import ResourceAllocator.

(** The public calls of the allocator that change its state. *)
Inductive call : Type :=
  | Register (name : string) (total : Q) (unit : string)
  | Request (request_id : string) (requirements : gmap string Q)
            (priority : Z) (timeout : option Q) (now : Q)
  | Release (request_id : string) (now : Q).

Definition perform (c : call) (self : Allocator) : Allocator :=
  match c with
  | Register name total unit => (register_resource name total unit self).2
  | Request request_id requirements priority timeout now =>
      (request_resources request_id requirements priority timeout now self).2
  | Release request_id now => (release_resources request_id now self).2
  end.

(** The allocator after a sequence of calls, first call first. *)
Definition run (calls : list call) (self : Allocator) : Allocator :=
  foldl (fun s c => perform c s) self calls.

(** All the calls of the allocator that change its state. *)
Inductive any_call : Type :=
  | Basic (c : call)
  | Optimize (strategy : AllocationStrategy)
  | Shutdown (order : list string) (clock : string -> Q).

Definition perform_any (c : any_call) (self : Allocator) : Allocator :=
  match c with
  | Basic c => perform c self
  | Optimize strategy => (optimize_allocation strategy self).2
  | Shutdown order clock => shutdown order clock self
  end.

Definition run_any (calls : list any_call) (self : Allocator) : Allocator :=
  foldl (fun s c => perform_any c s) self calls.

(** The amount a requirements dict asks of a resource, 0 if it does not
    name it. *)
Definition amount_of (requirements : gmap string Q) (name : string) : Q :=
  default 0 (requirements !! name).

(** What the recorded allocations hold of a resource, all ids together. *)
Definition sum_amounts (name : string) (l : list (string * gmap string Q)) : Q :=
  foldr (fun entry acc => amount_of entry.2 name + acc) 0 l.

Definition recorded_total (name : string) (recorded : gmap string (gmap string Q)) : Q :=
  sum_amounts name (map_to_list recorded).

(** A requirements dict that [_validate_request] accepts. *)
Definition valid_requirements (res : gmap string Resource) (requirements : gmap string Q)
    : Prop :=
  forall name amount, requirements !! name = Some amount ->
    0 < amount /\ is_Some (res !! name).

(** A request that names registered resources only. *)
Definition names_registered (self : Allocator) (request : ResourceRequest) : Prop :=
  forall name, is_Some (requirements request !! name) ->
               is_Some (resources self !! name).

(** The state invariant.  [slack name] is an amount of the resource that
    is allocated but that no recorded allocation accounts for. *)
Record consistent (slack : string -> Q) (self : Allocator) : Prop := {
  slack_nonneg : forall name, 0 <= slack name;
  slack_registered : forall name, resources self !! name = None -> slack name == 0;
  resource_bounds : forall name r, resources self !! name = Some r ->
    0 < total r
    /\ recorded_total name (allocated_resources self) + slack name <= allocated r
    /\ allocated r <= total r;
  recorded_valid : forall request_id requirements,
    allocated_resources self !! request_id = Some requirements ->
    valid_requirements (resources self) requirements;
  pending_valid : forall req, req ∈ pending_requests self ->
    valid_requirements (resources self) (requirements req);
  pending_unmarked : forall req, req ∈ pending_requests self ->
    req_allocated req = false
}.

(** [res'] is [res] after the full grant of [requirements]: every named
    resource holds the requested amount more, every other one is as it
    was. *)
Definition granted (requirements : gmap string Q) (res res' : gmap string Resource)
    : Prop :=
  (forall name amount, requirements !! name = Some amount ->
     exists r, res !! name = Some r
               /\ res' !! name = Some (with_allocated r (allocated r + amount)))
  /\ (forall name, requirements !! name = None -> res' !! name = res !! name).

(** [res'] is [res] after the amounts of [requirements] were given back. *)
Definition returned (requirements : gmap string Q) (res res' : gmap string Resource)
    : Prop :=
  (forall name amount, requirements !! name = Some amount ->
     exists r, res !! name = Some r
               /\ res' !! name = Some (with_allocated r (allocated r - amount)))
  /\ (forall name, requirements !! name = None -> res' !! name = res !! name).


(** Every resource of [res] is in [res'] with the same name, total and
    unit. *)
Definition same_resources (res res' : gmap string Resource) : Prop :=
  forall key r, res !! key = Some r ->
    exists r', res' !! key = Some r'
               /\ name r' = name r /\ total r' = total r /\ unit_ r' = unit_ r.

(** No resource of [res] is missing from [res'] or holds less there. *)
Definition no_less_allocated (res res' : gmap string Resource) : Prop :=
  forall name r, res !! name = Some r ->
    exists r', res' !! name = Some r'
               /\ total r' = total r /\ allocated r <= allocated r'.

(** Every queued request fails the availability check. *)
Definition waiting (self : Allocator) : Prop :=
  forall req, req ∈ pending_requests self ->
    _check_availability self (requirements req) = Ok false.

(** A walk over queued requests in which every request is either granted
    in full, and marked, or leaves the resources untouched; the walk may
    stop early, leaving the rest of the queue as it is. *)
Inductive all_or_nothing
    : list ResourceRequest -> gmap string Resource ->
      list ResourceRequest -> gmap string Resource -> Prop :=
  | walk_stop requests res :
      all_or_nothing requests res requests res
  | walk_skip request rest res visited res' :
      all_or_nothing rest res visited res' ->
      all_or_nothing (request :: rest) res (request :: visited) res'
  | walk_grant request rest res res1 visited res' :
      granted (requirements request) res res1 ->
      all_or_nothing rest res1 visited res' ->
      all_or_nothing (request :: rest) res (mark_allocated request :: visited) res'.

(** The allocator after the full grant of a request. *)
Definition grant_of (request : ResourceRequest) (res' : gmap string Resource)
    (self : Allocator) : Allocator :=
  {| resources := res';
     pending_requests := pending_requests self;
     allocated_resources :=
       <[req_id request := requirements request]> (allocated_resources self) |}.

(** One reprocessing walk, as the design document words it: the list is
    walked once; a request whose requirements are satisfiable when its
    turn comes is granted in full, recorded under its id and marked; a
    request that cannot be granted stays as it is. *)
Inductive reprocessed
    : list ResourceRequest -> Allocator -> list ResourceRequest -> Allocator -> Prop :=
  | reprocessed_nil self :
      reprocessed [] self [] self
  | reprocessed_skip request rest self visited self' :
      _check_availability self (requirements request) = Ok false ->
      reprocessed rest self visited self' ->
      reprocessed (request :: rest) self (request :: visited) self'
  | reprocessed_grant request rest self res1 visited self' :
      _check_availability self (requirements request) = Ok true ->
      granted (requirements request) (resources self) res1 ->
      reprocessed rest (grant_of request res1 self) visited self' ->
      reprocessed (request :: rest) self (mark_allocated request :: visited) self'.

(** The order in which a reprocessing pass visits the queue: higher
    priority first, earlier enqueue time first among equal priorities. *)
Definition visits_before (a b : ResourceRequest) : Prop :=
  (req_priority b < req_priority a)%Z
  \/ (req_priority a = req_priority b /\ timestamp a <= timestamp b).

End Ledger.

(** * The binary64 reading

    The definitions of this module follow the same source lines as the
    ones of the exact reading, with the arithmetic of CPython: a [float]
    is an IEEE 754 binary64 number and every operation on floats rounds to
    nearest, ties to even, as Rocq's primitive floats do; an [int] is an
    integer, converted to a float when it is multiplied by one.  A
    comparison with a NaN is false. *)

Module Binary64.

Import PrimFloat SpecFloat FloatOps.
#[local] Set Warnings "-inexact-float".

Abbreviation PriorityLevel := PriorityManager.PriorityLevel.
Abbreviation CRITICAL := PriorityManager.CRITICAL.
Abbreviation HIGH := PriorityManager.HIGH.
Abbreviation MEDIUM := PriorityManager.MEDIUM.
Abbreviation LOW := PriorityManager.LOW.
Abbreviation NONE := PriorityManager.NONE.

(** ** Numbers *)

(** The values read out of a task dictionary: [None], an [int], a
    [float], a string, or a [datetime]. *)
Inductive pyval : Type :=
  | VNone
  | VInt (z : Z)
  | VFloat (f : float)
  | VStr (s : string)
  | VTime (hour : Z).

(** The binary64 number nearest to an integer, ties to even; an
    infinity when the integer is beyond the range. *)
Definition nearest_float (z : Z) : float :=
  SF2Prim (binary_normalize prec emax z 0 false).

(** [float(z)]: [OverflowError] when the nearest float would be an
    infinity. *)
Definition float_of_int (z : Z) : result float :=
  match binary_normalize prec emax z 0 false with
  | S754_infinity _ => Raise OverflowError
  | _ => Ok (nearest_float z)
  end.

(** Python compares an [int] with a [float] by their exact values. *)
Definition compare_int_float (z : Z) (f : float) : option comparison :=
  match Prim2SF f with
  | S754_nan => None
  | S754_infinity false => Some Lt
  | S754_infinity true => Some Gt
  | S754_zero _ => Some (z ?= 0)%Z
  | S754_finite s m e =>
      let v := if s then Z.neg m else Z.pos m in
      Some (if (0 <=? e)%Z then (z ?= v * 2 ^ e)%Z else (z * 2 ^ (- e) ?= v)%Z)
  end.

(** Truth value of an object in a boolean context; a NaN is true. *)
Definition truthy (v : pyval) : bool :=
  match v with
  | VNone => false
  | VInt z => negb (z =? 0)%Z
  | VFloat f => negb (f =? 0)%float
  | VStr s => negb (String.eqb s EmptyString)
  | VTime _ => true
  end.

(** [v * w] for a float [w]. *)
Definition py_mul_float (v : pyval) (w : float) : result float :=
  match v with
  | VInt z => x ← float_of_int z; Ok ((x : float) * w)%float
  | VFloat f => Ok (f * w)%float
  | _ => Raise TypeError
  end.

(** [v >= c] for a float [c]. *)
Definition py_ge (v : pyval) (c : float) : result bool :=
  match v with
  | VInt z =>
      Ok match compare_int_float z c with
         | Some Eq | Some Gt => true
         | _ => false
         end
  | VFloat f => Ok (c <=? f)%float
  | _ => Raise TypeError
  end.

(** [v > 0], where [0] is the [int]. *)
Definition py_gt_0 (v : pyval) : result bool :=
  match v with
  | VInt z => Ok (0 <? z)%Z
  | VFloat f => Ok (0 <? f)%float
  | _ => Raise TypeError
  end.

(** [min(v, 5)]: [5] when [5 < v], else [v]. *)
Definition py_min_5 (v : pyval) : result pyval :=
  match v with
  | VInt z => Ok (if (5 <? z)%Z then VInt 5 else VInt z)
  | VFloat f => Ok (if (5 <? f)%float then VInt 5 else VFloat f)
  | _ => Raise TypeError
  end.

(** [d.get(k, dflt)] *)
Definition dict_get (d : gmap string pyval) (k : string) (dflt : pyval) : pyval :=
  match d !! k with
  | Some v => v
  | None => dflt
  end.

(** ** priority_manager.py *)

(** [self.factor_weights], in the order of the dict literal. *)
Definition factor_weights : list (string * float) :=
  [ ("deadline"%string, 0.3%float);
    ("importance"%string, 0.25%float);
    ("effort"%string, 0.2%float);
    ("dependencies"%string, 0.15%float);
    ("user_preference"%string, 0.1%float) ].

Definition _score_to_level (score : float) : PriorityLevel :=
  if (0.8 <=? score)%float then CRITICAL
  else if (0.6 <=? score)%float then HIGH
  else if (0.4 <=? score)%float then MEDIUM
  else if (0.2 <=? score)%float then LOW
  else NONE.

(** The rules return a float, or the [int] 0, which is read as [0.0]:
    the caller only tests it for truth and adds it to a float. *)
Definition _rule_high_importance (task : gmap string pyval) : result float :=
  let importance := dict_get task "importance" (VInt 0) in
  b ← py_ge importance 0.8%float;
  if (b : bool) then Ok 0.25%float else Ok 0%float.

Definition _rule_blocked_tasks (task : gmap string pyval) : result float :=
  let blocking_count := dict_get task "blocking_count" (VInt 0) in
  b ← py_gt_0 blocking_count;
  if (b : bool) then
    least ← py_min_5 blocking_count;
    match (least : pyval) with
    | VInt z => x ← float_of_int z; Ok (0.2 * (x : float))%float
    | VFloat f => Ok (0.2 * f)%float
    | _ => Raise TypeError
    end
  else Ok 0%float.

Definition _rule_user_preference (task : gmap string pyval) : result float :=
  let user_preference := dict_get task "user_preference" (VInt 0) in
  py_mul_float user_preference 0.15%float.

(** The weighted sum of [calculate_priority]; [priority_score] starts
    as the [int] 0 and is a float from the first addition on. *)
Fixpoint weigh_factors (task : gmap string pyval) (weights : list (string * float))
    (priority_score : float) : result float :=
  match weights with
  | [] => Ok priority_score
  | (factor, weight) :: rest =>
      let factor_value := dict_get task factor (VInt 0) in
      term ← py_mul_float factor_value weight;
      weigh_factors task rest (priority_score + term)%float
  end.

(** [for rule in self.priority_rules: ...]; [if rule_result:] is false
    for a zero and true for anything else. *)
Fixpoint apply_rules (task : gmap string pyval)
    (rules : list (gmap string pyval -> result float)) (priority_score : float)
    : result float :=
  match rules with
  | [] => Ok priority_score
  | rule :: rest =>
      rule_result ← rule task;
      if negb ((rule_result : float) =? 0)%float
      then apply_rules task rest (priority_score + rule_result)%float
      else apply_rules task rest priority_score
  end.

Section Manager.

(** [(datetime.fromisoformat(deadline) - datetime.now()).days], as in the
    exact reading. *)
Variable days_until_deadline : string -> result Z.

Definition _rule_urgent_deadline (task : gmap string pyval) : result float :=
  let deadline := dict_get task "deadline" VNone in
  match deadline with
  | VStr s =>
      if truthy deadline then
        days ← days_until_deadline s;
        if ((days : Z) <=? 1)%Z then Ok 0.3%float
        else if (days <=? 3)%Z then Ok 0.15%float
        else Ok 0%float
      else Ok 0%float
  | _ => Ok 0%float
  end.

Definition priority_rules : list (gmap string pyval -> result float) :=
  [ _rule_urgent_deadline;
    _rule_high_importance;
    _rule_blocked_tasks;
    _rule_user_preference ].

Definition priority_score (task : gmap string pyval) : result float :=
  score ← weigh_factors task factor_weights 0%float;
  apply_rules task priority_rules score.

Definition calculate_priority (task : gmap string pyval) : PriorityLevel :=
  match priority_score task with
  | Ok score => _score_to_level score
  | Raise _ => MEDIUM
  end.

End Manager.

(** A weighted attribute that is a float, or is missing and counts as
    the [int] 0. *)
Definition float_attribute (task : gmap string pyval) (key : string) (f : float)
    : Prop :=
  task !! key = Some (VFloat f) \/ (task !! key = None /\ f = 0%float).

(** The dictionary of a task whose attributes are integers. *)
Definition task_of_ints (urgency importance effort blockingCount userPreference : Z)
    : gmap string pyval :=
  {[ "deadline"%string := VInt urgency;
     "importance"%string := VInt importance;
     "effort"%string := VInt effort;
     "dependencies"%string := VInt blockingCount;
     "blocking_count"%string := VInt blockingCount;
     "user_preference"%string := VInt userPreference ]}.

(** ** resource_allocator.py *)

(** [class Resource] *)
Record Resource : Type := {
  name : string;
  total : float;
  allocated : float;
  unit_ : string
}.

Definition with_allocated (r : Resource) (a : float) : Resource :=
  {| name := name r; total := total r; allocated := a; unit_ := unit_ r |}.

(** [max(0, self.total - self.allocated)]: the difference when it is
    greater than 0, else 0. *)
Definition available (r : Resource) : float :=
  let difference := (total r - allocated r)%float in
  if (0 <? difference)%float then difference else 0%float.

(** [0 <= amount <= self.available] *)
Definition can_allocate (r : Resource) (amount : float) : bool :=
  (0 <=? amount)%float && (amount <=? available r)%float.

Definition allocate (r : Resource) (amount : float) : bool * Resource :=
  if negb (can_allocate r amount) then (false, r)
  else (true, with_allocated r (allocated r + amount)%float).

Definition release (r : Resource) (amount : float) : bool * Resource :=
  if (amount <? 0)%float || (allocated r <? amount)%float then (false, r)
  else (true, with_allocated r (allocated r - amount)%float).

(** [class ResourceRequest] *)
Record ResourceRequest : Type := {
  req_id : string;
  requirements : gmap string float;
  req_priority : Z;
  timeout : option float;
  timestamp : float;
  req_allocated : bool
}.

Definition mark_allocated (req : ResourceRequest) : ResourceRequest :=
  {| req_id := req_id req; requirements := requirements req;
     req_priority := req_priority req; timeout := timeout req;
     timestamp := timestamp req; req_allocated := true |}.

(** [class ResourceAllocator] *)
Record Allocator : Type := {
  resources : gmap string Resource;
  pending_requests : list ResourceRequest;
  allocated_resources : gmap string (gmap string float)
}.

Definition new_allocator : Allocator :=
  {| resources := ∅; pending_requests := []; allocated_resources := ∅ |}.

Definition register_resource (name : string) (total : float) (unit : string)
    (self : Allocator) : bool * Allocator :=
  match resources self !! name with
  | Some _ => (false, self)
  | None =>
      if (total <=? 0)%float then (false, self)
      else
        (true,
         {| resources := <[name := {| name := name; total := total;
                                      allocated := 0%float; unit_ := unit |}]>
                           (resources self);
            pending_requests := pending_requests self;
            allocated_resources := allocated_resources self |})
  end.

Fixpoint validate_items (res : gmap string Resource) (items : list (string * float))
    : bool :=
  match items with
  | [] => true
  | (name, amount) :: rest =>
      match res !! name with
      | None => false
      | Some _ => if (amount <=? 0)%float then false else validate_items res rest
      end
  end.

Definition _validate_request (self : Allocator) (requirements : gmap string float)
    : bool :=
  validate_items (resources self) (map_to_list requirements).

Fixpoint check_items (res : gmap string Resource) (items : list (string * float))
    : result bool :=
  match items with
  | [] => Ok true
  | (name, amount) :: rest =>
      match res !! name with
      | None => Raise KeyError
      | Some r => if negb (can_allocate r amount) then Ok false
                  else check_items res rest
      end
  end.

Definition _check_availability (self : Allocator) (requirements : gmap string float)
    : result bool :=
  check_items (resources self) (map_to_list requirements).

Fixpoint allocate_items (items : list (string * float)) (res : gmap string Resource)
    : result () * gmap string Resource :=
  match items with
  | [] => (Ok (), res)
  | (name, amount) :: rest =>
      match res !! name with
      | None => (Raise KeyError, res)
      | Some r => allocate_items rest (<[name := (allocate r amount).2]> res)
      end
  end.

Definition _allocate_resources (request_id : string) (requirements : gmap string float)
    (self : Allocator) : result () * Allocator :=
  let recorded := <[request_id := requirements]> (allocated_resources self) in
  let '(outcome, res) := allocate_items (map_to_list requirements) (resources self) in
  (outcome,
   {| resources := res;
      pending_requests := pending_requests self;
      allocated_resources := recorded |}).

Definition request_resources (request_id : string) (requirements : gmap string float)
    (priority : Z) (timeout : option float) (now : float) (self : Allocator)
    : result bool * Allocator :=
  if negb (_validate_request self requirements) then (Ok false, self)
  else
    match _check_availability self requirements with
    | Raise e => (Raise e, self)
    | Ok true =>
        match _allocate_resources request_id requirements self with
        | (Raise e, self') => (Raise e, self')
        | (Ok _, self') => (Ok true, self')
        end
    | Ok false =>
        let request := {| req_id := request_id; requirements := requirements;
                          req_priority := priority; timeout := timeout;
                          timestamp := now; req_allocated := false |} in
        (Ok false,
         {| resources := resources self;
            pending_requests := pending_requests self ++ [request];
            allocated_resources := allocated_resources self |})
    end.

(** [req.timeout is None or (current_time - req.timestamp) < req.timeout] *)
Definition alive (current_time : float) (req : ResourceRequest) : bool :=
  match timeout req with
  | None => true
  | Some t => (current_time - timestamp req <? t)%float
  end.

(** Order of the sort keys [(-x.priority, x.timestamp)]; the clock
    readings are taken not to be NaN. *)
Definition key_lt (a b : ResourceRequest) : bool :=
  (- req_priority a <? - req_priority b)%Z
  || ((- req_priority a =? - req_priority b)%Z
      && (timestamp a <? timestamp b)%float).

Fixpoint insert_by_key (x : ResourceRequest) (l : list ResourceRequest)
    : list ResourceRequest :=
  match l with
  | [] => [x]
  | y :: l' => if key_lt y x then y :: insert_by_key x l' else x :: y :: l'
  end.

Definition sort_by_key (l : list ResourceRequest) : list ResourceRequest :=
  foldr insert_by_key [] l.

Fixpoint grant_loop (requests : list ResourceRequest) (self : Allocator)
    : result () * list ResourceRequest * Allocator :=
  match requests with
  | [] => (Ok (), [], self)
  | request :: rest =>
      match _check_availability self (requirements request) with
      | Raise e => (Raise e, request :: rest, self)
      | Ok false =>
          let '(outcome, rest', self') := grant_loop rest self in
          (outcome, request :: rest', self')
      | Ok true =>
          match _allocate_resources (req_id request) (requirements request) self with
          | (Raise e, self1) => (Raise e, request :: rest, self1)
          | (Ok _, self1) =>
              let '(outcome, rest', self') := grant_loop rest self1 in
              (outcome, mark_allocated request :: rest', self')
          end
      end
  end.

Definition _process_pending_requests (current_time : float) (self : Allocator)
    : result () * Allocator :=
  let live := filter (fun req => alive current_time req = true) (pending_requests self) in
  let sorted := sort_by_key live in
  let '(outcome, visited, self') := grant_loop sorted self in
  match outcome with
  | Raise e =>
      (Raise e,
       {| resources := resources self';
          pending_requests := visited;
          allocated_resources := allocated_resources self' |})
  | Ok _ =>
      (Ok (),
       {| resources := resources self';
          pending_requests := filter (fun req => req_allocated req = false) visited;
          allocated_resources := allocated_resources self' |})
  end.

Fixpoint release_items (items : list (string * float)) (res : gmap string Resource)
    : gmap string Resource :=
  match items with
  | [] => res
  | (name, amount) :: rest =>
      match res !! name with
      | None => release_items rest res
      | Some r => release_items rest (<[name := (release r amount).2]> res)
      end
  end.

Definition release_resources (request_id : string) (now : float) (self : Allocator)
    : bool * Allocator :=
  match allocated_resources self !! request_id with
  | None => (false, self)
  | Some recorded =>
      let self1 :=
        {| resources := release_items (map_to_list recorded) (resources self);
           pending_requests := pending_requests self;
           allocated_resources := delete request_id (allocated_resources self) |} in
      match _process_pending_requests now self1 with
      | (Ok _, self2) => (true, self2)
      | (Raise _, self2) => (false, self2)
      end
  end.

(** [Resource.utilization], in percent. *)
Definition utilization (r : Resource) : float :=
  if (0 <? total r)%float then ((allocated r / total r) * 100)%float else 0%float.

(** The public calls that change the state of the allocator, and the
    allocator after a sequence of them, first call first. *)
Inductive call : Type :=
  | Register (name : string) (total : float) (unit : string)
  | Request (request_id : string) (requirements : gmap string float)
            (priority : Z) (timeout : option float) (now : float)
  | Release (request_id : string) (now : float).

Definition perform (c : call) (self : Allocator) : Allocator :=
  match c with
  | Register name total unit => (register_resource name total unit self).2
  | Request request_id requirements priority timeout now =>
      (request_resources request_id requirements priority timeout now self).2
  | Release request_id now => (release_resources request_id now self).2
  end.

Definition run (calls : list call) (self : Allocator) : Allocator :=
  foldl (fun s c => perform c s) self calls.

End Binary64.

(** * Proofs *)

(** * Facts about the Python-level preliminaries *)

Lemma Qle_bool_false (a b : Q) : Qle_bool a b = false <-> b < a.
Proof.
  split.
  - intros H. apply Qnot_le_lt. intros Hle. apply Qle_bool_iff in Hle. congruence.
  - intros H. destruct (Qle_bool a b) eqn:E; [|reflexivity].
    apply Qle_bool_iff in E. lra.
Qed.

Lemma Qltb_true (a b : Q) : Qltb a b = true <-> a < b.
Proof. unfold Qltb. rewrite negb_true_iff. apply Qle_bool_false. Qed.

Lemma Qltb_false (a b : Q) : Qltb a b = false <-> b <= a.
Proof. unfold Qltb. rewrite negb_false_iff. apply Qle_bool_iff. Qed.

(** Case analysis on every rational test in sight, turning the boolean
    outcomes into (in)equalities for [lra]. *)
Ltac qprops :=
  repeat match goal with
  | H : Qle_bool _ _ = true |- _ => apply Qle_bool_iff in H
  | H : Qle_bool _ _ = false |- _ => apply Qle_bool_false in H
  | H : Qltb _ _ = true |- _ => apply Qltb_true in H
  | H : Qltb _ _ = false |- _ => apply Qltb_false in H
  | H : Qeq_bool _ _ = true |- _ => apply Qeq_bool_iff in H
  | H : Qeq_bool _ _ = false |- _ => apply Qeq_bool_neq in H
  end.

Ltac qcases :=
  repeat match goal with
  | |- context [Qle_bool ?a ?b] => destruct (Qle_bool a b) eqn:?
  | |- context [Qltb ?a ?b] => destruct (Qltb a b) eqn:?
  | |- context [Qeq_bool ?a ?b] => destruct (Qeq_bool a b) eqn:?
  end; qprops.

Lemma py_min_spec (a b : Q) :
  (a <= b /\ py_min a b = a) \/ (b < a /\ py_min a b = b).
Proof. unfold py_min. destruct (Qltb b a) eqn:E; qprops; auto. Qed.

Lemma py_max_spec (a b : Q) :
  (b <= a /\ py_max a b = a) \/ (a < b /\ py_max a b = b).
Proof. unfold py_max. destruct (Qltb a b) eqn:E; qprops; auto. Qed.

Section PriorityFacts.

Import PriorityManager Design.

Variable days_until_deadline : string -> result Z.

Lemma score_le_refl (r : result Q) : score_le r r.
Proof. destruct r; simpl; [lra | exact I]. Qed.

Lemma val_le_refl (v : pyval) : val_le v v.
Proof. destruct v; simpl; try reflexivity. split; [lra | reflexivity]. Qed.

Lemma _score_to_level_mono (s1 s2 : Q) :
  s1 <= s2 -> (value (_score_to_level s1) <= value (_score_to_level s2))%Z.
Proof.
  intros H. unfold _score_to_level. qcases; simpl; try lia; lra.
Qed.

Lemma py_mul_float_mono (a b : pyval) (w : Q) :
  0 <= w -> val_le a b -> score_le (py_mul_float a w) (py_mul_float b w).
Proof.
  intros Hw H. destruct a as [|x| |], b as [|y| |];
    cbn [val_le] in H; try discriminate H.
  1, 3, 4: exact I.
  destruct H as [Hxy Hr]. unfold py_mul_float. rewrite Hr.
  destruct (beyond_float_range y); cbn [score_le]; [exact I | nra].
Qed.

Lemma weigh_factors_mono (t1 t2 : gmap string pyval) (ws : list (string * Q)) :
  task_le t1 t2 ->
  Forall (fun fw => 0 <= fw.2) ws ->
  forall acc1 acc2, acc1 <= acc2 ->
    score_le (weigh_factors t1 ws acc1) (weigh_factors t2 ws acc2).
Proof.
  intros Hle Hws. induction Hws as [|[f w] ws Hw _ IH]; intros acc1 acc2 Hacc.
  - exact Hacc.
  - simpl in *.
    pose proof (py_mul_float_mono _ _ w Hw (Hle f (VNum 0))) as Hterm.
    destruct (py_mul_float (dict_get t1 f (VNum 0)) w) as [x|],
             (py_mul_float (dict_get t2 f (VNum 0)) w) as [y|];
      simpl in *; try contradiction; try exact I.
    apply IH. lra.
Qed.

Lemma _rule_urgent_deadline_mono (t1 t2 : gmap string pyval) :
  task_le t1 t2 ->
  score_le (_rule_urgent_deadline days_until_deadline t1)
           (_rule_urgent_deadline days_until_deadline t2).
Proof.
  intros Hle. unfold _rule_urgent_deadline.
  pose proof (Hle "deadline"%string VNone) as H.
  destruct (dict_get t1 "deadline" VNone), (dict_get t2 "deadline" VNone);
    simpl in H; try discriminate; try (simpl; lra).
  injection H as ->. apply score_le_refl.
Qed.

Lemma _rule_high_importance_mono (t1 t2 : gmap string pyval) :
  task_le t1 t2 -> score_le (_rule_high_importance t1) (_rule_high_importance t2).
Proof.
  intros Hle. unfold _rule_high_importance.
  pose proof (Hle "importance"%string (VNum 0)) as H.
  destruct (dict_get t1 "importance" (VNum 0)), (dict_get t2 "importance" (VNum 0));
    simpl in H; try discriminate; try exact I.
  destruct H as [H _]. simpl. qcases; simpl; lra.
Qed.

Lemma _rule_blocked_tasks_mono (t1 t2 : gmap string pyval) :
  task_le t1 t2 -> score_le (_rule_blocked_tasks t1) (_rule_blocked_tasks t2).
Proof.
  intros Hle. unfold _rule_blocked_tasks.
  pose proof (Hle "blocking_count"%string (VNum 0)) as H.
  destruct (dict_get t1 "blocking_count" (VNum 0)) as [|x|?|?],
           (dict_get t2 "blocking_count" (VNum 0)) as [|y|?|?];
    simpl in H; try discriminate; try exact I.
  destruct H as [H _]. simpl.
  destruct (Qltb 0 x) eqn:Ex, (Qltb 0 y) eqn:Ey; qprops; simpl;
    destruct (py_min_spec x 5) as [[? Hx]|[? Hx]],
             (py_min_spec y 5) as [[? Hy]|[? Hy]];
    rewrite ?Hx, ?Hy; lra.
Qed.

Lemma _rule_user_preference_mono (t1 t2 : gmap string pyval) :
  task_le t1 t2 -> score_le (_rule_user_preference t1) (_rule_user_preference t2).
Proof.
  intros Hle. unfold _rule_user_preference.
  apply py_mul_float_mono; [lra | apply Hle].
Qed.

Lemma apply_rules_mono (t1 t2 : gmap string pyval)
    (rules : list (gmap string pyval -> result Q)) :
  Forall (fun rule => score_le (rule t1) (rule t2)) rules ->
  forall acc1 acc2, acc1 <= acc2 ->
    score_le (apply_rules t1 rules acc1) (apply_rules t2 rules acc2).
Proof.
  induction 1 as [|rule rules Hr _ IH]; intros acc1 acc2 Hacc.
  - exact Hacc.
  - simpl. destruct (rule t1) as [x|], (rule t2) as [y|];
      simpl in *; try contradiction; try exact I.
    destruct (Qeq_bool x 0) eqn:Ex, (Qeq_bool y 0) eqn:Ey; qprops; simpl;
      apply IH; lra.
Qed.

Lemma priority_score_mono (t1 t2 : gmap string pyval) :
  task_le t1 t2 ->
  score_le (priority_score days_until_deadline t1)
           (priority_score days_until_deadline t2).
Proof.
  intros Hle. unfold priority_score.
  assert (Hw : score_le (weigh_factors t1 factor_weights 0)
                        (weigh_factors t2 factor_weights 0)).
  { apply weigh_factors_mono; [exact Hle | | lra].
    unfold factor_weights. repeat constructor; simpl; lra. }
  destruct (weigh_factors t1 factor_weights 0) as [x|],
           (weigh_factors t2 factor_weights 0) as [y|];
    simpl in Hw; try contradiction; try exact I.
  change (score_le (apply_rules t1 (priority_rules days_until_deadline) x)
                   (apply_rules t2 (priority_rules days_until_deadline) y)).
  apply apply_rules_mono; [|exact Hw].
  unfold priority_rules. repeat constructor.
  - by apply _rule_urgent_deadline_mono.
  - by apply _rule_high_importance_mono.
  - by apply _rule_blocked_tasks_mono.
  - by apply _rule_user_preference_mono.
Qed.

Lemma calculate_priority_mono (t1 t2 : gmap string pyval) :
  task_le t1 t2 ->
  (value (calculate_priority days_until_deadline t1)
   <= value (calculate_priority days_until_deadline t2))%Z.
Proof.
  intros Hle. pose proof (priority_score_mono t1 t2 Hle) as H.
  unfold calculate_priority.
  destruct (priority_score days_until_deadline t1),
           (priority_score days_until_deadline t2);
    simpl in H; try contradiction; [|lia].
  by apply _score_to_level_mono.
Qed.

Lemma task_le_insert (task : gmap string pyval) (k : string) (v v' : Q) :
  v <= v' -> beyond_float_range v = beyond_float_range v' ->
  task_le (<[k := VNum v]> task) (<[k := VNum v']> task).
Proof.
  intros Hv Hrange k' dflt. unfold dict_get.
  destruct (decide (k = k')) as [->|Hne].
  - rewrite !lookup_insert_eq. by split.
  - rewrite !lookup_insert_ne by done. apply val_le_refl.
Qed.

End PriorityFacts.

Section PriorityClaims.

Import PriorityManager Design.

Variable days_until_deadline : string -> result Z.

Lemma adjust_with_clock (task context : gmap string pyval) (h : Z) (ra : Q) :
  context !! "current_time"%string = Some (VTime h) ->
  dict_get context "resource_availability" (VNum 1.0) = VNum ra ->
  adjust_priority_based_on_context days_until_deadline task context
  = Ok (let base := calculate_priority days_until_deadline task in
        if off_hours h && (value base <? value CRITICAL)%Z then lower base
        else if Qltb ra 0.3 then lower base
        else base).
Proof.
  intros Ht Hra. unfold adjust_priority_based_on_context, dict_get in *.
  rewrite Ht. unfold dict_get in Hra. 
  replace (match context !! "resource_availability"%string with
           | Some v => v | None => VNum 1.0 end) with (VNum ra).
  unfold night_test, off_hours. simpl.
  destruct (22 <=? h)%Z eqn:E22; simpl.
  - destruct (calculate_priority days_until_deadline task); simpl;
      destruct (Qltb ra 0.3); reflexivity.
  - destruct (h <=? 6)%Z; simpl;
      destruct (calculate_priority days_until_deadline task); simpl;
      destruct (Qltb ra 0.3); reflexivity.
Qed.

Lemma adjust_without_clock (task context : gmap string pyval) :
  context !! "current_time"%string = None ->
  adjust_priority_based_on_context days_until_deadline task context
  = Raise AttributeError.
Proof.
  intros Ht. unfold adjust_priority_based_on_context, dict_get.
  rewrite Ht. reflexivity.
Qed.

Lemma lower_le (l : PriorityLevel) :
  (value NONE <= value (lower l) <= value l)%Z /\ (value l - value (lower l) <= 1)%Z.
Proof. destruct l; simpl; lia. Qed.

End PriorityClaims.

Section ScoreFormula.
Import PriorityManager Design.
Import PrimFloat SpecFloat FloatOps.
#[local] Set Warnings "-inexact-float".

(** C4, as stated, fails: with [userPreference = 1] and every other
  attribute [0] the document's formula gives the score 0.10 and the level
  NONE, while the code adds a fourth rule ([_rule_user_preference],
  +0.15·user_preference), reaches 0.25 and returns LOW. *)
Lemma document_calculate_differs :
~ (forall (d : string -> result Z) (u i e b up : Z),
     Binary64.calculate_priority d (Binary64.task_of_ints u i e b up)
     = document_calculate
         {| urgency := inject_Z u; importance := inject_Z i; effort := inject_Z e;
            blockingCount := inject_Z b; userPreference := inject_Z up |}).
Proof.
intros H. specialize (H no_iso_date 0 0 0 0 1)%Z.
vm_compute in H. discriminate H.
Qed.

(** The other place where the code departs from the document's formula
  by design: the weight 0.15 multiplies the value under "dependencies"
  as it is. *)
Lemma dependencies_weighted_uncapped :
Binary64.calculate_priority no_iso_date (Binary64.task_of_ints 0 0 0 2 0) = HIGH
/\ document_calculate
     {| urgency := 0; importance := 0; effort := 0;
        blockingCount := 2; userPreference := 0 |} = MEDIUM.
Proof. vm_compute. split; reflexivity. Qed.

(** What happens to the bonus for an urgent deadline.  The rule that
  grants it wants the deadline as a date string, and a string under
  "deadline" makes the weighted sum fail on [deadline * 0.3]: the level
  is MEDIUM whatever the date.  An urgency given as a number is weighted
  and earns no bonus. *)
Lemma string_deadline_gives_medium
  (d : string -> result Z) (task : gmap string Binary64.pyval) (s : string) :
task !! "deadline"%string = Some (Binary64.VStr s) ->
Binary64.calculate_priority d task = MEDIUM.
Proof.
intros H. unfold Binary64.calculate_priority, Binary64.priority_score,
  Binary64.factor_weights.
cbn [Binary64.weigh_factors]. unfold Binary64.dict_get. rewrite H.
reflexivity.
Qed.

Lemma numeric_urgency_earns_no_bonus :
Binary64.calculate_priority no_iso_date (Binary64.task_of_ints 1 0 0 0 0) = LOW
/\ document_calculate
     {| urgency := 1; importance := 0; effort := 0;
        blockingCount := 0; userPreference := 0 |} = HIGH.
Proof. vm_compute. split; reflexivity. Qed.

(** Rounding decides the level next to a threshold: an urgency of 1 and
  a user preference of 0.4 add up to 0.4 in exact arithmetic, which is
  MEDIUM, and to 0.39999999999999997 in binary64, which is LOW. *)
Lemma rounding_below_a_threshold :
let task : gmap string Binary64.pyval :=
  {[ "deadline"%string := Binary64.VInt 1;
     "user_preference"%string := Binary64.VFloat 0.4 ]} in
Binary64.priority_score no_iso_date task = Ok 0.39999999999999997%float
/\ Binary64.calculate_priority no_iso_date task = LOW
/\ calculate_priority no_iso_date
     {[ "deadline"%string := VNum 1; "user_preference"%string := VNum 0.4 ]}
   = MEDIUM.
Proof. vm_compute. repeat split; reflexivity. Qed.

Lemma weigh_float_attribute (task : gmap string Binary64.pyval) (key : string)
  (f w : float) :
Binary64.float_attribute task key f ->
Binary64.py_mul_float (Binary64.dict_get task key (Binary64.VInt 0)) w
= Ok (f * w)%float.
Proof.
unfold Binary64.dict_get. intros [H|[H ->]]; rewrite H; reflexivity.
Qed.

Lemma float_attribute_not_a_string (task : gmap string Binary64.pyval) (f : float)
  (d : string -> result Z) :
Binary64.float_attribute task "deadline" f ->
Binary64._rule_urgent_deadline d task = Ok 0%float.
Proof.
unfold Binary64._rule_urgent_deadline, Binary64.dict_get.
intros [H|[H _]]; rewrite H; reflexivity.
Qed.

Lemma importance_bonus (task : gmap string Binary64.pyval) (imp : float) :
Binary64.float_attribute task "importance" imp ->
Binary64._rule_high_importance task
= Ok (if (0.8 <=? imp)%float then 0.25%float else 0%float).
Proof.
unfold Binary64._rule_high_importance, Binary64.dict_get.
intros [H|[H ->]]; rewrite H; [|reflexivity].
cbn [Binary64.py_ge mbind result_bind]. by destruct (0.8 <=? imp)%float.
Qed.

(** One turn of the rule loop. *)
Lemma apply_rules_step (task : gmap string Binary64.pyval)
  (rule : gmap string Binary64.pyval -> result float)
  (rules : list (gmap string Binary64.pyval -> result float)) (acc r : float) :
rule task = Ok r ->
Binary64.apply_rules task (rule :: rules) acc
= Binary64.apply_rules task rules (if (r =? 0)%float then acc else (acc + r)%float).
Proof.
intros H. cbn [Binary64.apply_rules]. rewrite H. simpl.
by destruct (r =? 0)%float.
Qed.

(** The bonus for blocking 1, 2, 3, 4, or 5 and more tasks. *)
Lemma blocking_bonus (task : gmap string Binary64.pyval) (bc : Z) :
Binary64.dict_get task "blocking_count" (Binary64.VInt 0) = Binary64.VInt bc ->
(0 < bc)%Z ->
Binary64._rule_blocked_tasks task
= Ok (0.2 * Binary64.nearest_float (Z.min bc 5))%float
/\ (0.2 * Binary64.nearest_float (Z.min bc 5) =? 0)%float = false.
Proof.
intros Hbc Hpos. unfold Binary64._rule_blocked_tasks. rewrite Hbc.
cbn [Binary64.py_gt_0 Binary64.py_min_5 mbind result_bind].
destruct (Z.ltb_spec 0 bc) as [_|]; [|lia].
assert (Hmin : (if (5 <? bc)%Z then Binary64.VInt 5 else Binary64.VInt bc)
               = Binary64.VInt (Z.min bc 5)).
{ destruct (Z.ltb_spec 5 bc); f_equal; lia. }
rewrite Hmin.
assert (Hcases : (Z.min bc 5 = 1 \/ Z.min bc 5 = 2 \/ Z.min bc 5 = 3
                  \/ Z.min bc 5 = 4 \/ Z.min bc 5 = 5)%Z) by lia.
destruct Hcases as [->|[->|[->|[->| ->]]]]; split; reflexivity.
Qed.

(** C4, amended: for a task whose weighted attributes are floats (a
  missing one counts as 0), whose urgency, the number under "deadline",
  is below 1.0, and whose blocking count is an int, the score is
  computed in binary64, in this order:
  0.3·deadline + 0.25·importance + 0.2·effort + 0.15·dependencies
  + 0.1·user_preference, then + 0.25 if importance ≥ 0.8, then
  + 0.2·min(blocking_count, 5) if blocking_count > 0, then
  + 0.15·user_preference if that product is not zero; the level follows
  from the score by the thresholds 0.8, 0.6, 0.4, 0.2. *)
Theorem calculate_priority_formula
  (d : string -> result Z) (task : gmap string Binary64.pyval)
  (dl imp eff dep up : float) (bc : Z) :
Binary64.float_attribute task "deadline" dl ->
(dl <? 1)%float = true ->
Binary64.float_attribute task "importance" imp ->
Binary64.float_attribute task "effort" eff ->
Binary64.float_attribute task "dependencies" dep ->
Binary64.float_attribute task "user_preference" up ->
Binary64.dict_get task "blocking_count" (Binary64.VInt 0) = Binary64.VInt bc ->
let weighted :=
  (0 + dl * 0.3 + imp * 0.25 + eff * 0.2 + dep * 0.15 + up * 0.1)%float in
let with_importance :=
  if (0.8 <=? imp)%float then (weighted + 0.25)%float else weighted in
let with_blocking :=
  if (0 <? bc)%Z
  then (with_importance + 0.2 * Binary64.nearest_float (Z.min bc 5))%float
  else with_importance in
let score :=
  if (up * 0.15 =? 0)%float then with_blocking
  else (with_blocking + up * 0.15)%float in
Binary64.priority_score d task = Ok score
/\ Binary64.calculate_priority d task = Binary64._score_to_level score.
Proof.
intros Hdl _ Himp Heff Hdep Hup Hbc weighted with_importance with_blocking score.
assert (Hs : Binary64.priority_score d task = Ok score).
{ unfold Binary64.priority_score, Binary64.factor_weights.
  cbn [Binary64.weigh_factors].
  rewrite (weigh_float_attribute task "deadline" dl _ Hdl).
  rewrite (weigh_float_attribute task "importance" imp _ Himp).
  rewrite (weigh_float_attribute task "effort" eff _ Heff).
  rewrite (weigh_float_attribute task "dependencies" dep _ Hdep).
  rewrite (weigh_float_attribute task "user_preference" up _ Hup).
  change (Binary64.apply_rules task (Binary64.priority_rules d) weighted = Ok score).
  unfold Binary64.priority_rules.
  rewrite (apply_rules_step task _ _ weighted 0
             (float_attribute_not_a_string task dl d Hdl)).
  change (0 =? 0)%float with true. cbn iota.
  rewrite (apply_rules_step task _ _ weighted _ (importance_bonus task imp Himp)).
  assert (Hafter : (if ((if (0.8 <=? imp)%float then 0.25 else 0) =? 0)%float
                    then weighted
                    else (weighted + (if (0.8 <=? imp)%float then 0.25 else 0))%float)
                   = with_importance).
  { unfold with_importance. by destruct (0.8 <=? imp)%float. }
  rewrite Hafter. clear Hafter.
  assert (Hpref : Binary64._rule_user_preference task = Ok (up * 0.15)%float).
  { unfold Binary64._rule_user_preference.
    apply (weigh_float_attribute task "user_preference" up _ Hup). }
  unfold score, with_blocking.
  destruct (Z.ltb_spec 0 bc) as [Hpos|Hnone].
  - destruct (blocking_bonus task bc Hbc Hpos) as [Hrule Hnz].
    rewrite (apply_rules_step task _ _ with_importance _ Hrule), Hnz.
    rewrite (apply_rules_step task _ _ _ _ Hpref). reflexivity.
  - assert (Hrule : Binary64._rule_blocked_tasks task = Ok 0%float).
    { unfold Binary64._rule_blocked_tasks. rewrite Hbc. simpl.
      destruct (Z.ltb_spec 0 bc); [lia | reflexivity]. }
    rewrite (apply_rules_step task _ _ with_importance _ Hrule).
    change (0 =? 0)%float with true. cbn iota.
    rewrite (apply_rules_step task _ _ _ _ Hpref). reflexivity. }
split; [exact Hs|]. unfold Binary64.calculate_priority. by rewrite Hs.
Qed.

Lemma calculate_priority_formula_witness :
let task : gmap string Binary64.pyval :=
  {[ "importance"%string := Binary64.VFloat 0.9;
     "blocking_count"%string := Binary64.VInt 2 ]} in
Binary64.priority_score no_iso_date task = Ok 0.875%float
/\ Binary64.calculate_priority no_iso_date task = CRITICAL.
Proof.
intros task.
assert (Hdl : Binary64.float_attribute task "deadline" 0%float)
  by (right; split; reflexivity).
assert (Hlow : (0 <? 1)%float = true) by reflexivity.
assert (Himp : Binary64.float_attribute task "importance" 0.9%float)
  by (left; reflexivity).
assert (Heff : Binary64.float_attribute task "effort" 0%float)
  by (right; split; reflexivity).
assert (Hdep : Binary64.float_attribute task "dependencies" 0%float)
  by (right; split; reflexivity).
assert (Hup : Binary64.float_attribute task "user_preference" 0%float)
  by (right; split; reflexivity).
assert (Hbc : Binary64.dict_get task "blocking_count" (Binary64.VInt 0)
              = Binary64.VInt 2) by reflexivity.
destruct (calculate_priority_formula no_iso_date task 0 0.9 0 0 0 2
            Hdl Hlow Himp Heff Hdep Hup Hbc) as [Hs Hl].
split.
- rewrite Hs. vm_compute. reflexivity.
- rewrite Hl. vm_compute. reflexivity.
Defined.

End ScoreFormula.

Section Monotonicity.
Import PriorityManager Design.

(** C5, as stated, fails: an [int] beyond the float range makes
  [user_preference * 0.1] raise OverflowError, and the handler of
  [calculate_priority] answers MEDIUM.  With a user preference of 2^70
  the level is CRITICAL; with the larger 10^400 it is MEDIUM. *)
Lemma larger_value_lower_level :
~ (forall (d : string -> result Z) (task : gmap string pyval) (k : string) (v v' : Q),
     v <= v' ->
     (value (calculate_priority d (<[k := VNum v]> task))
      <= value (calculate_priority d (<[k := VNum v']> task)))%Z).
Proof.
intros H.
specialize (H no_iso_date ∅ "user_preference"%string
              (inject_Z (2 ^ 70)) (inject_Z (10 ^ 400))).
assert (Hle : inject_Z (2 ^ 70) <= inject_Z (10 ^ 400)).
{ rewrite <- Zle_Qle. apply Z.leb_le. vm_compute. reflexivity. }
specialize (H Hle).
assert (H1 : calculate_priority no_iso_date
               (<["user_preference"%string := VNum (inject_Z (2 ^ 70))]> ∅)
             = CRITICAL) by (vm_compute; reflexivity).
assert (H2 : calculate_priority no_iso_date
               (<["user_preference"%string := VNum (inject_Z (10 ^ 400))]> ∅)
             = MEDIUM) by (vm_compute; reflexivity).
rewrite H1, H2 in H. simpl in H. lia.
Qed.

(** C5, amended: raising the numeric value stored under any one key of a
  task (in particular importance, the urgency weighted under "deadline",
  blocking_count or user_preference) while every other entry stays as it
  is never lowers the score, and never lowers the level, provided that
  neither value is an int beyond the float range.  When some other entry
  makes the computation fail, it fails for both tasks and both levels
  are MEDIUM. *)
Theorem calculate_priority_monotone
  (d : string -> result Z) (task : gmap string pyval) (k : string) (v v' : Q) :
v <= v' ->
beyond_float_range v = false ->
beyond_float_range v' = false ->
score_le (priority_score d (<[k := VNum v]> task))
         (priority_score d (<[k := VNum v']> task))
/\ (value (calculate_priority d (<[k := VNum v]> task))
    <= value (calculate_priority d (<[k := VNum v']> task)))%Z.
Proof.
intros Hv Hr Hr'.
assert (Hle : task_le (<[k := VNum v]> task) (<[k := VNum v']> task))
  by (apply task_le_insert; [exact Hv | by rewrite Hr, Hr']).
split.
- by apply priority_score_mono.
- by apply calculate_priority_mono.
Qed.

Lemma calculate_priority_monotone_witness :
0.2 <= 0.9
/\ score_le (priority_score no_iso_date (<["importance"%string := VNum 0.2]> ∅))
            (priority_score no_iso_date (<["importance"%string := VNum 0.9]> ∅))
/\ (value (calculate_priority no_iso_date (<["importance"%string := VNum 0.2]> ∅))
    <= value (calculate_priority no_iso_date (<["importance"%string := VNum 0.9]> ∅)))%Z.
Proof.
assert (H : 0.2 <= 0.9) by (unfold Qle; simpl; lia).
assert (Hr : beyond_float_range 0.2 = false) by (vm_compute; reflexivity).
assert (Hr' : beyond_float_range 0.9 = false) by (vm_compute; reflexivity).
split; [exact H|].
exact (calculate_priority_monotone no_iso_date ∅ "importance" 0.2 0.9 H Hr Hr').
Defined.

(** The same two user preferences in the binary64 reading. *)
Lemma larger_int_lower_level_binary64 :
Binary64.calculate_priority no_iso_date
  {[ "user_preference"%string := Binary64.VInt (2 ^ 70) ]} = CRITICAL
/\ Binary64.calculate_priority no_iso_date
     {[ "user_preference"%string := Binary64.VInt (10 ^ 400) ]} = MEDIUM.
Proof. vm_compute. split; reflexivity. Qed.

End Monotonicity.

Section ContextAdjustment.
Import PriorityManager Design.

(** C7, as stated, fails: for a task of level HIGH at 23 h with resource
  availability 0.1 both conditions hold, the document asks for the two
  downgrades to compose (LOW), and the code returns after the first one
  (MEDIUM). *)
Lemma adjust_does_not_compose :
~ (forall (d : string -> result Z) (task context : gmap string pyval) (h : Z) (ra : Q),
     context !! "current_time"%string = Some (VTime h) ->
     context !! "resource_availability"%string = Some (VNum ra) ->
     adjust_priority_based_on_context d task context
     = Ok (document_adjustForContext (calculate_priority d task) h ra)).
Proof.
intros H.
specialize (H no_iso_date
              {[ "importance"%string := VNum 1; "effort"%string := VNum 1 ]}
              {[ "current_time"%string := VTime 23;
                 "resource_availability"%string := VNum 0.1 ]}
              23%Z 0.1 eq_refl eq_refl).
vm_compute in H. discriminate H.
Qed.

(** C7, amended: with a clock reading of hour [h] and a numeric resource
  availability [ra] (1.0 when the context has none), the level of the
  task is lowered by one ordinal step, saturating at NONE, when the hour
  is off-hours (≥ 22 or ≤ 6) and the level is below CRITICAL, or else
  when [ra < 0.3]; otherwise it is returned as it is.  The two downgrades
  do not compose: the result is the level or one step below it, never
  above the level and never below NONE. *)
Theorem adjust_priority_one_step
  (d : string -> result Z) (task context : gmap string pyval) (h : Z) (ra : Q) :
context !! "current_time"%string = Some (VTime h) ->
dict_get context "resource_availability" (VNum 1.0) = VNum ra ->
let base := calculate_priority d task in
exists adjusted,
  adjust_priority_based_on_context d task context = Ok adjusted
  /\ adjusted = (if off_hours h && (value base <? value CRITICAL)%Z then lower base
                 else if Qltb ra 0.3 then lower base
                 else base)
  /\ (value NONE <= value adjusted <= value base)%Z
  /\ (value base - value adjusted <= 1)%Z.
Proof.
intros Ht Hra base.
exists (if off_hours h && (value base <? value CRITICAL)%Z then lower base
        else if Qltb ra 0.3 then lower base
        else base).
split; [by apply adjust_with_clock|].
split; [reflexivity|].
pose proof (lower_le base) as Hl. simpl in Hl.
destruct (off_hours h && (value base <? value CRITICAL)%Z);
  [|destruct (Qltb ra 0.3)]; simpl; lia.
Qed.

Lemma adjust_priority_one_step_witness :
let task : gmap string pyval :=
  {[ "importance"%string := VNum 1; "effort"%string := VNum 1 ]} in
let context : gmap string pyval :=
  {[ "current_time"%string := VTime 23;
     "resource_availability"%string := VNum 0.1 ]} in
exists adjusted,
  adjust_priority_based_on_context no_iso_date task context = Ok adjusted
  /\ adjusted = MEDIUM
  /\ (value NONE <= value adjusted <= value HIGH)%Z
  /\ (value HIGH - value adjusted <= 1)%Z.
Proof.
intros task context.
exact (adjust_priority_one_step no_iso_date task context 23 0.1 eq_refl eq_refl).
Defined.

End ContextAdjustment.

Section MissingClock.
Import PriorityManager Design.

(** C8: the claim asks [adjust_priority_based_on_context] to return a
  level for a context without a [current_time] entry.  The code raises:
  the test [current_time and current_time.hour >= 22 or
  current_time.hour <= 6] reads [.hour] of [None] in its right
  disjunct. *)
Theorem adjust_raises_without_current_time :
adjust_priority_based_on_context no_iso_date
  {[ "importance"%string := VNum 0.5 ]}
  {[ "resource_availability"%string := VNum 0.9 ]}
= Raise AttributeError.
Proof. by apply adjust_without_clock. Qed.

End MissingClock.

(** ** The scheduler *)

Section SchedulerClaims.
Import TaskScheduler.

(** C9: [add_task] with an id that is already registered returns [False]
  and leaves the scheduler as it was: the registered task, the queue and
  everything else are the same object state before and after. *)
Theorem add_task_registered_id {Callable Args Kwargs : Type}
  (self : Scheduler Callable Args Kwargs) (task_id : string) (task_func : Callable)
  (schedule_time priority : Z) (args : Args) (kwargs : Kwargs)
  (recurring : bool) (interval : option Z) (now : Z) :
is_Some (registered_tasks self !! task_id) ->
add_task task_id task_func schedule_time priority args kwargs recurring interval now self
= (false, self).
Proof.
intros [task Htask]. unfold add_task. rewrite Htask. reflexivity.
Qed.

Lemma add_task_registered_id_witness :
let s1 : Scheduler string () () :=
  (add_task "backup" "run_backup" 500 3 () () false None 0 new_scheduler).2 in
is_Some (registered_tasks s1 !! "backup"%string)
/\ add_task "backup" "other" 900 7 () () true (Some 60%Z) 10 s1 = (false, s1).
Proof.
intros s1.
assert (H : is_Some (registered_tasks s1 !! "backup"%string)).
{ eexists. reflexivity. }
split; [exact H|].
exact (add_task_registered_id s1 "backup" "other" 900 7 () () true (Some 60%Z) 10 H).
Defined.

Lemma entry_lt_priority {Callable Args Kwargs : Type}
  (a b : entry Callable Args Kwargs) :
(entry_lt a b = true -> priority_ascending a b)
/\ (entry_lt a b = false -> priority_ascending b a).
Proof.
destruct a as [[[pa ta] ia] xa], b as [[[pb tb] ib] xb].
unfold entry_lt, priority_ascending. simpl. split.
- intros [H|[H _]%andb_true_iff]%orb_true_iff; lia.
- intros [H _]%orb_false_iff. lia.
Qed.

(** [put] keeps the queue in ascending order of the priority number. *)
Lemma put_priority_ascending {Callable Args Kwargs : Type}
  (e : entry Callable Args Kwargs) (q : list (entry Callable Args Kwargs)) :
StronglySorted priority_ascending q ->
StronglySorted priority_ascending (put e q).
Proof.
induction 1 as [|x q Hs IH Hx]; simpl.
- repeat constructor.
- destruct (entry_lt e x) eqn:E.
  + apply entry_lt_priority in E.
    constructor; [by constructor|]. constructor; [exact E|].
    eapply Forall_impl; [exact Hx|]. unfold priority_ascending in *.
    intros y Hy. simpl in *. lia.
  + apply entry_lt_priority in E.
    constructor; [exact IH|].
    assert (Hput : forall y, y ∈ put e q -> y = e \/ y ∈ q).
    { clear. induction q as [|z q IHq]; simpl; intros y Hy.
      - apply list_elem_of_singleton in Hy. by left.
      - destruct (entry_lt e z).
        + apply elem_of_cons in Hy as [->|Hy]; [by left | by right].
        + apply elem_of_cons in Hy as [->|Hy]; [right; by left|].
          destruct (IHq y Hy) as [->|Hin]; [by left | right; by right]. }
    rewrite Forall_forall. intros y Hy.
    destruct (Hput y Hy) as [->|Hin]; [exact E|].
    rewrite Forall_forall in Hx. by apply Hx.
Qed.

(** A pass over a queue whose entries are all registered, due and not
  recurring submits them in the order of the queue and empties it. *)
Lemma drain_submits_in_queue_order {Callable Args Kwargs : Type}
  (current_time : Z) (registered : gmap string (Task Callable Args Kwargs))
  (q : list (entry Callable Args Kwargs)) :
Forall (due_once current_time registered) q ->
forall (pending_tasks : list (entry Callable Args Kwargs))
       (sent : list (Task Callable Args Kwargs)),
  drain (length q) current_time pending_tasks
        {| task_queue := q; registered_tasks := registered; submitted := sent |}
  = Some (pending_tasks,
          {| task_queue := []; registered_tasks := registered;
             submitted := sent ++ (snd <$> q) |}).
Proof.
induction 1 as [|[[[p ts] i] t] q (Hreg & Hdue & Honce) _ IH];
  intros pending_tasks sent; simpl.
- by rewrite app_nil_r.
- simpl in Hreg, Hdue, Honce. destruct Hreg as [t' Ht']. rewrite Ht'.
  apply Z.leb_le in Hdue. rewrite Hdue, Honce.
  unfold _execute_task. simpl. rewrite IH. by rewrite <- app_assoc.
Qed.

(** C1: two tasks are due in the same pass, "low" with priority 1 and
  "high" with priority 5.  The claim has "high" dispatched first; the
  queue is a min-heap keyed by the priority as given, so the pass submits
  "low" first. *)
Theorem lower_priority_number_dispatched_first :
let s1 : Scheduler string () () :=
  (add_task "high" "g" 0 5 () () false None 0 new_scheduler).2 in
let s2 := (add_task "low" "f" 0 1 () () false None 0 s1).2 in
(fun s => id <$> submitted s) <$> scheduler_pass 2 100 s2
= Some ["low"%string; "high"%string].
Proof. vm_compute. reflexivity. Qed.

End SchedulerClaims.

(** ** The allocator *)

Section AllocatorFacts.

Import ResourceAllocator Ledger.

(** *** Requirement dicts as item lists *)

Lemma items_keys (requirements : gmap string Q) (name : string) :
  name ∈ (map_to_list requirements).*1 <-> is_Some (requirements !! name).
Proof.
  rewrite list_elem_of_fmap. split.
  - intros ([n a] & -> & H). apply elem_of_map_to_list in H. by exists a.
  - intros [a H]. exists (name, a). split; [done|]. by apply elem_of_map_to_list.
Qed.

Lemma validate_items_true (res : gmap string Resource) (items : list (string * Q)) :
  validate_items res items = true <->
  (forall name amount, (name, amount) ∈ items -> 0 < amount /\ is_Some (res !! name)).
Proof.
  induction items as [|[n a] items IH]; simpl.
  - split; [|done]. intros _ name amount H. by apply elem_of_nil in H.
  - destruct (res !! n) as [r|] eqn:Hn.
    + destruct (Qle_bool a 0) eqn:Ha; qprops.
      * split; [done|]. intros H.
        destruct (H n a) as [Hpos _]; [by left|]. lra.
      * rewrite IH. split.
        -- intros H name amount [Heq|Hin]%elem_of_cons.
           ++ injection Heq as -> ->. split; [done|]. by rewrite Hn.
           ++ by apply H.
        -- intros H name amount Hin. apply H. by right.
    + split; [done|]. intros H.
      destruct (H n a) as [_ [r Hr]]; [by left|]. congruence.
Qed.

Lemma _validate_request_true (self : Allocator) (requirements : gmap string Q) :
  _validate_request self requirements = true <->
  valid_requirements (resources self) requirements.
Proof.
  unfold _validate_request, valid_requirements. rewrite validate_items_true.
  split; intros H name amount Hin; apply H; by apply elem_of_map_to_list.
Qed.

Lemma check_items_defined (res : gmap string Resource) (items : list (string * Q)) :
  (forall name amount, (name, amount) ∈ items -> is_Some (res !! name)) ->
  exists b, check_items res items = Ok b.
Proof.
  induction items as [|[n a] items IH]; simpl; intros H.
  - by exists true.
  - destruct (H n a) as [r ->]; [by left|].
    destruct (can_allocate r a); simpl; [|by exists false].
    apply IH. intros name amount Hin. apply (H name amount). by right.
Qed.

Lemma check_items_true (res : gmap string Resource) (items : list (string * Q)) :
  check_items res items = Ok true <->
  (forall name amount, (name, amount) ∈ items ->
     exists r, res !! name = Some r /\ can_allocate r amount = true).
Proof.
  induction items as [|[n a] items IH]; simpl.
  - split; [|done]. intros _ name amount H. by apply elem_of_nil in H.
  - destruct (res !! n) as [r|] eqn:Hn.
    + destruct (can_allocate r a) eqn:Hc; simpl.
      * rewrite IH. split.
        -- intros H name amount [Heq|Hin]%elem_of_cons.
           ++ injection Heq as -> ->. by exists r.
           ++ by apply H.
        -- intros H name amount Hin. apply H. by right.
      * split; [done|]. intros H.
        destruct (H n a) as (r' & Hr' & Hc'); [by left|]. congruence.
    + split; [done|]. intros H.
      destruct (H n a) as (r' & Hr' & _); [by left|]. congruence.
Qed.

(** *** Single resources *)

Lemma can_allocate_fits (r : Resource) (amount : Q) :
  can_allocate r amount = true -> 0 < amount ->
  allocated r + amount <= total r.
Proof.
  unfold can_allocate, available. intros [H0 H]%andb_true_iff Hpos. qprops.
  destruct (py_max_spec 0 (total r - allocated r)) as [[? E]|[? E]];
    rewrite E in H; lra.
Qed.

Lemma allocate_accepted (r : Resource) (amount : Q) :
  can_allocate r amount = true ->
  allocate r amount = (true, with_allocated r (allocated r + amount)).
Proof. intros H. unfold allocate. by rewrite H. Qed.

Lemma release_accepted (r : Resource) (amount : Q) :
  0 <= amount -> amount <= allocated r ->
  release r amount = (true, with_allocated r (allocated r - amount)).
Proof.
  intros H0 H. unfold release.
  destruct (Qltb amount 0) eqn:E0; qprops; [lra|].
  destruct (Qltb (allocated r) amount) eqn:E1; qprops; [lra|]. reflexivity.
Qed.

(** *** The loops over a requirements dict *)

Lemma allocate_items_granted (items : list (string * Q)) :
  NoDup items.*1 ->
  forall res : gmap string Resource,
  (forall name amount, (name, amount) ∈ items ->
     exists r, res !! name = Some r /\ can_allocate r amount = true) ->
  exists res',
    allocate_items items res = (Ok (), res')
    /\ (forall name amount, (name, amount) ∈ items ->
          exists r, res !! name = Some r
                    /\ res' !! name = Some (with_allocated r (allocated r + amount)))
    /\ (forall name, name ∉ items.*1 -> res' !! name = res !! name).
Proof.
  induction items as [|[n a] items IH]; simpl; intros Hnd res H.
  - exists res. split; [done|]. split; [|done].
    intros name amount Hin. by apply elem_of_nil in Hin.
  - apply NoDup_cons in Hnd as [Hn Hnd].
    destruct (H n a) as (r & Hr & Hc); [by left|].
    rewrite Hr, (allocate_accepted r a Hc). simpl.
    set (res1 := <[n := with_allocated r (allocated r + a)]> res).
    assert (Hother : forall name, name ∈ items.*1 -> res1 !! name = res !! name).
    { intros name Hin. unfold res1. rewrite lookup_insert_ne; [done|].
      intros ->. contradiction. }
    destruct (IH Hnd res1) as (res' & Hrun & Hnamed & Hrest).
    { intros name amount Hin.
      destruct (H name amount) as (r' & Hr' & Hc'); [by right|].
      exists r'. split; [|done]. rewrite Hother; [done|].
      apply list_elem_of_fmap. by exists (name, amount). }
    exists res'. split; [done|]. split.
    + intros name amount [Heq|Hin]%elem_of_cons.
      * injection Heq as -> ->. exists r. split; [done|].
        rewrite (Hrest n Hn). unfold res1. by rewrite lookup_insert_eq.
      * destruct (Hnamed name amount Hin) as (r' & Hr' & Hres').
        exists r'. split; [|done]. rewrite <- Hother; [done|].
        apply list_elem_of_fmap. by exists (name, amount).
    + intros name Hnot. apply not_elem_of_cons in Hnot as [Hne Hnot].
      rewrite (Hrest name Hnot). unfold res1. by rewrite lookup_insert_ne.
Qed.

Lemma _allocate_resources_granted (request_id : string)
    (requirements : gmap string Q) (self : Allocator) :
  _check_availability self requirements = Ok true ->
  exists res',
    _allocate_resources request_id requirements self
    = (Ok (), {| resources := res';
                 pending_requests := pending_requests self;
                 allocated_resources :=
                   <[request_id := requirements]> (allocated_resources self) |})
    /\ granted requirements (resources self) res'.
Proof.
  intros Hc. unfold _check_availability in Hc.
  pose proof (proj1 (check_items_true _ _) Hc) as Hall.
  destruct (allocate_items_granted (map_to_list requirements)
              (NoDup_fst_map_to_list _) (resources self) Hall)
    as (res' & Hrun & Hnamed & Hrest).
  exists res'. split.
  - unfold _allocate_resources. by rewrite Hrun.
  - split.
    + intros name amount Hin. apply Hnamed. by apply elem_of_map_to_list.
    + intros name Hnone. apply Hrest. rewrite items_keys, Hnone.
      by intros [? ?].
Qed.

End AllocatorFacts.

Section LedgerFacts.

Import ResourceAllocator Ledger.

Lemma release_items_returned (items : list (string * Q)) :
  NoDup items.*1 ->
  forall res : gmap string Resource,
  (forall name amount, (name, amount) ∈ items ->
     exists r, res !! name = Some r /\ 0 <= amount /\ amount <= allocated r) ->
  (forall name amount, (name, amount) ∈ items ->
     exists r, res !! name = Some r
               /\ release_items items res !! name
                  = Some (with_allocated r (allocated r - amount)))
  /\ (forall name, name ∉ items.*1 -> release_items items res !! name = res !! name).
Proof.
  induction items as [|[n a] items IH]; simpl; intros Hnd res H.
  - split; [|done]. intros name amount Hin. by apply elem_of_nil in Hin.
  - apply NoDup_cons in Hnd as [Hn Hnd].
    destruct (H n a) as (r & Hr & H0 & Ha); [by left|].
    rewrite Hr, (release_accepted r a H0 Ha). simpl.
    set (res1 := <[n := with_allocated r (allocated r - a)]> res).
    assert (Hother : forall name, name ∈ items.*1 -> res1 !! name = res !! name).
    { intros name Hin. unfold res1. rewrite lookup_insert_ne; [done|].
      intros ->. contradiction. }
    destruct (IH Hnd res1) as (Hnamed & Hrest).
    { intros name amount Hin.
      destruct (H name amount) as (r' & Hr' & Hb); [by right|].
      exists r'. split; [|done]. rewrite Hother; [done|].
      apply list_elem_of_fmap. by exists (name, amount). }
    split.
    + intros name amount [Heq|Hin]%elem_of_cons.
      * injection Heq as -> ->. exists r. split; [done|].
        rewrite (Hrest n Hn). unfold res1. by rewrite lookup_insert_eq.
      * destruct (Hnamed name amount Hin) as (r' & Hr' & Hres').
        exists r'. split; [|done]. rewrite <- Hother; [done|].
        apply list_elem_of_fmap. by exists (name, amount).
    + intros name Hnot. apply not_elem_of_cons in Hnot as [Hne Hnot].
      rewrite (Hrest name Hnot). unfold res1. by rewrite lookup_insert_ne.
Qed.



(** *** The recorded total *)

Lemma sum_amounts_perm (name : string) (l l' : list (string * gmap string Q)) :
  l ≡ₚ l' -> sum_amounts name l == sum_amounts name l'.
Proof.
  unfold sum_amounts.
  induction 1 as [|x l l' _ IH|x y l|l l' l'' _ IH1 _ IH2]; simpl.
  - reflexivity.
  - rewrite IH. reflexivity.
  - ring.
  - by rewrite IH1.
Qed.

Lemma recorded_total_insert_fresh (name request_id : string)
    (requirements : gmap string Q) (recorded : gmap string (gmap string Q)) :
  recorded !! request_id = None ->
  recorded_total name (<[request_id := requirements]> recorded)
  == amount_of requirements name + recorded_total name recorded.
Proof.
  intros Hnone. unfold recorded_total.
  apply (sum_amounts_perm name _ ((request_id, requirements) :: map_to_list recorded)).
  by apply map_to_list_insert.
Qed.

Lemma recorded_total_delete (name request_id : string)
    (old : gmap string Q) (recorded : gmap string (gmap string Q)) :
  recorded !! request_id = Some old ->
  recorded_total name recorded
  == amount_of old name + recorded_total name (delete request_id recorded).
Proof.
  intros Hsome. unfold recorded_total. symmetry.
  apply (sum_amounts_perm name ((request_id, old) :: map_to_list (delete request_id recorded))).
  by apply map_to_list_delete.
Qed.

Lemma recorded_total_insert (name request_id : string)
    (requirements : gmap string Q) (recorded : gmap string (gmap string Q)) :
  recorded_total name (<[request_id := requirements]> recorded)
  == amount_of requirements name + recorded_total name (delete request_id recorded).
Proof.
  rewrite <- (insert_delete_eq recorded).
  apply recorded_total_insert_fresh. apply lookup_delete_eq.
Qed.

Lemma recorded_total_nonneg (name : string) (recorded : gmap string (gmap string Q)) :
  (forall request_id requirements, recorded !! request_id = Some requirements ->
     0 <= amount_of requirements name) ->
  0 <= recorded_total name recorded.
Proof.
  intros H. unfold recorded_total, sum_amounts.
  assert (Hl : forall entry, entry ∈ map_to_list recorded -> 0 <= amount_of entry.2 name).
  { intros [i x] Hin. apply elem_of_map_to_list in Hin. by apply (H i). }
  induction (map_to_list recorded) as [|e l IH]; simpl; [lra|].
  assert (0 <= amount_of e.2 name) by (apply Hl; by left).
  assert (0 <= foldr (fun entry acc => amount_of entry.2 name + acc) 0 l).
  { apply IH. intros entry Hin. apply Hl. by right. }
  lra.
Qed.

Lemma recorded_total_unnamed (name : string) (recorded : gmap string (gmap string Q)) :
  (forall request_id requirements, recorded !! request_id = Some requirements ->
     requirements !! name = None) ->
  recorded_total name recorded == 0.
Proof.
  intros H. unfold recorded_total, sum_amounts.
  assert (Hl : forall entry, entry ∈ map_to_list recorded -> entry.2 !! name = None).
  { intros [i x] Hin. apply elem_of_map_to_list in Hin. by apply (H i). }
  induction (map_to_list recorded) as [|e l IH]; simpl; [reflexivity|].
  unfold amount_of at 1. rewrite (Hl e) by (by left). simpl.
  rewrite IH; [reflexivity|]. intros entry Hin. apply Hl. by right.
Qed.

Lemma amount_of_valid (res : gmap string Resource) (requirements : gmap string Q)
    (name : string) :
  valid_requirements res requirements -> 0 <= amount_of requirements name.
Proof.
  intros H. unfold amount_of.
  destruct (requirements !! name) as [a|] eqn:E; simpl; [|lra].
  destruct (H name a E). lra.
Qed.

Lemma amount_of_unregistered (res : gmap string Resource)
    (requirements : gmap string Q) (name : string) :
  valid_requirements res requirements -> res !! name = None ->
  requirements !! name = None.
Proof.
  intros H Hnone. destruct (requirements !! name) as [a|] eqn:E; [|done].
  destruct (H name a E) as [_ [r Hr]]. congruence.
Qed.

Lemma valid_requirements_same_names (res res' : gmap string Resource)
    (requirements : gmap string Q) :
  (forall name, is_Some (res !! name) -> is_Some (res' !! name)) ->
  valid_requirements res requirements -> valid_requirements res' requirements.
Proof.
  intros Hdom H name amount Hin. destruct (H name amount Hin). split; auto.
Qed.

Lemma granted_names (requirements : gmap string Q) (res res' : gmap string Resource) :
  granted requirements res res' ->
  forall name, is_Some (res !! name) <-> is_Some (res' !! name).
Proof.
  intros [Hnamed Hrest] name.
  destruct (requirements !! name) as [a|] eqn:E.
  - destruct (Hnamed name a E) as (r & -> & ->). split; eauto.
  - by rewrite (Hrest name E).
Qed.

Lemma returned_names (requirements : gmap string Q) (res res' : gmap string Resource) :
  returned requirements res res' ->
  forall name, is_Some (res !! name) <-> is_Some (res' !! name).
Proof.
  intros [Hnamed Hrest] name.
  destruct (requirements !! name) as [a|] eqn:E.
  - destruct (Hnamed name a E) as (r & -> & ->). split; eauto.
  - by rewrite (Hrest name E).
Qed.

End LedgerFacts.

Section Invariant.

Import ResourceAllocator Ledger.

Lemma consistent_new : consistent (fun _ => 0) new_allocator.
Proof.
  split; simpl.
  - intros _. lra.
  - intros _ _. reflexivity.
  - intros name r H. by rewrite lookup_empty in H.
  - intros request_id requirements H. by rewrite lookup_empty in H.
  - intros req H. by apply elem_of_nil in H.
  - intros req H. by apply elem_of_nil in H.
Qed.

Lemma consistent_recorded_nonneg (slack : string -> Q) (self : Allocator)
    (name : string) :
  consistent slack self -> 0 <= recorded_total name (allocated_resources self).
Proof.
  intros Hc. apply recorded_total_nonneg. intros request_id requirements H.
  eapply amount_of_valid, (recorded_valid _ _ Hc), H.
Qed.

Lemma consistent_delete_nonneg (slack : string -> Q) (self : Allocator)
    (name request_id : string) :
  consistent slack self ->
  0 <= recorded_total name (delete request_id (allocated_resources self)).
Proof.
  intros Hc. apply recorded_total_nonneg. intros i requirements H.
  apply lookup_delete_Some in H as [_ H].
  eapply amount_of_valid, (recorded_valid _ _ Hc), H.
Qed.

(** Deleting a record can only lower the recorded total. *)
Lemma consistent_delete_le (slack : string -> Q) (self : Allocator)
    (name request_id : string) :
  consistent slack self ->
  recorded_total name (delete request_id (allocated_resources self))
  <= recorded_total name (allocated_resources self).
Proof.
  intros Hc.
  destruct (allocated_resources self !! request_id) as [old|] eqn:E.
  - rewrite (recorded_total_delete name request_id old _ E).
    pose proof (amount_of_valid _ old name (recorded_valid _ _ Hc _ _ E)). lra.
  - rewrite delete_id by done. lra.
Qed.

Lemma consistent_bounds (slack : string -> Q) (self : Allocator)
    (name : string) (r : Resource) :
  consistent slack self -> resources self !! name = Some r ->
  0 <= allocated r /\ allocated r <= total r.
Proof.
  intros Hc Hr. destruct (resource_bounds _ _ Hc name r Hr) as (_ & Hlow & Hhigh).
  pose proof (consistent_recorded_nonneg slack self name Hc).
  pose proof (slack_nonneg _ _ Hc name). lra.
Qed.

(** A full grant keeps the invariant; [slack'] may take over what an
    overwritten record of the same id accounted for. *)
Lemma consistent_grant (slack slack' : string -> Q) (self : Allocator)
    (request_id : string) (requirements : gmap string Q)
    (res' : gmap string Resource) :
  consistent slack self ->
  valid_requirements (resources self) requirements ->
  _check_availability self requirements = Ok true ->
  granted requirements (resources self) res' ->
  (forall name, 0 <= slack' name) ->
  (forall name, resources self !! name = None -> slack' name == 0) ->
  (forall name,
     recorded_total name (<[request_id := requirements]> (allocated_resources self))
     + slack' name
     <= amount_of requirements name
        + recorded_total name (allocated_resources self) + slack name) ->
  consistent slack'
    {| resources := res';
       pending_requests := pending_requests self;
       allocated_resources :=
         <[request_id := requirements]> (allocated_resources self) |}.
Proof.
  intros Hc Hvalid Hcheck Hgr Hs0 Hsreg Hsum.
  pose proof (granted_names _ _ _ Hgr) as Hnames.
  destruct Hgr as [Hnamed Hrest].
  unfold _check_availability in Hcheck.
  pose proof (proj1 (check_items_true _ _) Hcheck) as Hfits.
  split; simpl.
  - exact Hs0.
  - intros name Hnone. apply Hsreg.
    destruct (resources self !! name) eqn:E; [|done].
    assert (is_Some (res' !! name)) as [? ?] by (apply Hnames; eauto). congruence.
  - intros name r' Hr'. specialize (Hsum name).
    destruct (requirements !! name) as [a|] eqn:E.
    + destruct (Hnamed name a E) as (r & Hr & Hres'). 
      rewrite Hr' in Hres'. injection Hres' as ->. simpl.
      destruct (resource_bounds _ _ Hc name r Hr) as (Ht & Hlow & Hhigh).
      destruct (Hfits name a) as (r0 & Hr0 & Hcan);
        [by apply elem_of_map_to_list|].
      rewrite Hr in Hr0. injection Hr0 as <-.
      destruct (Hvalid name a E) as [Hpos _].
      pose proof (can_allocate_fits r a Hcan Hpos).
      unfold amount_of in Hsum. rewrite E in Hsum. simpl in Hsum.
      repeat split; lra.
    + rewrite (Hrest name E) in Hr'.
      destruct (resource_bounds _ _ Hc name r' Hr') as (Ht & Hlow & Hhigh).
      unfold amount_of in Hsum. rewrite E in Hsum. simpl in Hsum.
      repeat split; lra.
  - intros i reqs Hi.
    apply valid_requirements_same_names with (res := resources self);
      [intros name; apply Hnames|].
    destruct (decide (request_id = i)) as [->|Hne].
    + rewrite lookup_insert_eq in Hi. by injection Hi as <-.
    + rewrite lookup_insert_ne in Hi by done. by apply (recorded_valid _ _ Hc i).
  - intros req Hin.
    apply valid_requirements_same_names with (res := resources self);
      [intros name; apply Hnames|]. by apply (pending_valid _ _ Hc).
  - apply (pending_unmarked _ _ Hc).
Qed.

Lemma consistent_grant_same_slack (slack : string -> Q) (self : Allocator)
    (request_id : string) (requirements : gmap string Q)
    (res' : gmap string Resource) :
  consistent slack self ->
  valid_requirements (resources self) requirements ->
  _check_availability self requirements = Ok true ->
  granted requirements (resources self) res' ->
  consistent slack
    {| resources := res';
       pending_requests := pending_requests self;
       allocated_resources :=
         <[request_id := requirements]> (allocated_resources self) |}.
Proof.
  intros Hc Hvalid Hcheck Hgr.
  apply (consistent_grant slack slack self); try done.
  - apply (slack_nonneg _ _ Hc).
  - apply (slack_registered _ _ Hc).
  - intros name. rewrite recorded_total_insert.
    pose proof (consistent_delete_le slack self name request_id Hc). lra.
Qed.

(** Changing the queue alone keeps the invariant when the new queue is
    valid and unmarked. *)
Lemma consistent_queue (slack : string -> Q) (self : Allocator)
    (queue : list ResourceRequest) :
  consistent slack self ->
  (forall req, req ∈ queue ->
     valid_requirements (resources self) (requirements req)
     /\ req_allocated req = false) ->
  consistent slack
    {| resources := resources self;
       pending_requests := queue;
       allocated_resources := allocated_resources self |}.
Proof.
  intros Hc Hq. split; simpl; try apply Hc.
  - intros req Hin. by apply Hq.
  - intros req Hin. by apply Hq.
Qed.

Lemma consistent_register (slack : string -> Q) (self : Allocator)
    (name : string) (total : Q) (unit : string) :
  consistent slack self ->
  consistent slack (register_resource name total unit self).2.
Proof.
  intros Hc. unfold register_resource.
  destruct (resources self !! name) as [r|] eqn:Hname; [done|].
  destruct (Qle_bool total 0) eqn:Htotal; [done|]. qprops. simpl.
  assert (Hnames : forall n, is_Some (resources self !! n) ->
            is_Some (<[name := {| ResourceAllocator.name := name;
                                  ResourceAllocator.total := total;
                                  allocated := 0; unit_ := unit |}]>
                       (resources self) !! n)).
  { intros n [r Hr]. destruct (decide (name = n)) as [->|Hne]; [congruence|].
    rewrite lookup_insert_ne by done. eauto. }
  split; simpl.
  - apply (slack_nonneg _ _ Hc).
  - intros n Hn. apply (slack_registered _ _ Hc).
    destruct (decide (name = n)) as [->|Hne].
    + by rewrite lookup_insert_eq in Hn.
    + by rewrite lookup_insert_ne in Hn.
  - intros n r Hr. destruct (decide (name = n)) as [->|Hne].
    + rewrite lookup_insert_eq in Hr. injection Hr as <-. simpl.
      pose proof (slack_registered _ _ Hc n Hname) as Hs.
      assert (Hz : recorded_total n (allocated_resources self) == 0).
      { apply recorded_total_unnamed. intros i reqs Hi.
        eapply amount_of_unregistered; [|exact Hname].
        exact (recorded_valid _ _ Hc i reqs Hi). }
      repeat split; lra.
    + rewrite lookup_insert_ne in Hr by done.
      apply (resource_bounds _ _ Hc n r Hr).
  - intros i reqs Hi. eapply valid_requirements_same_names; [exact Hnames|].
    by apply (recorded_valid _ _ Hc i).
  - intros req Hin. eapply valid_requirements_same_names; [exact Hnames|].
    by apply (pending_valid _ _ Hc).
  - apply (pending_unmarked _ _ Hc).
Qed.

(** Giving back a recorded allocation returns exactly the recorded
    amounts and keeps the invariant. *)
Lemma consistent_release (slack : string -> Q) (self : Allocator)
    (request_id : string) (recorded : gmap string Q) :
  consistent slack self ->
  allocated_resources self !! request_id = Some recorded ->
  returned recorded (resources self)
           (release_items (map_to_list recorded) (resources self))
  /\ consistent slack
       {| resources := release_items (map_to_list recorded) (resources self);
          pending_requests := pending_requests self;
          allocated_resources := delete request_id (allocated_resources self) |}.
Proof.
  intros Hc Hrec.
  pose proof (recorded_valid _ _ Hc _ _ Hrec) as Hvalid.
  assert (Hamount : forall name a, recorded !! name = Some a ->
            exists r, resources self !! name = Some r /\ 0 <= a /\ a <= allocated r).
  { intros name a Ha. destruct (Hvalid name a Ha) as [Hpos [r Hr]].
    exists r. split; [done|]. split; [lra|].
    destruct (resource_bounds _ _ Hc name r Hr) as (_ & Hlow & _).
    pose proof (recorded_total_delete name request_id recorded _ Hrec) as Hsum.
    unfold amount_of in Hsum at 1. rewrite Ha in Hsum. simpl in Hsum.
    pose proof (consistent_delete_nonneg slack self name request_id Hc).
    pose proof (slack_nonneg _ _ Hc name). lra. }
  destruct (release_items_returned (map_to_list recorded)
              (NoDup_fst_map_to_list _) (resources self)) as [Hnamed Hrest].
  { intros name a Hin. apply Hamount. by apply elem_of_map_to_list. }
  assert (Hret : returned recorded (resources self)
                   (release_items (map_to_list recorded) (resources self))).
  { split.
    - intros name a Ha. apply Hnamed. by apply elem_of_map_to_list.
    - intros name Hnone. apply Hrest. rewrite items_keys, Hnone. by intros [? ?]. }
  split; [exact Hret|].
  pose proof (returned_names _ _ _ Hret) as Hnames.
  destruct Hret as [Hnamed' Hrest'].
  split; simpl.
  - apply (slack_nonneg _ _ Hc).
  - intros name Hnone. apply (slack_registered _ _ Hc).
    destruct (resources self !! name) eqn:E; [|done].
    assert (is_Some (release_items (map_to_list recorded) (resources self) !! name))
      as [? ?] by (apply Hnames; eauto). congruence.
  - intros name r' Hr'.
    pose proof (recorded_total_delete name request_id recorded _ Hrec) as Hsum.
    destruct (recorded !! name) as [a|] eqn:E.
    + destruct (Hnamed' name a E) as (r & Hr & Hres').
      rewrite Hr' in Hres'. injection Hres' as ->. simpl.
      destruct (resource_bounds _ _ Hc name r Hr) as (Ht & Hlow & Hhigh).
      destruct (Hvalid name a E) as [Hpos _].
      unfold amount_of in Hsum at 1. rewrite E in Hsum. simpl in Hsum.
      repeat split; lra.
    + rewrite (Hrest' name E) in Hr'.
      destruct (resource_bounds _ _ Hc name r' Hr') as (Ht & Hlow & Hhigh).
      unfold amount_of in Hsum at 1. rewrite E in Hsum. simpl in Hsum.
      repeat split; lra.
  - intros i reqs Hi. apply lookup_delete_Some in Hi as [_ Hi].
    apply valid_requirements_same_names with (res := resources self);
      [intros name; apply Hnames|]. by apply (recorded_valid _ _ Hc i).
  - intros req Hin.
    apply valid_requirements_same_names with (res := resources self);
      [intros name; apply Hnames|]. by apply (pending_valid _ _ Hc).
  - apply (pending_unmarked _ _ Hc).
Qed.

End Invariant.

Section Reprocessing.

Import ResourceAllocator Ledger.

(** *** The order of a reprocessing pass *)

Lemma key_lt_true (a b : ResourceRequest) :
  key_lt a b = true -> visits_before a b.
Proof.
  unfold key_lt, visits_before.
  intros [H|[H1 H2]%andb_true_iff]%orb_true_iff.
  - left. lia.
  - right. qprops. split; [lia | lra].
Qed.

Lemma key_lt_false (a b : ResourceRequest) :
  key_lt a b = false -> visits_before b a.
Proof.
  unfold key_lt, visits_before.
  intros [H1 H2]%orb_false_iff.
  apply Z.ltb_ge in H1.
  destruct (decide (req_priority a = req_priority b)) as [Heq|Hne].
  - right. split; [done|].
    rewrite Heq, Z.eqb_refl in H2. simpl in H2. by qprops.
  - left. lia.
Qed.

Lemma visits_before_trans (a b c : ResourceRequest) :
  visits_before a b -> visits_before b c -> visits_before a c.
Proof.
  unfold visits_before. intros [H1|[H1 H1']] [H2|[H2 H2']].
  - left. lia.
  - left. lia.
  - left. lia.
  - right. split; [lia | lra].
Qed.

Lemma insert_by_key_perm (x : ResourceRequest) (l : list ResourceRequest) :
  insert_by_key x l ≡ₚ x :: l.
Proof.
  induction l as [|y l IH]; simpl; [done|].
  destruct (key_lt y x); [|done].
  rewrite IH. apply Permutation_swap.
Qed.

Lemma sort_by_key_perm (l : list ResourceRequest) : sort_by_key l ≡ₚ l.
Proof.
  induction l as [|x l IH]; simpl; [done|].
  by rewrite insert_by_key_perm, IH.
Qed.

Lemma insert_by_key_sorted (x : ResourceRequest) (l : list ResourceRequest) :
  StronglySorted visits_before l ->
  StronglySorted visits_before (insert_by_key x l).
Proof.
  induction 1 as [|y l Hs IH Hy]; simpl.
  - repeat constructor.
  - destruct (key_lt y x) eqn:E.
    + constructor; [exact IH|].
      rewrite Forall_forall. intros z Hz.
      rewrite insert_by_key_perm in Hz.
      apply elem_of_cons in Hz as [->|Hz].
      * by apply key_lt_true.
      * rewrite Forall_forall in Hy. by apply Hy.
    + apply key_lt_false in E.
      constructor; [by constructor|].
      constructor; [exact E|].
      eapply Forall_impl; [exact Hy|]. simpl.
      intros z Hz. by apply (visits_before_trans x y z).
Qed.

Lemma sort_by_key_sorted (l : list ResourceRequest) :
  StronglySorted visits_before (sort_by_key l).
Proof.
  induction l as [|x l IH]; simpl; [constructor|].
  by apply insert_by_key_sorted.
Qed.

(** *** The grant loop, in any state *)


(** *** The grant loop over requests that name registered resources *)

Lemma _check_availability_defined (self : Allocator) (request : ResourceRequest) :
  names_registered self request ->
  exists b, _check_availability self (requirements request) = Ok b.
Proof.
  intros H. apply check_items_defined. intros name amount Hin.
  apply H. apply elem_of_map_to_list in Hin. eauto.
Qed.

Lemma grant_loop_reprocessed (requests : list ResourceRequest) :
  forall self : Allocator,
    (forall request, request ∈ requests -> names_registered self request) ->
    exists visited self',
      grant_loop requests self = (Ok (), visited, self')
      /\ reprocessed requests self visited self'.
Proof.
  induction requests as [|request rest IH]; intros self Hreg; simpl.
  - exists [], self. split; [done | constructor].
  - destruct (_check_availability_defined self request) as [b Hc];
      [apply Hreg; by left|].
    rewrite Hc. destruct b.
    + destruct (_allocate_resources_granted (req_id request) _ _ Hc)
        as (res1 & -> & Hgr).
      destruct (IH (grant_of request res1 self)) as (visited & self' & Hrun & Hre).
      { intros r Hin name Hname. simpl.
        apply (granted_names _ _ _ Hgr). apply (Hreg r); [by right | done]. }
      unfold grant_of in Hrun. rewrite Hrun.
      exists (mark_allocated request :: visited), self'.
      split; [done|]. by eapply reprocessed_grant.
    + destruct (IH self) as (visited & self' & Hrun & Hre).
      { intros r Hin. apply Hreg. by right. }
      rewrite Hrun. exists (request :: visited), self'.
      split; [done|]. by apply reprocessed_skip.
Qed.

End Reprocessing.

Section Walk.

Import ResourceAllocator Ledger.

Lemma no_less_allocated_refl (res : gmap string Resource) :
  no_less_allocated res res.
Proof. intros name r Hr. exists r. repeat split; [done | lra]. Qed.

Lemma no_less_allocated_trans (res1 res2 res3 : gmap string Resource) :
  no_less_allocated res1 res2 -> no_less_allocated res2 res3 ->
  no_less_allocated res1 res3.
Proof.
  intros H12 H23 name r Hr.
  destruct (H12 name r Hr) as (r2 & Hr2 & Ht2 & Ha2).
  destruct (H23 name r2 Hr2) as (r3 & Hr3 & Ht3 & Ha3).
  exists r3. repeat split; [done | congruence | lra].
Qed.

Lemma can_allocate_nonneg (r : Resource) (amount : Q) :
  can_allocate r amount = true -> 0 <= amount.
Proof. unfold can_allocate. intros [H _]%andb_true_iff. by qprops. Qed.

Lemma can_allocate_antitone (r r' : Resource) (amount : Q) :
  total r' = total r -> allocated r <= allocated r' ->
  can_allocate r amount = false -> can_allocate r' amount = false.
Proof.
  unfold can_allocate, available. intros Ht Ha H. rewrite Ht.
  destruct (Qle_bool 0 amount); simpl in *; [|done].
  apply Qle_bool_false in H. apply Qle_bool_false.
  destruct (py_max_spec 0 (total r - allocated r)) as [[? E]|[? E]];
    destruct (py_max_spec 0 (total r - allocated r')) as [[? E']|[? E']];
    rewrite E in H; rewrite E'; lra.
Qed.

Lemma granted_no_less (self : Allocator) (requirements : gmap string Q)
    (res' : gmap string Resource) :
  _check_availability self requirements = Ok true ->
  granted requirements (resources self) res' ->
  no_less_allocated (resources self) res'.
Proof.
  intros Hc [Hnamed Hrest] name r Hr.
  pose proof (proj1 (check_items_true _ _) Hc) as Hfits.
  destruct (requirements !! name) as [a|] eqn:E.
  - destruct (Hnamed name a E) as (r0 & Hr0 & Hres').
    rewrite Hr in Hr0. injection Hr0 as <-.
    destruct (Hfits name a) as (r1 & Hr1 & Hcan); [by apply elem_of_map_to_list|].
    pose proof (can_allocate_nonneg r1 a Hcan).
    eexists. split; [exact Hres'|]. simpl. split; [done | lra].
  - exists r. rewrite (Hrest name E). repeat split; [done | lra].
Qed.

Lemma check_items_stays_false (res res' : gmap string Resource)
    (items : list (string * Q)) :
  no_less_allocated res res' ->
  check_items res items = Ok false -> check_items res' items = Ok false.
Proof.
  intros Hgrow. induction items as [|[n a] items IH]; simpl; [done|].
  destruct (res !! n) as [r|] eqn:Hn; [|done].
  destruct (Hgrow n r Hn) as (r' & -> & Ht & Ha).
  destruct (can_allocate r a) eqn:Hc; simpl.
  - intros H. destruct (can_allocate r' a); simpl; [by apply IH | done].
  - intros _. by rewrite (can_allocate_antitone r r' a Ht Ha Hc).
Qed.

Lemma reprocessed_pending (requests visited : list ResourceRequest)
    (self self' : Allocator) :
  reprocessed requests self visited self' ->
  pending_requests self' = pending_requests self.
Proof. induction 1; simpl in *; congruence. Qed.

Lemma reprocessed_names (requests visited : list ResourceRequest)
    (self self' : Allocator) :
  reprocessed requests self visited self' ->
  forall name, is_Some (resources self !! name) <-> is_Some (resources self' !! name).
Proof.
  induction 1 as [|? ? ? ? ? _ _ IH|request rest self res1 visited self' _ Hgr _ IH];
    intros name; [done | apply IH |].
  rewrite <- IH. simpl. by apply (granted_names (requirements request)).
Qed.

Lemma reprocessed_no_less (requests visited : list ResourceRequest)
    (self self' : Allocator) :
  reprocessed requests self visited self' ->
  no_less_allocated (resources self) (resources self').
Proof.
  induction 1 as [|? ? ? ? ? _ _ IH|request rest self res1 visited self' Hc Hgr _ IH].
  - apply no_less_allocated_refl.
  - exact IH.
  - eapply no_less_allocated_trans; [|exact IH]. simpl.
    by apply (granted_no_less self (requirements request)).
Qed.

Lemma reprocessed_consistent (slack : string -> Q)
    (requests visited : list ResourceRequest) (self self' : Allocator) :
  reprocessed requests self visited self' ->
  consistent slack self ->
  (forall request, request ∈ requests ->
     valid_requirements (resources self) (requirements request)) ->
  consistent slack self'.
Proof.
  induction 1 as [|? ? ? ? ? _ _ IH|request rest self res1 visited self' Hc Hgr _ IH];
    intros Hcons Hvalid.
  - exact Hcons.
  - apply IH; [exact Hcons|]. intros r Hin. apply Hvalid. by right.
  - apply IH.
    + unfold grant_of. apply consistent_grant_same_slack; [done | | done | done].
      apply Hvalid. by left.
    + intros r Hin. simpl.
      apply valid_requirements_same_names with (res := resources self).
      * intros name Hname.
        by apply (granted_names (requirements request) (resources self) res1 Hgr).
      * apply Hvalid. by right.
Qed.


(** What a pass leaves unmarked it found unsatisfiable, and it is still
    unsatisfiable when the pass ends. *)
Lemma reprocessed_left_over (requests visited : list ResourceRequest)
    (self self' : Allocator) :
  reprocessed requests self visited self' ->
  forall v, v ∈ visited -> req_allocated v = false ->
    v ∈ requests /\ _check_availability self' (requirements v) = Ok false.
Proof.
  induction 1 as [|request rest self visited self' Hc Hre IH
                  |request rest self res1 visited self' Hc Hgr Hre IH];
    intros v Hin Hv.
  - by apply elem_of_nil in Hin.
  - apply elem_of_cons in Hin as [->|Hin].
    + split; [by left|].
      apply (check_items_stays_false (resources self)); [|exact Hc].
      by apply (reprocessed_no_less rest visited).
    + destruct (IH v Hin Hv). split; [by right | done].
  - apply elem_of_cons in Hin as [->|Hin]; [done|].
    destruct (IH v Hin Hv). split; [by right | done].
Qed.

(** With an unmarked queue, the unmarked part of what a pass returns is
    the queue without the granted requests, in the same order. *)
Lemma reprocessed_sublist (requests visited : list ResourceRequest)
    (self self' : Allocator) :
  reprocessed requests self visited self' ->
  filter (fun req => req_allocated req = false) visited `sublist_of` requests.
Proof.
  induction 1 as [|request rest self visited self' Hc Hre IH
                  |request rest self res1 visited self' Hc Hgr Hre IH].
  - done.
  - rewrite filter_cons. destruct (decide (req_allocated request = false)).
    + by apply sublist_skip.
    + by apply sublist_cons.
  - rewrite filter_cons. simpl.
    destruct (decide (true = false)); [done|]. by apply sublist_cons.
Qed.

(** Every request a pass takes out of an unmarked queue was granted in
    full when its turn came; together with the requests left in place
    that is the [all_or_nothing] walk. *)
Lemma reprocessed_all_or_nothing (requests visited : list ResourceRequest)
    (self self' : Allocator) :
  reprocessed requests self visited self' ->
  all_or_nothing requests (resources self) visited (resources self').
Proof.
  induction 1 as [|request rest self visited self' Hc Hre IH
                  |request rest self res1 visited self' Hc Hgr Hre IH].
  - constructor.
  - by apply walk_skip.
  - by eapply walk_grant.
Qed.

End Walk.

Section Calls.

Import ResourceAllocator Ledger.

Lemma valid_names_registered (self : Allocator) (request : ResourceRequest) :
  valid_requirements (resources self) (requirements request) ->
  names_registered self request.
Proof. intros H name [a Ha]. by destruct (H name a Ha). Qed.

Lemma order_of_pass (current_time : Q) (self : Allocator) (request : ResourceRequest) :
  request ∈ sort_by_key (filter (fun req => alive current_time req = true)
                                (pending_requests self)) ->
  request ∈ pending_requests self /\ alive current_time request = true.
Proof.
  rewrite sort_by_key_perm. intros [? ?]%list_elem_of_filter. done.
Qed.

(** Reprocessing in a consistent state: no call raises, the walk is the
    one of the design document, and the state stays consistent. *)
Lemma _process_pending_requests_consistent (slack : string -> Q)
    (current_time : Q) (self : Allocator) :
  consistent slack self ->
  exists visited self',
    reprocessed
      (sort_by_key (filter (fun req => alive current_time req = true)
                           (pending_requests self)))
      self visited self'
    /\ _process_pending_requests current_time self
       = (Ok (),
          {| resources := resources self';
             pending_requests := filter (fun req => req_allocated req = false) visited;
             allocated_resources := allocated_resources self' |})
    /\ consistent slack (_process_pending_requests current_time self).2.
Proof.
  intros Hc.
  set (order := sort_by_key (filter (fun req => alive current_time req = true)
                                    (pending_requests self))).
  assert (Hvalid : forall request, request ∈ order ->
            valid_requirements (resources self) (requirements request)).
  { intros request [Hin _]%order_of_pass. by apply (pending_valid _ _ Hc). }
  destruct (grant_loop_reprocessed order self) as (visited & self' & Hrun & Hre).
  { intros request Hin. by apply valid_names_registered, Hvalid. }
  exists visited, self'. split; [exact Hre|].
  assert (Hout : _process_pending_requests current_time self
                 = (Ok (),
                    {| resources := resources self';
                       pending_requests :=
                         filter (fun req => req_allocated req = false) visited;
                       allocated_resources := allocated_resources self' |})).
  { unfold _process_pending_requests. fold order. by rewrite Hrun. }
  split; [exact Hout|]. rewrite Hout. simpl.
  apply consistent_queue.
  - by apply (reprocessed_consistent slack order visited self).
  - intros v [Hv Hin]%list_elem_of_filter. split; [|done].
    destruct (reprocessed_left_over _ _ _ _ Hre v Hin Hv) as [Hord _].
    apply valid_requirements_same_names with (res := resources self).
    + intros name Hname.
      by apply (reprocessed_names order visited self self' Hre).
    + by apply Hvalid.
Qed.

Lemma request_resources_consistent (slack : string -> Q) (self : Allocator)
    (request_id : string) (requirements : gmap string Q) (priority : Z)
    (timeout : option Q) (now : Q) :
  consistent slack self ->
  (exists b,
     (request_resources request_id requirements priority timeout now self).1 = Ok b)
  /\ consistent slack
       (request_resources request_id requirements priority timeout now self).2.
Proof.
  intros Hc. unfold request_resources.
  destruct (_validate_request self requirements) eqn:Hv; simpl; [|by eauto].
  apply _validate_request_true in Hv.
  destruct (check_items_defined (resources self) (map_to_list requirements))
    as [b Hb].
  { intros name amount Hin. apply elem_of_map_to_list in Hin.
    by destruct (Hv name amount Hin). }
  change (_check_availability self requirements = Ok b) in Hb.
  rewrite Hb. destruct b.
  - destruct (_allocate_resources_granted request_id requirements self Hb)
      as (res' & -> & Hgr).
    split; [by eauto|]. simpl. by apply consistent_grant_same_slack.
  - split; [by eauto|]. simpl.
    apply (consistent_queue slack self); [done|].
    intros req [Hin| ->%list_elem_of_singleton]%elem_of_app.
    + split; [by apply (pending_valid _ _ Hc) | by apply (pending_unmarked _ _ Hc)].
    + done.
Qed.

Lemma release_resources_consistent (slack : string -> Q) (self : Allocator)
    (request_id : string) (now : Q) :
  consistent slack self ->
  consistent slack (release_resources request_id now self).2.
Proof.
  intros Hc. unfold release_resources.
  destruct (allocated_resources self !! request_id) as [recorded|] eqn:Hrec;
    [|done].
  destruct (consistent_release slack self request_id recorded Hc Hrec) as [_ Hc1].
  destruct (_process_pending_requests_consistent slack now _ Hc1)
    as (visited & self' & _ & Hout & Hc2).
  rewrite Hout in *. exact Hc2.
Qed.

Lemma perform_consistent (slack : string -> Q) (c : call) (self : Allocator) :
  consistent slack self -> consistent slack (perform c self).
Proof.
  intros Hc. destruct c; simpl.
  - by apply consistent_register.
  - by apply request_resources_consistent.
  - by apply release_resources_consistent.
Qed.



End Calls.

Section AllocatorClaims.

Import ResourceAllocator Ledger.




End AllocatorClaims.

Section ReleaseClaims.

Import ResourceAllocator Ledger.



(** The other sentence of C6 that needs a proviso: a second release of an
  id returns True when the reprocessing of the first release granted a
  queued request that carries the same id. *)
Lemma second_release_of_regranted_id :
let calls := [ Register "gpu" 2 "units";
               Request "A" {[ "gpu"%string := 1 ]} 5 None 0;
               Request "A" {[ "gpu"%string := 2 ]} 5 None 1 ] in
let once := release_resources "A" 2 (run calls new_allocator) in
once.1 = true /\ (release_resources "A" 3 once.2).1 = true.
Proof. vm_compute. split; reflexivity. Qed.



End ReleaseClaims.

(** ** The allocator in binary64 *)

Section RoundedAllocator.

Import Binary64 PrimFloat.
#[local] Set Warnings "-inexact-float".

(** C2: the code breaks the bound.  With a resource of 1.7 units, a
  request for 0.6 and one for 1.1 are both granted, since
  [1.1 <= 1.7 - 0.6] holds in binary64, and [0.6 + 1.1] is
  1.7000000000000002: the allocated amount exceeds the total. *)
Theorem allocated_exceeds_total :
let calls := [ Register "gpu" 1.7 "units";
               Request "A" {[ "gpu"%string := 0.6%float ]} 0 None 0 ] in
let self := run calls new_allocator in
let requested := request_resources "B" {[ "gpu"%string := 1.1%float ]} 0 None 1 self in
requested.1 = Ok true
/\ resources requested.2 !! "gpu"%string
   = Some {| name := "gpu"; total := 1.7; allocated := 1.7000000000000002;
             unit_ := "units" |}
/\ (1.7 <? 1.7000000000000002)%float = true.
Proof. vm_compute. repeat split; reflexivity. Qed.

(** What the getters report in that state: a utilization above 100
  percent, and nothing available. *)
Lemma utilization_above_100_percent :
let r := {| name := "gpu"; total := 1.7; allocated := 1.7000000000000002;
            unit_ := "units" |} in
utilization r = 100.00000000000003%float /\ available r = 0%float.
Proof. vm_compute. split; reflexivity. Qed.

(** A release that [Resource.release] refuses.  After [0.4 + 0.1 - 0.4]
  the resource holds 0.09999999999999998, less than the 0.1 recorded for
  "B": its release leaves the amount where it is, deletes the record and
  returns True. *)
Lemma release_refused_yet_reported :
let calls := [ Register "gpu" 0.6 "units";
               Request "A" {[ "gpu"%string := 0.4%float ]} 0 None 0;
               Request "B" {[ "gpu"%string := 0.1%float ]} 0 None 1;
               Release "A" 2 ] in
let self := run calls new_allocator in
let released := release_resources "B" 3 self in
allocated_resources self !! "B"%string = Some {[ "gpu"%string := 0.1%float ]}
/\ allocated <$> resources self !! "gpu"%string = Some 0.09999999999999998%float
/\ released.1 = true
/\ allocated <$> resources released.2 !! "gpu"%string = Some 0.09999999999999998%float
/\ allocated_resources released.2 = ∅.
Proof. vm_compute. repeat split; reflexivity. Qed.


End RoundedAllocator.

(** * Further properties *)

(** ** The allocator under all its calls *)

Section Optimization.

Import ResourceAllocator Ledger.

Lemma granted_unique (requirements : gmap string Q)
    (res res1 res2 : gmap string Resource) :
  granted requirements res res1 -> granted requirements res res2 -> res1 = res2.
Proof.
  intros [Hn1 Hr1] [Hn2 Hr2]. apply map_eq. intros key.
  destruct (requirements !! key) as [a|] eqn:E.
  - destruct (Hn1 key a E) as (r1 & Hres & ->).
    destruct (Hn2 key a E) as (r2 & Hres' & ->). congruence.
  - by rewrite (Hr1 key E), (Hr2 key E).
Qed.

(** The counting loop does what the reprocessing walk does, and counts
    the requests that leave the queue. *)
Lemma optimize_loop_reprocessed (requests visited : list ResourceRequest)
    (self self' : Allocator) :
  reprocessed requests self visited self' ->
  (forall req, req ∈ requests -> req_allocated req = false) ->
  forall n : nat,
    optimize_loop requests self n
    = (Ok (), visited, self',
       (n + (length requests
             - length (filter (fun req => req_allocated req = false) visited)))%nat).
Proof.
  induction 1 as [|request rest self visited self' Hc Hre IH
                  |request rest self res1 visited self' Hc Hgr Hre IH];
    intros Hun n; simpl.
  - f_equal. lia.
  - rewrite Hc, IH by (intros req Hin; apply Hun; by right).
    pose proof (sublist_length _ _ (reprocessed_sublist _ _ _ _ Hre)) as Hlen.
    rewrite filter_cons.
    destruct (decide (req_allocated request = false)) as [_|Hd];
      [|destruct Hd; apply Hun; by left].
    simpl. repeat f_equal; lia.
  - rewrite Hc.
    destruct (_allocate_resources_granted (req_id request) _ _ Hc)
      as (res' & -> & Hgr').
    rewrite (granted_unique _ _ _ _ Hgr' Hgr).
    change {| resources := res1;
              pending_requests := pending_requests self;
              allocated_resources :=
                <[req_id request := requirements request]> (allocated_resources self) |}
      with (grant_of request res1 self).
    rewrite IH by (intros req Hin; apply Hun; by right).
    pose proof (sublist_length _ _ (reprocessed_sublist _ _ _ _ Hre)) as Hlen.
    rewrite filter_cons. simpl.
    destruct (decide (true = false)) as [Hd|_]; [discriminate Hd|].
    repeat f_equal. lia.
Qed.

Lemma optimize_queue_consistent (slack : string -> Q) (which : AllocationStrategy)
    (queue : list ResourceRequest) (self : Allocator) :
  consistent slack self ->
  (forall req, req ∈ queue -> req ∈ pending_requests self) ->
  exists visited self',
    reprocessed queue self visited self'
    /\ optimize_queue which queue self
       = (Ok {| strategy := which; optimized := true;
                average_utilization := None;
                processed_requests :=
                  Some (length queue
                        - length (filter (fun req => req_allocated req = false)
                                         visited))%nat |},
          {| resources := resources self';
             pending_requests := filter (fun req => req_allocated req = false) visited;
             allocated_resources := allocated_resources self' |})
    /\ consistent slack (optimize_queue which queue self).2.
Proof.
  intros Hc Hsub.
  assert (Hvalid : forall request, request ∈ queue ->
            valid_requirements (resources self) (requirements request)).
  { intros request Hin. apply (pending_valid _ _ Hc), Hsub, Hin. }
  destruct (grant_loop_reprocessed queue self) as (visited & self' & _ & Hre).
  { intros request Hin. apply valid_names_registered, Hvalid, Hin. }
  exists visited, self'. split; [exact Hre|].
  assert (Hout : optimize_queue which queue self
       = (Ok {| strategy := which; optimized := true;
                average_utilization := None;
                processed_requests :=
                  Some (length queue
                        - length (filter (fun req => req_allocated req = false)
                                         visited))%nat |},
          {| resources := resources self';
             pending_requests := filter (fun req => req_allocated req = false) visited;
             allocated_resources := allocated_resources self' |})).
  { unfold optimize_queue. rewrite (optimize_loop_reprocessed _ _ _ _ Hre).
    - reflexivity.
    - intros req Hin. apply (pending_unmarked _ _ Hc), Hsub, Hin. }
  split; [exact Hout|]. rewrite Hout. simpl.
  apply consistent_queue.
  - by apply (reprocessed_consistent slack queue visited self).
  - intros v [Hv Hin]%list_elem_of_filter. split; [|exact Hv].
    destruct (reprocessed_left_over _ _ _ _ Hre v Hin Hv) as [Hord _].
    apply valid_requirements_same_names with (res := resources self).
    + intros key Hkey.
      exact (proj1 (reprocessed_names queue visited self self' Hre key) Hkey).
    + apply Hvalid, Hord.
Qed.

Lemma insert_by_priority_perm (x : ResourceRequest) (l : list ResourceRequest) :
  insert_by_priority x l ≡ₚ x :: l.
Proof.
  induction l as [|y l IH]; simpl; [reflexivity|].
  destruct (priority_lt y x); [|reflexivity].
  rewrite IH. apply Permutation_swap.
Qed.

Lemma sort_by_priority_perm (l : list ResourceRequest) : sort_by_priority l ≡ₚ l.
Proof.
  induction l as [|x l IH]; simpl; [reflexivity|].
  by rewrite insert_by_priority_perm, IH.
Qed.

Lemma optimize_allocation_consistent (slack : string -> Q)
    (which : AllocationStrategy) (self : Allocator) :
  consistent slack self -> consistent slack (optimize_allocation which self).2.
Proof.
  intros Hc. destruct which; simpl.
  - exact Hc.
  - destruct (optimize_queue_consistent slack PRIORITY
                (sort_by_priority (pending_requests self)) self Hc)
      as (_ & _ & _ & _ & H); [|exact H].
    intros req Hin. by rewrite sort_by_priority_perm in Hin.
  - destruct (optimize_queue_consistent slack FIRST_COME
                (pending_requests self) self Hc)
      as (_ & _ & _ & _ & H); [|exact H]. auto.
Qed.

Lemma releases_consistent (slack : string -> Q) (clock : string -> Q)
    (ids : list string) :
  forall self, consistent slack self ->
    consistent slack
      (foldl (fun s request_id => (release_resources request_id (clock request_id) s).2)
             self ids).
Proof.
  induction ids as [|i ids IH]; intros self Hc; simpl; [exact Hc|].
  apply IH. by apply release_resources_consistent.
Qed.

Lemma shutdown_consistent (slack : string -> Q) (order : list string)
    (clock : string -> Q) (self : Allocator) :
  consistent slack self -> consistent slack (shutdown order clock self).
Proof.
  intros Hc. unfold shutdown.
  apply (consistent_queue slack
           (foldl (fun s request_id =>
                     (release_resources request_id (clock request_id) s).2)
                  self order) []).
  - by apply releases_consistent.
  - intros req Hin. destruct (proj1 (elem_of_nil _) Hin).
Qed.

Lemma perform_any_consistent (slack : string -> Q) (c : any_call) (self : Allocator) :
  consistent slack self -> consistent slack (perform_any c self).
Proof.
  intros Hc. destruct c; simpl.
  - by apply perform_consistent.
  - by apply optimize_allocation_consistent.
  - by apply shutdown_consistent.
Qed.

Lemma run_any_consistent (slack : string -> Q) (calls : list any_call) :
  forall self, consistent slack self -> consistent slack (run_any calls self).
Proof.
  induction calls as [|c calls IH]; intros self Hc; [exact Hc|].
  simpl. apply IH. by apply perform_any_consistent.
Qed.

End Optimization.

Section AllocatorExtras.

Import ResourceAllocator Ledger.

Lemma reachable_any_consistent (calls : list any_call) :
  consistent (fun _ => 0) (run_any calls new_allocator).
Proof. apply run_any_consistent, consistent_new. Qed.

(** X4: a request that names an unregistered resource, or asks for an
  amount that is not positive, is refused in any state: the call returns
  False, nothing is allocated and the request is not queued. *)
Theorem invalid_request_is_refused (self : Allocator) (request_id : string)
  (requirements : gmap string Q) (priority : Z) (timeout : option Q) (now : Q)
  (key : string) (amount : Q) :
requirements !! key = Some amount ->
resources self !! key = None \/ amount <= 0 ->
request_resources request_id requirements priority timeout now self = (Ok false, self).
Proof.
intros Hin Hbad. unfold request_resources.
destruct (_validate_request self requirements) eqn:Hv; [|reflexivity].
apply _validate_request_true in Hv.
destruct (Hv key amount Hin) as [Hpos [r Hr]].
destruct Hbad as [Hnone|Hle]; [congruence | lra].
Qed.

Lemma invalid_request_is_refused_witness :
let self := (register_resource "gpu" 2 "units" new_allocator).2 in
let requirements : gmap string Q := {[ "gpu"%string := 1; "disk"%string := 1 ]} in
requirements !! "disk"%string = Some 1
/\ (resources self !! "disk"%string = None \/ 1 <= 0)
/\ request_resources "A" requirements 0 None 0 self = (Ok false, self).
Proof.
intros self requirements.
assert (H1 : requirements !! "disk"%string = Some 1) by reflexivity.
assert (H2 : resources self !! "disk"%string = None \/ 1 <= 0) by (left; reflexivity).
split; [exact H1|]. split; [exact H2|].
exact (invalid_request_is_refused self "A" requirements 0 None 0 "disk" 1 H1 H2).
Defined.

End AllocatorExtras.

Section Registry.

Import ResourceAllocator Ledger.

Lemma same_resources_refl (res : gmap string Resource) : same_resources res res.
Proof. intros key r Hr. exists r. repeat split. exact Hr. Qed.

Lemma same_resources_trans (res1 res2 res3 : gmap string Resource) :
  same_resources res1 res2 -> same_resources res2 res3 -> same_resources res1 res3.
Proof.
  intros H12 H23 key r Hr.
  destruct (H12 key r Hr) as (r2 & Hr2 & Hn2 & Ht2 & Hu2).
  destruct (H23 key r2 Hr2) as (r3 & Hr3 & Hn3 & Ht3 & Hu3).
  exists r3. repeat split; congruence.
Qed.

Lemma same_resources_update (res : gmap string Resource) (key : string)
    (r r' : Resource) :
  res !! key = Some r ->
  name r' = name r -> total r' = total r -> unit_ r' = unit_ r ->
  same_resources res (<[key := r']> res).
Proof.
  intros Hr Hn Ht Hu k r0 Hr0. destruct (decide (key = k)) as [->|Hne].
  - rewrite lookup_insert_eq. exists r'. rewrite Hr in Hr0. injection Hr0 as <-.
    repeat split; assumption.
  - rewrite lookup_insert_ne by exact Hne. exists r0. repeat split. exact Hr0.
Qed.

Lemma allocate_same (r : Resource) (amount : Q) :
  name (allocate r amount).2 = name r
  /\ total (allocate r amount).2 = total r
  /\ unit_ (allocate r amount).2 = unit_ r.
Proof. unfold allocate. destruct (can_allocate r amount); simpl; repeat split. Qed.

Lemma release_same (r : Resource) (amount : Q) :
  name (release r amount).2 = name r
  /\ total (release r amount).2 = total r
  /\ unit_ (release r amount).2 = unit_ r.
Proof.
  unfold release.
  destruct (Qltb amount 0 || Qltb (allocated r) amount); simpl; repeat split.
Qed.

Lemma allocate_items_same (items : list (string * Q)) :
  forall res, same_resources res (allocate_items items res).2.
Proof.
  induction items as [|[n a] items IH]; intros res; simpl.
  - apply same_resources_refl.
  - destruct (res !! n) as [r|] eqn:Hr; [|apply same_resources_refl].
    eapply same_resources_trans; [|apply IH].
    destruct (allocate_same r a) as (Hn & Ht & Hu).
    by apply (same_resources_update res n r).
Qed.

Lemma release_items_same (items : list (string * Q)) :
  forall res, same_resources res (release_items items res).
Proof.
  induction items as [|[n a] items IH]; intros res; simpl.
  - apply same_resources_refl.
  - destruct (res !! n) as [r|] eqn:Hr; [|apply IH].
    eapply same_resources_trans; [|apply IH].
    destruct (release_same r a) as (Hn & Ht & Hu).
    by apply (same_resources_update res n r).
Qed.

Lemma _allocate_resources_same (request_id : string) (requirements : gmap string Q)
    (self : Allocator) :
  same_resources (resources self)
    (resources (_allocate_resources request_id requirements self).2).
Proof.
  unfold _allocate_resources.
  pose proof (allocate_items_same (map_to_list requirements) (resources self)) as H.
  destruct (allocate_items (map_to_list requirements) (resources self)). exact H.
Qed.

Lemma grant_loop_same (requests : list ResourceRequest) :
  forall self, same_resources (resources self)
                              (resources (grant_loop requests self).2).
Proof.
  induction requests as [|request rest IH]; intros self; simpl.
  - apply same_resources_refl.
  - destruct (_check_availability self (requirements request)) as [[|]|e].
    + pose proof (_allocate_resources_same (req_id request) (requirements request) self)
        as H1.
      destruct (_allocate_resources (req_id request) (requirements request) self)
        as [[[]|e] self1]; simpl in *; [|exact H1].
      specialize (IH self1).
      destruct (grant_loop rest self1) as [[o v] s']. simpl in *.
      by apply (same_resources_trans _ (resources self1)).
    + specialize (IH self). destruct (grant_loop rest self) as [[o v] s']. exact IH.
    + apply same_resources_refl.
Qed.

Lemma optimize_loop_same (requests : list ResourceRequest) :
  forall self n, same_resources (resources self)
                                (resources (optimize_loop requests self n).1.2).
Proof.
  induction requests as [|request rest IH]; intros self n; simpl.
  - apply same_resources_refl.
  - destruct (_check_availability self (requirements request)) as [[|]|e].
    + pose proof (_allocate_resources_same (req_id request) (requirements request) self)
        as H1.
      destruct (_allocate_resources (req_id request) (requirements request) self)
        as [[[]|e] self1]; simpl in *; [|exact H1].
      specialize (IH self1 (S n)).
      destruct (optimize_loop rest self1 (S n)) as [[[o v] s'] m]. simpl in *.
      by apply (same_resources_trans _ (resources self1)).
    + specialize (IH self n).
      destruct (optimize_loop rest self n) as [[[o v] s'] m]. exact IH.
    + apply same_resources_refl.
Qed.

Lemma _process_pending_requests_same (current_time : Q) (self : Allocator) :
  same_resources (resources self)
                 (resources (_process_pending_requests current_time self).2).
Proof.
  unfold _process_pending_requests.
  set (order := sort_by_key _).
  pose proof (grant_loop_same order self) as H.
  destruct (grant_loop order self) as [[[[]|e] v] s']; exact H.
Qed.

Lemma release_resources_same (request_id : string) (now : Q) (self : Allocator) :
  same_resources (resources self)
                 (resources (release_resources request_id now self).2).
Proof.
  unfold release_resources.
  destruct (allocated_resources self !! request_id) as [recorded|];
    [|apply same_resources_refl].
  set (self1 := {| resources := release_items _ _ |}).
  pose proof (_process_pending_requests_same now self1) as H.
  destruct (_process_pending_requests now self1) as [[[]|e] s2]; simpl in *;
    (eapply same_resources_trans; [apply release_items_same | exact H]).
Qed.

Lemma request_resources_same (request_id : string) (requirements : gmap string Q)
    (priority : Z) (timeout : option Q) (now : Q) (self : Allocator) :
  same_resources (resources self)
    (resources (request_resources request_id requirements priority timeout now self).2).
Proof.
  unfold request_resources.
  destruct (_validate_request self requirements); simpl; [|apply same_resources_refl].
  destruct (_check_availability self requirements) as [[|]|e];
    try apply same_resources_refl.
  pose proof (_allocate_resources_same request_id requirements self) as H.
  destruct (_allocate_resources request_id requirements self) as [[[]|e] s']; exact H.
Qed.

Lemma register_resource_same (key : string) (total : Q) (unit : string)
    (self : Allocator) :
  same_resources (resources self)
                 (resources (register_resource key total unit self).2).
Proof.
  unfold register_resource.
  destruct (resources self !! key) as [r|] eqn:Hkey; [apply same_resources_refl|].
  destruct (Qle_bool total 0); [apply same_resources_refl|]. simpl.
  intros k r Hr. exists r. rewrite lookup_insert_ne by congruence.
  repeat split. exact Hr.
Qed.

Lemma optimize_queue_same (which : AllocationStrategy)
    (queue : list ResourceRequest) (self : Allocator) :
  same_resources (resources self) (resources (optimize_queue which queue self).2).
Proof.
  unfold optimize_queue.
  pose proof (optimize_loop_same queue self 0) as H.
  destruct (optimize_loop queue self 0) as [[[[[]|e] v] s'] m]; exact H.
Qed.

Lemma shutdown_same (order : list string) (clock : string -> Q) (self : Allocator) :
  same_resources (resources self) (resources (shutdown order clock self)).
Proof.
  unfold shutdown. simpl. revert self.
  induction order as [|i ids IH]; intros self; simpl; [apply same_resources_refl|].
  eapply same_resources_trans; [apply (release_resources_same i (clock i))|apply IH].
Qed.

Lemma perform_any_same (c : any_call) (self : Allocator) :
  same_resources (resources self) (resources (perform_any c self)).
Proof.
  destruct c as [[| |]| [| |] |]; simpl.
  - apply register_resource_same.
  - apply request_resources_same.
  - apply release_resources_same.
  - apply same_resources_refl.
  - apply optimize_queue_same.
  - apply optimize_queue_same.
  - apply shutdown_same.
Qed.

(** X6: a registered resource stays registered, with the name, total and
  unit it was registered with, through every later call, in any state;
  register_resource never replaces it. *)
Theorem registered_resources_persist (calls : list any_call) (self : Allocator)
  (key : string) (r : Resource) :
resources self !! key = Some r ->
exists r', resources (run_any calls self) !! key = Some r'
           /\ name r' = name r /\ total r' = total r /\ unit_ r' = unit_ r.
Proof.
revert self r. induction calls as [|c calls IH]; intros self r Hr; simpl.
- exists r. repeat split. exact Hr.
- destruct (perform_any_same c self key r Hr) as (r1 & Hr1 & Hn1 & Ht1 & Hu1).
  destruct (IH _ r1 Hr1) as (r2 & Hr2 & Hn2 & Ht2 & Hu2).
  exists r2. repeat split; congruence.
Qed.

Lemma registered_resources_persist_witness :
let self := (register_resource "gpu" 2 "units" new_allocator).2 in
let r := {| name := "gpu"; total := 2; allocated := 0; unit_ := "units" |} in
let calls := [ Basic (Request "A" {[ "gpu"%string := 1 ]} 5 None 0);
               Basic (Register "gpu" 9 "slots");
               Shutdown ["A"%string] (fun _ => 1) ] in
resources self !! "gpu"%string = Some r
/\ exists r', resources (run_any calls self) !! "gpu"%string = Some r'
              /\ name r' = name r /\ total r' = total r /\ unit_ r' = unit_ r.
Proof.
intros self r calls.
assert (H : resources self !! "gpu"%string = Some r) by reflexivity.
split; [exact H|].
exact (registered_resources_persist calls self "gpu" r H).
Defined.

End Registry.

Section Composition.

Import ResourceAllocator Ledger.

(** Releasing a recorded id while nothing is queued. *)
Lemma release_with_empty_queue (slack : string -> Q) (self : Allocator)
    (request_id : string) (recorded : gmap string Q) (now : Q) :
  consistent slack self ->
  pending_requests self = [] ->
  allocated_resources self !! request_id = Some recorded ->
  let self1 := {| resources := release_items (map_to_list recorded) (resources self);
                  pending_requests := [];
                  allocated_resources := delete request_id (allocated_resources self) |} in
  release_resources request_id now self = (true, self1)
  /\ consistent slack self1
  /\ returned recorded (resources self) (resources self1).
Proof.
  intros Hc Hempty Hrec self1.
  destruct (consistent_release slack self request_id recorded Hc Hrec) as [Hret Hc1].
  rewrite Hempty in Hc1.
  split; [|split; [exact Hc1 | exact Hret]].
  unfold release_resources. rewrite Hrec, Hempty. reflexivity.
Qed.

Lemma request_resources_granted_inv (self : Allocator) (request_id : string)
    (requirements : gmap string Q) (priority : Z) (timeout : option Q) (now : Q) :
  (request_resources request_id requirements priority timeout now self).1 = Ok true ->
  _validate_request self requirements = true
  /\ _check_availability self requirements = Ok true.
Proof.
  unfold request_resources.
  destruct (_validate_request self requirements); simpl; [|discriminate].
  destruct (_check_availability self requirements) as [[|]|e]; simpl;
    [auto | discriminate | discriminate].
Qed.

(** X7: round trip on the records.  In a state reached by calls on a
  fresh allocator with nothing queued, a request under an id that holds
  no allocation, once granted, is forgotten by the release of that id:
  the release returns True, the records are what they were before the
  request, the queue is still empty and every resource is registered as
  it was.  (The amounts go through an addition and a subtraction, which
  need not cancel in binary64.) *)
Theorem request_then_release_restores (calls : list any_call) (request_id : string)
  (requirements : gmap string Q) (priority : Z) (timeout : option Q) (now now' : Q) :
let self := run_any calls new_allocator in
let requested := request_resources request_id requirements priority timeout now self in
let released := release_resources request_id now' requested.2 in
pending_requests self = [] ->
allocated_resources self !! request_id = None ->
requested.1 = Ok true ->
released.1 = true
/\ allocated_resources released.2 = allocated_resources self
/\ pending_requests released.2 = []
/\ (forall key r, resources self !! key = Some r ->
      exists r', resources released.2 !! key = Some r'
                 /\ name r' = name r /\ total r' = total r /\ unit_ r' = unit_ r).
Proof.
intros self requested released Hempty Hfresh Hok.
pose proof (reachable_any_consistent calls) as Hc. fold self in Hc.
destruct (request_resources_granted_inv _ _ _ _ _ _ Hok) as [Hv Hcheck].
destruct (_allocate_resources_granted request_id requirements self Hcheck)
  as (res1 & Halloc & Hgr).
set (self1 := {| resources := res1;
                 pending_requests := pending_requests self;
                 allocated_resources :=
                   <[request_id := requirements]> (allocated_resources self) |}).
assert (Hreq : requested = (Ok true, self1)).
{ unfold requested, request_resources. by rewrite Hv, Hcheck, Halloc. }
assert (Hc1 : consistent (fun _ => 0) self1).
{ apply consistent_grant_same_slack; try assumption.
  by apply _validate_request_true. }
destruct (release_with_empty_queue _ self1 request_id requirements now' Hc1 Hempty
            (lookup_insert_eq _ _ _)) as (Hrel & _ & Hret).
unfold released. rewrite Hreq. simpl. rewrite Hrel. simpl.
split; [reflexivity|]. split; [by apply delete_insert_id|]. split; [reflexivity|].
intros key r Hr. destruct Hgr as [Hgn Hgo], Hret as [Hrn Hro]. simpl in *.
destruct (requirements !! key) as [a|] eqn:E.
- destruct (Hgn key a E) as (r0 & Hr0 & Hres1).
  destruct (Hrn key a E) as (r1 & Hr1 & Hres2).
  rewrite Hr in Hr0. injection Hr0 as <-.
  rewrite Hres1 in Hr1. injection Hr1 as <-.
  eexists. split; [exact Hres2|]. simpl. repeat split.
- exists r. rewrite (Hro key E), (Hgo key E).
  split; [exact Hr|]. repeat split.
Qed.

Lemma request_then_release_restores_witness :
let calls := [ Basic (Register "gpu" 4 "units");
               Basic (Request "A" {[ "gpu"%string := 1 ]} 5 None 0) ] in
let self := run_any calls new_allocator in
let requested := request_resources "B" {[ "gpu"%string := 2 ]} 1 None 1 self in
let released := release_resources "B" 2 requested.2 in
released.1 = true
/\ allocated_resources released.2 = allocated_resources self
/\ pending_requests released.2 = []
/\ (forall key r, resources self !! key = Some r ->
      exists r', resources released.2 !! key = Some r'
                 /\ name r' = name r /\ total r' = total r /\ unit_ r' = unit_ r).
Proof.
intros calls self requested released.
assert (H1 : pending_requests self = []) by (vm_compute; reflexivity).
assert (H2 : allocated_resources self !! "B"%string = None) by (vm_compute; reflexivity).
assert (H3 : requested.1 = Ok true) by (vm_compute; reflexivity).
exact (request_then_release_restores calls "B" {[ "gpu"%string := 2 ]} 1 None 1 2
         H1 H2 H3).
Defined.

End Composition.

Section OptimizeFacts.

Import ResourceAllocator Ledger.

Lemma optimize_loop_nothing_fits (requests : list ResourceRequest) (self : Allocator)
    (n : nat) :
  (forall req, req ∈ requests ->
     _check_availability self (requirements req) = Ok false) ->
  optimize_loop requests self n = (Ok (), requests, self, n).
Proof.
  induction requests as [|request rest IH]; intros H; simpl; [reflexivity|].
  rewrite (H request) by (by left).
  rewrite IH; [reflexivity|]. intros req Hin. apply H. by right.
Qed.

Lemma filter_all_unmarked (l : list ResourceRequest) :
  (forall req, req ∈ l -> req_allocated req = false) ->
  filter (fun req => req_allocated req = false) l = l.
Proof.
  induction l as [|x l IH]; intros H; [reflexivity|].
  rewrite filter_cons.
  destruct (decide (req_allocated x = false)) as [_|Hd].
  - f_equal. apply IH. intros req Hin. apply H. by right.
  - destruct Hd. apply H. by left.
Qed.

Lemma sort_by_priority_of_sorted (l : list ResourceRequest) :
  StronglySorted visits_before l -> sort_by_priority l = l.
Proof.
  induction 1 as [|x l Hs IH Hx]; simpl; [reflexivity|].
  fold (sort_by_priority l). rewrite IH.
  destruct l as [|y l]; simpl; [reflexivity|].
  apply Forall_cons in Hx as [Hxy _].
  unfold priority_lt.
  destruct (- req_priority y <? - req_priority x)%Z eqn:E; [|reflexivity].
  apply Z.ltb_lt in E. destruct Hxy as [H|[H _]]; lia.
Qed.

Lemma sorted_sublist (l1 l2 : list ResourceRequest) :
  l1 `sublist_of` l2 ->
  StronglySorted visits_before l2 -> StronglySorted visits_before l1.
Proof.
  induction 1 as [|x l1 l2 Hsub IH|x l1 l2 Hsub IH]; intros Hs.
  - constructor.
  - apply StronglySorted_inv in Hs as [Hs Hx].
    constructor; [by apply IH|].
    rewrite Forall_forall in *. intros y Hy. apply Hx.
    by apply (elem_of_sublist l1 l2).
  - apply StronglySorted_inv in Hs as [Hs _]. by apply IH.
Qed.

(** The state a release leaves when it finds the id: its queue is in
    visiting order and nothing in it is satisfiable. *)
Lemma after_release (slack : string -> Q) (self : Allocator)
    (request_id : string) (now : Q) :
  consistent slack self ->
  is_Some (allocated_resources self !! request_id) ->
  let after := (release_resources request_id now self).2 in
  StronglySorted visits_before (pending_requests after)
  /\ (forall req, req ∈ pending_requests after ->
        _check_availability after (requirements req) = Ok false).
Proof.
  intros Hc [recorded Hrec] after.
  destruct (consistent_release _ self request_id recorded Hc Hrec) as [_ Hc1].
  set (self1 := {| resources := release_items (map_to_list recorded) (resources self);
                   pending_requests := pending_requests self;
                   allocated_resources :=
                     delete request_id (allocated_resources self) |}) in *.
  destruct (_process_pending_requests_consistent _ now self1 Hc1)
    as (visited & self2 & Hre & Hout & _).
  assert (Hafter : after = {| resources := resources self2;
                              pending_requests :=
                                filter (fun req => req_allocated req = false) visited;
                              allocated_resources := allocated_resources self2 |}).
  { unfold after, release_resources. rewrite Hrec. fold self1. by rewrite Hout. }
  rewrite Hafter. simpl. split.
  - eapply sorted_sublist; [exact (reprocessed_sublist _ _ _ _ Hre)|].
    apply sort_by_key_sorted.
  - intros req [Hun Hin]%list_elem_of_filter.
    by destruct (reprocessed_left_over _ _ _ _ Hre req Hin Hun).
Qed.

Lemma optimize_queue_nothing_fits (slack : string -> Q) (which : AllocationStrategy)
    (queue : list ResourceRequest) (self : Allocator) :
  consistent slack self -> waiting self ->
  (forall req, req ∈ queue -> req ∈ pending_requests self) ->
  optimize_queue which queue self
  = (Ok {| strategy := which; optimized := true;
           average_utilization := None; processed_requests := Some 0%nat |},
     {| resources := resources self;
        pending_requests := queue;
        allocated_resources := allocated_resources self |}).
Proof.
  intros Hc Hw Hsub. unfold optimize_queue.
  rewrite optimize_loop_nothing_fits by (intros req Hin; apply Hw, Hsub, Hin).
  rewrite filter_all_unmarked; [reflexivity|].
  intros req Hin. apply (pending_unmarked _ _ Hc), Hsub, Hin.
Qed.

Lemma waiting_same_resources (self self' : Allocator) :
  resources self' = resources self ->
  (forall req, req ∈ pending_requests self' -> req ∈ pending_requests self) ->
  waiting self -> waiting self'.
Proof.
  intros Hres Hsub Hw req Hin. unfold _check_availability. rewrite Hres.
  apply Hw, Hsub, Hin.
Qed.

Lemma waiting_less_available (self self' : Allocator) :
  no_less_allocated (resources self) (resources self') ->
  pending_requests self' = pending_requests self ->
  waiting self -> waiting self'.
Proof.
  intros Hgrow Hq Hw req Hin. rewrite Hq in Hin.
  apply (check_items_stays_false (resources self)); [exact Hgrow|].
  by apply Hw.
Qed.

Lemma perform_any_waiting (slack : string -> Q) (c : any_call) (self : Allocator) :
  consistent slack self -> waiting self -> waiting (perform_any c self).
Proof.
  intros Hc Hw. destruct c as [[key total unit|request_id requirements priority timeout now
                                |request_id now]|which|clock]; simpl.
  - unfold register_resource.
    destruct (resources self !! key) as [r|] eqn:Hkey; [exact Hw|].
    destruct (Qle_bool total 0); [exact Hw|].
    apply (waiting_less_available self); [|reflexivity | exact Hw]. simpl.
    intros k r Hr. exists r. rewrite lookup_insert_ne by congruence.
    split; [exact Hr|]. split; [reflexivity | lra].
  - unfold request_resources.
    destruct (_validate_request self requirements); simpl; [|exact Hw].
    destruct (_check_availability self requirements) as [[|]|e] eqn:Hcheck;
      [| |exact Hw].
    + destruct (_allocate_resources_granted request_id requirements self Hcheck)
        as (res' & -> & Hgr).
      apply (waiting_less_available self); [|reflexivity | exact Hw].
      by apply (granted_no_less self requirements).
    + intros req [Hin| ->%list_elem_of_singleton]%elem_of_app.
      * by apply Hw.
      * exact Hcheck.
  - destruct (allocated_resources self !! request_id) as [recorded|] eqn:Hrec.
    + assert (Hsome : is_Some (allocated_resources self !! request_id)) by eauto.
      exact (proj2 (after_release slack self request_id now Hc Hsome)).
    + unfold release_resources. rewrite Hrec. exact Hw.
  - destruct which; simpl; [exact Hw | |].
    + unfold _optimize_priority.
      rewrite (optimize_queue_nothing_fits slack) by
        (try assumption; intros req Hin; by rewrite sort_by_priority_perm in Hin).
      apply (waiting_same_resources self); [reflexivity | | exact Hw].
      simpl. intros req Hin. by rewrite sort_by_priority_perm in Hin.
    + unfold _optimize_first_come.
      rewrite (optimize_queue_nothing_fits slack) by (try assumption; auto).
      apply (waiting_same_resources self); [reflexivity | | exact Hw]. auto.
  - intros req Hin. destruct (proj1 (elem_of_nil _) Hin).
Qed.

Lemma run_any_waiting (slack : string -> Q) (calls : list any_call) :
  forall self, consistent slack self -> waiting self ->
               waiting (run_any calls self).
Proof.
  induction calls as [|c calls IH]; intros self Hc Hw; [exact Hw|].
  simpl. apply IH.
  - by apply perform_any_consistent.
  - by apply (perform_any_waiting slack).
Qed.

Lemma reachable_waiting (calls : list any_call) :
  waiting (run_any calls new_allocator).
Proof.
  apply (run_any_waiting (fun _ => 0)); [apply consistent_new|].
  intros req Hin. destruct (proj1 (elem_of_nil _) Hin).
Qed.



(** X9: in every state reached by calls on a fresh allocator,
  optimize_allocation with the PRIORITY or the FIRST_COME strategy grants
  nothing: it reports 0 processed requests and changes neither a resource
  nor a record.  FIRST_COME leaves the queue as it is; PRIORITY leaves it
  sorted by descending priority, requests of equal priority in the order
  they had. *)
Theorem optimize_never_grants (calls : list any_call) (which : AllocationStrategy) :
let self := run_any calls new_allocator in
which <> BALANCED ->
optimize_allocation which self
= (Ok {| strategy := which; optimized := true;
         average_utilization := None; processed_requests := Some 0%nat |},
   {| resources := resources self;
      pending_requests :=
        match which with
        | PRIORITY => sort_by_priority (pending_requests self)
        | _ => pending_requests self
        end;
      allocated_resources := allocated_resources self |}).
Proof.
intros self Hwhich.
pose proof (reachable_any_consistent calls) as Hc. fold self in Hc.
pose proof (reachable_waiting calls) as Hw. fold self in Hw.
destruct which; [by destruct Hwhich | |]; simpl.
- apply (optimize_queue_nothing_fits (fun _ => 0)); try assumption.
  intros req Hin. by rewrite sort_by_priority_perm in Hin.
- apply (optimize_queue_nothing_fits (fun _ => 0)); try assumption. auto.
Qed.

Lemma optimize_never_grants_witness :
let calls := [ Basic (Register "gpu" 2 "units");
               Basic (Request "A" {[ "gpu"%string := 2 ]} 5 None 0);
               Basic (Request "B" {[ "gpu"%string := 1 ]} 1 None 1);
               Basic (Request "C" {[ "gpu"%string := 2 ]} 9 None 2) ] in
let self := run_any calls new_allocator in
PRIORITY <> BALANCED
/\ (optimize_allocation PRIORITY self).1
   = Ok {| strategy := PRIORITY; optimized := true;
           average_utilization := None; processed_requests := Some 0%nat |}
/\ req_id <$> pending_requests (optimize_allocation PRIORITY self).2
   = ["C"%string; "B"%string].
Proof.
intros calls self.
assert (H : PRIORITY <> BALANCED) by discriminate.
split; [exact H|].
pose proof (optimize_never_grants calls PRIORITY H) as E.
cbv zeta in E. fold self in E. rewrite E.
split; [reflexivity | vm_compute; reflexivity].
Defined.

End OptimizeFacts.

Section ShutdownFacts.

Import ResourceAllocator Ledger.

Lemma recorded_ids (recorded : gmap string (gmap string Q)) (i : string) :
  i ∈ (map_to_list recorded).*1 <-> is_Some (recorded !! i).
Proof.
  rewrite list_elem_of_fmap. split.
  - intros ([j x] & -> & H). apply elem_of_map_to_list in H. by exists x.
  - intros [x H]. exists (i, x). split; [reflexivity|]. by apply elem_of_map_to_list.
Qed.

Lemma recorded_total_empty (key : string) : recorded_total key ∅ == 0.
Proof. unfold recorded_total. rewrite map_to_list_empty. reflexivity. Qed.

(** Releasing a list of recorded ids, one after the other, while nothing
    is queued: the records go, and each resource gives up what they
    held. *)
Lemma release_all (slack : string -> Q) (clock : string -> Q) (ids : list string) :
  NoDup ids ->
  forall self,
    consistent slack self ->
    pending_requests self = [] ->
    (forall i, i ∈ ids -> is_Some (allocated_resources self !! i)) ->
    let after :=
      foldl (fun s request_id => (release_resources request_id (clock request_id) s).2)
            self ids in
    pending_requests after = []
    /\ (forall i, allocated_resources after !! i
                  = if decide (i ∈ ids) then None else allocated_resources self !! i).
Proof.
  induction 1 as [|i ids Hi Hnd IH]; intros self Hc Hempty Hall; simpl.
  - split; [exact Hempty|].
    intros i. destruct (decide (i ∈ [])) as [Hin|_]; [|reflexivity].
    destruct (proj1 (elem_of_nil _) Hin).
  - destruct (Hall i) as [recorded Hrec]; [by left|].
    destruct (release_with_empty_queue slack self i recorded (clock i) Hc Hempty Hrec)
      as (Hrel & Hc1 & _).
    rewrite Hrel. simpl.
    set (self1 := {| resources := release_items (map_to_list recorded) (resources self);
                     pending_requests := [];
                     allocated_resources := delete i (allocated_resources self) |}) in *.
    destruct (IH self1 Hc1 eq_refl) as (Hq & Hrecs).
    { intros j Hj. simpl. rewrite lookup_delete_ne; [apply Hall; by right|].
      intros ->. contradiction. }
    split; [exact Hq|].
    intros j. rewrite Hrecs. simpl.
    destruct (decide (j ∈ ids)) as [Hj|Hj].
    + rewrite decide_True; [reflexivity | by right].
    + destruct (decide (j = i)) as [->|Hne].
      * rewrite decide_True by (by left). apply lookup_delete_eq.
      * rewrite decide_False by (intros [?|?]%elem_of_cons; contradiction).
        by apply lookup_delete_ne.
Qed.

(** X10: shutdown with an empty queue, in a state reached by calls on a
  fresh allocator, leaves no allocation record and an empty queue, in
  whatever order it releases the recorded ids. *)
Theorem shutdown_releases_every_record (calls : list any_call) (order : list string)
  (clock : string -> Q) :
let self := run_any calls new_allocator in
let after := shutdown order clock self in
order ≡ₚ (map_to_list (allocated_resources self)).*1 ->
pending_requests self = [] ->
allocated_resources after = ∅ /\ pending_requests after = [].
Proof.
intros self after Horder Hempty.
pose proof (reachable_any_consistent calls) as Hc. fold self in Hc.
assert (Hnd : NoDup order).
{ rewrite Horder. apply NoDup_fst_map_to_list. }
destruct (release_all (fun _ => 0) clock order Hnd self Hc Hempty) as (_ & Hrecs).
{ intros i Hi. rewrite Horder in Hi. by apply recorded_ids. }
assert (Hnone : allocated_resources after = ∅).
{ apply map_eq. intros i. unfold after, shutdown. simpl. rewrite Hrecs, lookup_empty.
  destruct (decide (i ∈ order)) as [_|Hi]; [reflexivity|].
  destruct (allocated_resources self !! i) eqn:E; [|reflexivity].
  destruct Hi. rewrite Horder. apply recorded_ids. eauto. }
split; [exact Hnone | reflexivity].
Qed.

Lemma shutdown_releases_every_record_witness :
let calls := [ Basic (Register "gpu" 4 "units");
               Basic (Request "B" {[ "gpu"%string := 1 ]} 5 None 0);
               Basic (Request "A" {[ "gpu"%string := 2 ]} 5 None 1) ] in
let self := run_any calls new_allocator in
let order := [ "B"%string; "A"%string ] in
let after := shutdown order (fun _ => 3) self in
order ≡ₚ (map_to_list (allocated_resources self)).*1
/\ pending_requests self = []
/\ allocated_resources after = ∅ /\ pending_requests after = [].
Proof.
intros calls self order after.
assert (Hkeys : (map_to_list (allocated_resources self)).*1 = [ "A"%string; "B"%string ])
  by (vm_compute; reflexivity).
assert (Horder : order ≡ₚ (map_to_list (allocated_resources self)).*1).
{ rewrite Hkeys. apply Permutation_swap. }
assert (H : pending_requests self = []) by (vm_compute; reflexivity).
split; [exact Horder|]. split; [exact H|].
exact (shutdown_releases_every_record calls order (fun _ => 3) Horder H).
Defined.

(** What shutdown does not promise: with a request queued, the releases
  it performs can grant that request, and the grant is not given back. *)
Lemma shutdown_can_leave_an_allocation :
let calls := [ Basic (Register "gpu" 2 "units");
               Basic (Request "A" {[ "gpu"%string := 2 ]} 5 None 0);
               Basic (Request "B" {[ "gpu"%string := 1 ]} 1 None 1) ] in
let after := shutdown [ "A"%string ] (fun _ => 2) (run_any calls new_allocator) in
allocated_resources after !! "B"%string = Some {[ "gpu"%string := 1 ]}
/\ allocated <$> resources after !! "gpu"%string = Some 1.
Proof. vm_compute. split; reflexivity. Qed.

End ShutdownFacts.

(** ** The scheduler queue *)

(** *** The order of task ids *)

Lemma string_ltb_lt (s1 s2 : string) :
  String.ltb s1 s2 = true <-> OrderedTypeEx.String_as_OT.lt s1 s2.
Proof.
  unfold String.ltb. rewrite <- OrderedTypeEx.String_as_OT.cmp_lt.
  unfold OrderedTypeEx.String_as_OT.cmp.
  destruct (String.compare s1 s2); split; congruence.
Qed.

Lemma string_ltb_irrefl (s : string) : String.ltb s s = false.
Proof.
  destruct (String.ltb s s) eqn:E; [|reflexivity].
  apply string_ltb_lt in E.
  destruct (OrderedTypeEx.String_as_OT.lt_not_eq _ _ E). reflexivity.
Qed.

Lemma string_ltb_trans (s1 s2 s3 : string) :
  String.ltb s1 s2 = true -> String.ltb s2 s3 = true -> String.ltb s1 s3 = true.
Proof.
  rewrite !string_ltb_lt. apply OrderedTypeEx.String_as_OT.lt_trans.
Qed.

Lemma string_ltb_total (s1 s2 : string) :
  s1 <> s2 -> String.ltb s1 s2 = true \/ String.ltb s2 s1 = true.
Proof.
  intros Hne. unfold String.ltb. rewrite (String.compare_antisym s2 s1).
  destruct (String.compare s1 s2) eqn:E; simpl; auto.
  apply String.compare_eq_iff in E. contradiction.
Qed.

Section QueueOrder.

Import TaskScheduler.
Context {Callable Args Kwargs : Type}.
Abbreviation entry := (entry Callable Args Kwargs).
Abbreviation Task := (Task Callable Args Kwargs).
Abbreviation Scheduler := (Scheduler Callable Args Kwargs).

Lemma entry_lt_spec (a b : entry) :
  entry_lt a b = true <->
  (a.1.1.1 < b.1.1.1)%Z
  \/ (a.1.1.1 = b.1.1.1
      /\ ((a.1.1.2 < b.1.1.2)%Z
          \/ (a.1.1.2 = b.1.1.2 /\ String.ltb a.1.2 b.1.2 = true))).
Proof.
  destruct a as [[[pa ta] ia] xa], b as [[[pb tb] ib] xb]. simpl.
  rewrite orb_true_iff, andb_true_iff, orb_true_iff, andb_true_iff.
  rewrite !Z.ltb_lt, !Z.eqb_eq. reflexivity.
Qed.

Lemma entry_lt_irrefl (a : entry) : entry_lt a a = false.
Proof.
  destruct (entry_lt a a) eqn:E; [|reflexivity].
  apply entry_lt_spec in E.
  destruct E as [H|[_ [H|[_ H]]]]; try lia.
  by rewrite string_ltb_irrefl in H.
Qed.

Lemma entry_lt_trans (a b c : entry) :
  entry_lt a b = true -> entry_lt b c = true -> entry_lt a c = true.
Proof.
  rewrite !entry_lt_spec.
  intros [H1|[E1 [H1|[F1 H1]]]] [H2|[E2 [H2|[F2 H2]]]];
    try (left; lia); right; (split; [lia|]); try (left; lia).
  right. split; [lia|]. by apply (string_ltb_trans _ b.1.2).
Qed.

(** Two entries with different ids are ordered one way or the other. *)
Lemma entry_lt_total (a b : entry) :
  a.1.2 <> b.1.2 -> entry_lt a b = true \/ entry_lt b a = true.
Proof.
  intros Hne. rewrite !entry_lt_spec.
  destruct (Z.lt_trichotomy a.1.1.1 b.1.1.1) as [H|[H|H]];
    [left; left; lia | | right; left; lia].
  destruct (Z.lt_trichotomy a.1.1.2 b.1.1.2) as [H'|[H'|H']];
    [left; right; split; [lia|left; lia] | | right; right; split; [lia|left; lia]].
  destruct (string_ltb_total _ _ Hne) as [Hs|Hs].
  - left. right. split; [lia|]. right. by split.
  - right. right. split; [lia|]. right. split; [lia | exact Hs].
Qed.

Lemma entry_lt_asym (a b : entry) :
  entry_lt a b = true -> entry_lt b a = false.
Proof.
  intros H. destruct (entry_lt b a) eqn:E; [|reflexivity].
  pose proof (entry_lt_trans a b a H E) as Hc.
  by rewrite entry_lt_irrefl in Hc.
Qed.

(** *** [put] *)

Lemma put_perm (e : entry) (q : list entry) : put e q ≡ₚ e :: q.
Proof.
  induction q as [|x q IH]; simpl; [reflexivity|].
  destruct (entry_lt e x); [reflexivity|].
  rewrite IH. apply Permutation_swap.
Qed.

Lemma put_sorted (e : entry) (q : list entry) :
  StronglySorted queue_order q ->
  Forall (fun x => x.1.2 <> e.1.2) q ->
  StronglySorted queue_order (put e q).
Proof.
  induction 1 as [|x q Hs IH Hx]; intros Hids; simpl.
  - repeat constructor.
  - apply Forall_cons in Hids as [Hxe Hids].
    destruct (entry_lt e x) eqn:E.
    + constructor; [by constructor|]. constructor.
      * by apply entry_lt_asym.
      * rewrite Forall_forall in *. intros y Hy. unfold queue_order.
        destruct (entry_lt y e) eqn:Ey; [|reflexivity].
        pose proof (entry_lt_trans y e x Ey E) as Hyx.
        specialize (Hx y Hy). unfold queue_order in Hx. congruence.
    + constructor; [by apply IH|].
      rewrite Forall_forall in *. intros y Hy.
      rewrite put_perm in Hy. apply elem_of_cons in Hy as [->|Hy]; [|by apply Hx].
      exact E.
Qed.

(** Putting an entry at its place in a sorted queue: an entry that
    comes after all of the queue goes to the end. *)
Lemma put_last (e : entry) (q : list entry) :
  Forall (fun x => queue_order x e) q -> put e q = q ++ [e].
Proof.
  induction 1 as [|x q Hx _ IH]; simpl; [reflexivity|].
  unfold queue_order in Hx. by rewrite Hx, IH.
Qed.

(** Taking a sorted queue apart and putting it together again gives the
    same queue. *)
Lemma rebuild_sorted (q : list entry) :
  StronglySorted queue_order q ->
  forall acc, Forall (fun a => Forall (queue_order a) q) acc ->
    foldl (fun new_queue e => put e new_queue) acc q = acc ++ q.
Proof.
  induction 1 as [|x q Hs IH Hx]; intros acc Hacc; simpl.
  - by rewrite app_nil_r.
  - rewrite put_last.
    + rewrite IH; [by rewrite <- app_assoc|].
      apply Forall_app. split.
      * eapply Forall_impl; [exact Hacc|]. simpl. intros a Ha.
        by apply Forall_cons in Ha as [_ Ha].
      * by constructor.
    + eapply Forall_impl; [exact Hacc|]. simpl. intros a Ha.
      by apply Forall_cons in Ha as [Ha _].
Qed.

Lemma rebuild_sorted_nil (q : list entry) :
  StronglySorted queue_order q ->
  foldl (fun new_queue e => put e new_queue) [] q = q.
Proof. intros Hs. by rewrite (rebuild_sorted q Hs []). Qed.

Lemma rebuild_perm (q : list entry) :
  forall acc, foldl (fun new_queue e => put e new_queue) acc q ≡ₚ acc ++ q.
Proof.
  induction q as [|x q IH]; intros acc; simpl.
  - by rewrite app_nil_r.
  - rewrite IH, put_perm. simpl. apply Permutation_middle.
Qed.

Lemma rebuild_is_sorted (q : list entry) :
  NoDup ((fun e : entry => e.1.2) <$> q) ->
  forall acc,
    StronglySorted queue_order acc ->
    (forall a x, a ∈ acc -> x ∈ q -> a.1.2 <> x.1.2) ->
    StronglySorted queue_order (foldl (fun new_queue e => put e new_queue) acc q).
Proof.
  induction q as [|x q IH]; intros Hnd acc Hs Hdis; simpl; [exact Hs|].
  rewrite fmap_cons in Hnd. apply NoDup_cons in Hnd as [Hx Hnd].
  apply IH; [exact Hnd | |].
  - apply put_sorted; [exact Hs|].
    rewrite Forall_forall. intros a Ha. apply Hdis; [exact Ha | by left].
  - intros a y Ha Hy. rewrite put_perm in Ha.
    apply elem_of_cons in Ha as [->|Ha].
    + intros Heq. apply Hx. rewrite Heq.
      apply list_elem_of_fmap. by exists y.
    + apply Hdis; [exact Ha | by right].
Qed.

End QueueOrder.

Section Draining.

Import TaskScheduler.
Context {Callable Args Kwargs : Type}.
Abbreviation entry := (entry Callable Args Kwargs).
Abbreviation Task := (Task Callable Args Kwargs).
Abbreviation Scheduler := (Scheduler Callable Args Kwargs).

(** [drain] either finds the queue empty or makes one step and goes
    on. *)
Lemma drain_unfold (fuel : nat) (current_time : Z) (pending_tasks : list entry)
    (self : Scheduler) (r : list entry * Scheduler) :
  drain fuel current_time pending_tasks self = Some r ->
  (task_queue self = [] /\ r = (pending_tasks, self))
  \/ (exists fuel' next,
        fuel = S fuel'
        /\ drain_step current_time (pending_tasks, self) next
        /\ drain fuel' current_time next.1 next.2 = Some r).
Proof.
  destruct self as [queue registered sent].
  destruct fuel as [|fuel']; simpl;
    destruct queue as [|[[[p ts] i] t] rest]; simpl.
  - intros H. injection H as <-. by left.
  - discriminate.
  - intros H. injection H as <-. by left.
  - intros H. right. exists fuel'.
    destruct (registered !! i) as [t'|] eqn:Hreg.
    + destruct (schedule_time t <=? current_time)%Z eqn:Hdue.
      * apply Z.leb_le in Hdue.
        destruct (reschedules t) as [d|] eqn:Hre.
        -- eexists (_, _). split; [reflexivity|]. split; [|exact H].
           apply (step_again current_time pending_tasks
                    {| task_queue := (p, ts, i, t) :: rest;
                       registered_tasks := registered; submitted := sent |}
                    (p, ts, i, t) rest d); simpl; eauto.
        -- eexists (_, _). split; [reflexivity|]. split; [|exact H].
           apply (step_once current_time pending_tasks
                    {| task_queue := (p, ts, i, t) :: rest;
                       registered_tasks := registered; submitted := sent |}
                    (p, ts, i, t) rest); simpl; eauto.
      * apply Z.leb_gt in Hdue.
        eexists (_, _). split; [reflexivity|]. split; [|exact H].
        apply (step_later current_time pending_tasks
                 {| task_queue := (p, ts, i, t) :: rest;
                    registered_tasks := registered; submitted := sent |}
                 (p, ts, i, t) rest); simpl; eauto.
    + eexists (_, _). split; [reflexivity|]. split; [|exact H].
      apply (step_stale current_time pending_tasks
               {| task_queue := (p, ts, i, t) :: rest;
                  registered_tasks := registered; submitted := sent |}
               (p, ts, i, t) rest); simpl; eauto.
Qed.

(** What every step keeps holds when the loop ends, and the queue is
    then empty. *)
Lemma drain_keeps (current_time : Z) (P : list entry * Scheduler -> Prop) :
  (forall x y, P x -> drain_step current_time x y -> P y) ->
  forall (fuel : nat) (pending_tasks : list entry) (self : Scheduler)
         (r : list entry * Scheduler),
    P (pending_tasks, self) ->
    drain fuel current_time pending_tasks self = Some r ->
    P r /\ task_queue r.2 = [].
Proof.
  intros Hstep. induction fuel as [|fuel IH]; intros pending_tasks self r HP Hrun;
    destruct (drain_unfold _ _ _ _ _ Hrun)
      as [[Hq ->]|(fuel' & [pend1 self1] & Hf & Hs & Hrest)]; auto.
  - discriminate Hf.
  - injection Hf as <-. apply (IH pend1 self1 r); [|exact Hrest].
    by apply (Hstep (pending_tasks, self)).
Qed.

Lemma with_schedule_time_agrees (registered : gmap string Task) (e : entry) (t : Z) :
  id e.2 = e.1.2 -> priority e.2 = e.1.1.1 ->
  entry_agrees (<[e.1.2 := with_schedule_time e.2 t]> registered)
               (e.1.1.1, t, e.1.2, with_schedule_time e.2 t).
Proof.
  intros Hid Hp. unfold entry_agrees. simpl.
  rewrite lookup_insert_eq. auto.
Qed.

Lemma entry_agrees_other (registered : gmap string Task) (i : string) (t : Task)
    (e : entry) :
  e.1.2 <> i -> entry_agrees registered e ->
  entry_agrees (<[i := t]> registered) e.
Proof.
  intros Hne (Hreg & Hrest). split; [|exact Hrest].
  rewrite lookup_insert_ne; [exact Hreg | congruence].
Qed.

Lemma sorted_tail (e : entry) (q : list entry) :
  StronglySorted queue_order (e :: q) -> StronglySorted queue_order q.
Proof. intros H. by apply StronglySorted_inv in H as [? _]. Qed.

Lemma draining_step (current_time : Z) (x y : list entry * Scheduler) :
  draining x -> drain_step current_time x y -> draining y.
Proof.
  intros Hd Hstep.
  destruct Hstep as [pend self e rest Hq Hnone
                    |pend self e rest Hq Hsome Hdue Hre
                    |pend self e rest d Hq Hsome Hdue Hre new_task
                    |pend self e rest Hq Hsome Hlate];
    unfold draining in *; simpl in *; destruct Hd as (Hs & Hnd & Hag & Hreg);
    rewrite Hq in *.
  - (* stale *)
    split; [by apply (sorted_tail e)|]. split; [|split; [|exact Hreg]].
    + rewrite fmap_app, fmap_cons in Hnd. rewrite fmap_app.
      apply NoDup_app in Hnd as (H1 & H2 & H3). apply NoDup_app.
      split; [exact H1|]. split.
      * intros i Hi Hin. apply (H2 i Hi). by right.
      * by apply NoDup_cons in H3 as [_ ?].
    + apply Forall_app in Hag as [H1 H2]. apply Forall_app.
      split; [exact H1|]. by apply Forall_cons in H2 as [_ ?].
  - (* once *)
    split; [by apply (sorted_tail e)|]. split; [|split; [|exact Hreg]].
    + rewrite fmap_app, fmap_cons in Hnd. rewrite fmap_app.
      apply NoDup_app in Hnd as (H1 & H2 & H3). apply NoDup_app.
      split; [exact H1|]. split.
      * intros i Hi Hin. apply (H2 i Hi). by right.
      * by apply NoDup_cons in H3 as [_ ?].
    + apply Forall_app in Hag as [H1 H2]. apply Forall_app.
      split; [exact H1|]. by apply Forall_cons in H2 as [_ ?].
  - (* again *)
    rewrite fmap_app, fmap_cons in Hnd.
    apply NoDup_app in Hnd as (H1 & H2 & H3).
    apply NoDup_cons in H3 as [He H3].
    apply Forall_app in Hag as [A1 A2]. apply Forall_cons in A2 as [Ae A2].
    destruct Ae as (_ & Hid & Hp & _).
    assert (Hrest : Forall (fun x : entry => x.1.2 <> e.1.2) rest).
    { rewrite Forall_forall. intros x Hx Heq. apply He. rewrite <- Heq.
      apply list_elem_of_fmap. by exists x. }
    assert (Hpend : Forall (fun x : entry => x.1.2 <> e.1.2) pend).
    { rewrite Forall_forall. intros x Hx Heq. apply (H2 e.1.2).
      - rewrite <- Heq. apply list_elem_of_fmap. by exists x.
      - by left. }
    split; [|split; [|split]].
    + apply put_sorted; [by apply (sorted_tail e) | exact Hrest].
    + rewrite fmap_app. apply NoDup_app. split; [exact H1|]. split.
      * intros i Hi Hin.
        apply list_elem_of_fmap in Hin as (x & -> & Hx).
        rewrite put_perm in Hx. apply elem_of_cons in Hx as [->|Hx].
        -- simpl in Hi. apply (H2 e.1.2 Hi). by left.
        -- apply (H2 x.1.2 Hi). right. apply list_elem_of_fmap. by exists x.
      * rewrite put_perm. rewrite fmap_cons. simpl.
        by apply NoDup_cons.
    + apply Forall_app. split.
      * rewrite Forall_forall in *. intros x Hx.
        apply entry_agrees_other; [by apply Hpend | by apply A1].
      * rewrite put_perm. constructor.
        -- by apply with_schedule_time_agrees.
        -- rewrite Forall_forall in *. intros x Hx.
           apply entry_agrees_other; [by apply Hrest | by apply A2].
    + intros i t. destruct (decide (e.1.2 = i)) as [<-|Hne].
      * rewrite lookup_insert_eq. intros H. injection H as <-. exact Hid.
      * rewrite lookup_insert_ne by exact Hne. apply Hreg.
  - (* later *)
    split; [by apply (sorted_tail e)|]. split; [|split; [|exact Hreg]].
    + by rewrite <- app_assoc.
    + by rewrite <- app_assoc.
Qed.

Lemma coherent_draining (self : Scheduler) : coherent self -> draining ([], self).
Proof. intros [H1 H2 H3 H4]. repeat split; assumption. Qed.

(** A pass that ends leaves a coherent scheduler. *)
Lemma scheduler_pass_coherent (fuel : nat) (current_time : Z)
    (self self' : Scheduler) :
  coherent self -> scheduler_pass fuel current_time self = Some self' ->
  coherent self'.
Proof.
  intros Hc. unfold scheduler_pass.
  destruct (drain fuel current_time [] self) as [[pend s1]|] eqn:Hrun; [|discriminate].
  intros H. injection H as <-.
  destruct (drain_keeps current_time draining (draining_step current_time)
              fuel [] self (pend, s1) (coherent_draining self Hc) Hrun)
    as [(Hs & Hnd & Hag & Hreg) Hq].
  simpl in *. rewrite Hq in *. rewrite app_nil_r in *.
  split; simpl.
  - apply rebuild_is_sorted; [exact Hnd | constructor|].
    intros a x Ha. destruct (proj1 (elem_of_nil _) Ha).
  - rewrite rebuild_perm. exact Hnd.
  - rewrite rebuild_perm. exact Hag.
  - exact Hreg.
Qed.

Lemma coherent_new : coherent (new_scheduler (Callable := Callable)
                                             (Args := Args) (Kwargs := Kwargs)).
Proof.
  split; simpl; try constructor.
  intros i t H. by rewrite lookup_empty in H.
Qed.

Lemma coherent_unregistered (self : Scheduler) (task_id : string) :
  coherent self -> registered_tasks self !! task_id = None ->
  Forall (fun x : entry => x.1.2 <> task_id) (task_queue self).
Proof.
  intros Hc Hnone. eapply Forall_impl; [exact (queue_agrees _ Hc)|]. simpl.
  intros e (Hreg & _) Heq. congruence.
Qed.

Lemma add_task_coherent (self : Scheduler) (task_id : string) (task_func : Callable)
    (schedule_time priority : Z) (args : Args) (kwargs : Kwargs)
    (recurring : bool) (interval : option Z) (now : Z) :
  coherent self ->
  coherent (add_task task_id task_func schedule_time priority args kwargs
                     recurring interval now self).2.
Proof.
  intros Hc. unfold add_task.
  destruct (registered_tasks self !! task_id) as [t|] eqn:Hreg; [exact Hc|].
  pose proof (coherent_unregistered self task_id Hc Hreg) as Hfresh.
  destruct Hc as [Hs Hnd Hag Hids]. split; simpl.
  - by apply put_sorted.
  - rewrite put_perm, fmap_cons. simpl. apply NoDup_cons. split; [|exact Hnd].
    intros (x & Hx & Hin)%list_elem_of_fmap.
    rewrite Forall_forall in Hfresh. by apply (Hfresh x Hin).
  - rewrite put_perm. constructor.
    + unfold entry_agrees. simpl. rewrite lookup_insert_eq. auto.
    + rewrite Forall_forall in *. intros x Hx.
      apply entry_agrees_other; [by apply Hfresh | by apply Hag].
  - intros i t. destruct (decide (task_id = i)) as [<-|Hne].
    + rewrite lookup_insert_eq. intros H. by injection H as <-.
    + rewrite lookup_insert_ne by exact Hne. apply Hids.
Qed.

Lemma sorted_filter (P : entry -> Prop) `{forall e, Decision (P e)} (q : list entry) :
  StronglySorted queue_order q -> StronglySorted queue_order (filter P q).
Proof.
  induction 1 as [|x q Hs IH Hx]; [constructor|].
  rewrite filter_cons. destruct (decide (P x)); [|exact IH].
  constructor; [exact IH|].
  rewrite Forall_forall in *. intros y [_ Hy]%list_elem_of_filter. by apply Hx.
Qed.

(** In a coherent scheduler [remove_task] takes the entry of the id out
    of the queue and leaves the other entries in their order. *)
Lemma remove_task_queue (self : Scheduler) (task_id : string) :
  coherent self ->
  is_Some (registered_tasks self !! task_id) ->
  remove_task task_id self
  = (true,
     {| task_queue := filter (fun e : entry => e.1.2 <> task_id) (task_queue self);
        registered_tasks := delete task_id (registered_tasks self);
        submitted := submitted self |}).
Proof.
  intros Hc [t Ht]. unfold remove_task. rewrite Ht.
  rewrite rebuild_sorted_nil; [reflexivity|].
  apply sorted_filter, (queue_sorted _ Hc).
Qed.

Lemma remove_task_coherent (self : Scheduler) (task_id : string) :
  coherent self -> coherent (remove_task task_id self).2.
Proof.
  intros Hc.
  destruct (registered_tasks self !! task_id) as [t|] eqn:Hreg.
  - rewrite remove_task_queue by eauto. simpl.
    destruct Hc as [Hs Hnd Hag Hids]. split; simpl.
    + by apply sorted_filter.
    + apply (sublist_NoDup _ _ Hnd). apply fmap_sublist, sublist_filter.
    + rewrite Forall_forall in *. intros x [Hne Hx]%list_elem_of_filter.
      destruct (Hag x Hx) as (H1 & H2). split; [|exact H2].
      rewrite lookup_delete_ne; [exact H1 | congruence].
    + intros i t' [_ H]%lookup_delete_Some. by apply Hids.
  - unfold remove_task. by rewrite Hreg.
Qed.

Lemma get_pending_tasks_same (self : Scheduler) :
  coherent self -> (get_pending_tasks self).2 = self.
Proof.
  intros Hc. unfold get_pending_tasks. simpl.
  rewrite rebuild_sorted_nil by apply (queue_sorted _ Hc). by destruct self.
Qed.

Lemma reschedule_task_coherent (self : Scheduler) (task_id : string) (new_time : Z) :
  coherent self -> coherent (reschedule_task task_id new_time self).2.
Proof.
  intros Hc. unfold reschedule_task.
  destruct (registered_tasks self !! task_id) as [task|] eqn:Hreg; [|exact Hc].
  destruct Hc as [Hs Hnd Hag Hids]. simpl.
  set (f := fun e : entry =>
              if decide (e.1.2 = task_id)
              then (e.1.1.1, new_time, task_id, with_schedule_time task new_time)
              else e).
  assert (Hf : (fun e : entry => e.1.2) <$> (f <$> task_queue self)
               = (fun e : entry => e.1.2) <$> task_queue self).
  { rewrite <- list_fmap_compose. apply list_fmap_ext. intros _ e _.
    unfold f. simpl. destruct (decide (e.1.2 = task_id)); simpl; congruence. }
  split; simpl.
  - apply rebuild_is_sorted; [by rewrite Hf | constructor|].
    intros a x Ha. destruct (proj1 (elem_of_nil _) Ha).
  - rewrite rebuild_perm. simpl. by rewrite Hf.
  - rewrite rebuild_perm. simpl. rewrite Forall_fmap.
    eapply Forall_impl; [exact Hag|]. simpl. intros e (H1 & H2 & H3 & H4).
    unfold f. destruct (decide (e.1.2 = task_id)) as [Heq|Hne].
    + unfold entry_agrees. simpl. rewrite lookup_insert_eq.
      rewrite Heq, Hreg in H1. injection H1 as ->.
      split; [reflexivity|]. split; [congruence|]. split; [exact H3 | reflexivity].
    + apply entry_agrees_other; [exact Hne|]. by repeat split.
  - intros i t. destruct (decide (task_id = i)) as [<-|Hne].
    + rewrite lookup_insert_eq. intros H. injection H as <-. simpl. by apply Hids.
    + rewrite lookup_insert_ne by exact Hne. apply Hids.
Qed.

Lemma perform_call_coherent (c : scheduler_call Callable Args Kwargs)
    (self self' : Scheduler) :
  coherent self -> perform_call c self = Some self' -> coherent self'.
Proof.
  intros Hc. destruct c; simpl; intros H.
  - injection H as <-. by apply add_task_coherent.
  - injection H as <-. by apply remove_task_coherent.
  - injection H as <-. by apply reschedule_task_coherent.
  - injection H as <-. change (coherent (get_pending_tasks self).2).
    by rewrite get_pending_tasks_same.
  - by apply (scheduler_pass_coherent fuel now self).
Qed.

Lemma run_calls_coherent (calls : list (scheduler_call Callable Args Kwargs)) :
  forall self self', coherent self -> run_calls calls self = Some self' ->
                     coherent self'.
Proof.
  induction calls as [|c calls IH]; intros self self' Hc; simpl.
  - intros H. by injection H as <-.
  - destruct (perform_call c self) as [s1|] eqn:Hp; [|discriminate].
    apply IH. by apply (perform_call_coherent c self).
Qed.

End Draining.

Section PassFacts.

Import TaskScheduler.
Context {Callable Args Kwargs : Type}.
Abbreviation entry := (entry Callable Args Kwargs).
Abbreviation Task := (Task Callable Args Kwargs).
Abbreviation Scheduler := (Scheduler Callable Args Kwargs).

(** What a pass returns, in terms of the loop. *)
Lemma scheduler_pass_inv (fuel : nat) (current_time : Z) (self self' : Scheduler) :
  scheduler_pass fuel current_time self = Some self' ->
  exists pend s1,
    drain fuel current_time [] self = Some (pend, s1)
    /\ task_queue self' = foldl (fun q task_data => put task_data q) (task_queue s1) pend
    /\ registered_tasks self' = registered_tasks s1
    /\ submitted self' = submitted s1.
Proof.
  unfold scheduler_pass.
  destruct (drain fuel current_time [] self) as [[pend s1]|]; [|discriminate].
  intros H. injection H as <-. exists pend, s1. auto.
Qed.

(** X11: every scheduler reached from a new one by add_task, remove_task,
  reschedule_task, get_pending_tasks and passes of the loop that end is
  coherent: the queue is in tuple order, no id has two entries, every
  entry carries the registered task of its id, with the priority and the
  schedule time of its tuple, and every registered task is registered
  under its own id. *)
Theorem reached_scheduler_is_coherent
  (calls : list (scheduler_call Callable Args Kwargs)) (self : Scheduler) :
run_calls calls new_scheduler = Some self -> coherent self.
Proof. apply run_calls_coherent, coherent_new. Qed.

(** X12: a pass at clock reading [now] submits only tasks whose schedule
  time is not after [now], in any state; it only adds to the
  submissions. *)
Theorem pass_submits_only_due_tasks (fuel : nat) (current_time : Z)
  (self self' : Scheduler) :
scheduler_pass fuel current_time self = Some self' ->
exists new,
  submitted self' = submitted self ++ new
  /\ Forall (fun t => (schedule_time t <= current_time)%Z) new.
Proof.
intros (pend & s1 & Hrun & _ & _ & Hsub)%scheduler_pass_inv. rewrite Hsub.
set (P := fun x : list entry * Scheduler =>
            exists new, submitted x.2 = submitted self ++ new
                        /\ Forall (fun t => (schedule_time t <= current_time)%Z) new).
destruct (drain_keeps current_time P) with (fuel := fuel) (pending_tasks := @nil entry)
  (self := self) (r := (pend, s1)) as [H _]; [| |exact Hrun|exact H].
- intros x y (new & Hnew & Hdue) Hstep.
  destruct Hstep; unfold P; simpl in *.
  + by exists new.
  + exists (new ++ [e.2]). rewrite Hnew, <- app_assoc. split; [reflexivity|].
    apply Forall_app. split; [exact Hdue | by repeat constructor].
  + exists (new ++ [e.2]). rewrite Hnew, <- app_assoc. split; [reflexivity|].
    apply Forall_app. split; [exact Hdue | by repeat constructor].
  + by exists new.
- exists []. by rewrite app_nil_r.
Qed.

Lemma pass_keeps_registered_ids_aux (fuel : nat) (current_time : Z)
  (self self' : Scheduler) (i : string) :
scheduler_pass fuel current_time self = Some self' ->
(is_Some (registered_tasks self !! i) <-> is_Some (registered_tasks self' !! i)).
Proof.
intros (pend & s1 & Hrun & _ & Hreg & _)%scheduler_pass_inv. rewrite Hreg.
set (P := fun x : list entry * Scheduler =>
            is_Some (registered_tasks self !! i)
            <-> is_Some (registered_tasks x.2 !! i)).
destruct (drain_keeps current_time P) with (fuel := fuel) (pending_tasks := @nil entry)
  (self := self) (r := (pend, s1)) as [H _]; [| |exact Hrun|exact H].
- intros x y HP Hstep. destruct Hstep; unfold P in *; simpl in *; try exact HP.
  rewrite HP. destruct (decide (e.1.2 = i)) as [<-|Hne].
  + rewrite lookup_insert_eq. split; eauto.
  + by rewrite lookup_insert_ne.
- unfold P. reflexivity.
Qed.

(** X13: a pass never registers or unregisters an id, in any state. *)
Theorem pass_keeps_registered_ids (fuel : nat) (current_time : Z)
  (self self' : Scheduler) (i : string) :
scheduler_pass fuel current_time self = Some self' ->
(is_Some (registered_tasks self !! i) <-> is_Some (registered_tasks self' !! i)).
Proof. apply pass_keeps_registered_ids_aux. Qed.

End PassFacts.

Section PassOrigins.

Import TaskScheduler.
Context {Callable Args Kwargs : Type}.
Abbreviation entry := (entry Callable Args Kwargs).
Abbreviation Task := (Task Callable Args Kwargs).
Abbreviation Scheduler := (Scheduler Callable Args Kwargs).

Lemma draining_not_stale (x : list entry * Scheduler) (e : entry) (rest : list entry) :
  draining x -> task_queue x.2 = e :: rest ->
  entry_agrees (registered_tasks x.2) e.
Proof.
  intros (_ & _ & Hag & _) Hq. rewrite Hq in Hag.
  apply Forall_app in Hag as [_ Hag]. by apply Forall_cons in Hag as [? _].
Qed.

(** The loop, started on a coherent scheduler: what is left when it
    ends, and where what it submitted comes from. *)
Lemma drain_origins (fuel : nat) (current_time : Z) (self s1 : Scheduler)
    (pend : list entry) :
  coherent self ->
  drain fuel current_time [] self = Some (pend, s1) ->
  task_queue s1 = []
  /\ draining (pend, s1)
  /\ Forall (fun e : entry => (current_time < schedule_time e.2)%Z) pend
  /\ (forall e, e ∈ task_queue self -> (current_time < schedule_time e.2)%Z ->
        e ∈ pend)
  /\ (forall e, e ∈ pend ->
        e ∈ task_queue self
        \/ exists e0, e0 ∈ task_queue self /\ e0.1.2 = e.1.2
                      /\ (schedule_time e0.2 <= current_time)%Z
                      /\ is_Some (reschedules e0.2))
  /\ exists new,
       submitted s1 = submitted self ++ new
       /\ Forall (fun t : Task =>
                    exists e0, e0 ∈ task_queue self /\ e0.1.2 = id t
                               /\ (schedule_time e0.2 <= current_time)%Z) new
       /\ (forall e, e ∈ task_queue self ->
             (schedule_time e.2 <= current_time)%Z -> e.2 ∈ new).
Proof.
  intros Hc Hrun.
  set (from_due := fun i : string =>
         exists e0 : entry, e0 ∈ task_queue self /\ e0.1.2 = i
                            /\ (schedule_time e0.2 <= current_time)%Z).
  set (from_recurring := fun i : string =>
         exists e0 : entry, e0 ∈ task_queue self /\ e0.1.2 = i
                            /\ (schedule_time e0.2 <= current_time)%Z
                            /\ is_Some (reschedules e0.2)).
  set (P := fun x : list entry * Scheduler =>
    draining x
    /\ Forall (fun e : entry => (current_time < schedule_time e.2)%Z) x.1
    /\ (forall e, e ∈ task_queue self -> (current_time < schedule_time e.2)%Z ->
          e ∈ x.1 ++ task_queue x.2)
    /\ (forall e, e ∈ x.1 ++ task_queue x.2 ->
          e ∈ task_queue self \/ from_recurring e.1.2)
    /\ exists new, submitted x.2 = submitted self ++ new
                   /\ Forall (fun t : Task => from_due (id t)) new
                   /\ (forall e, e ∈ task_queue self ->
                         (schedule_time e.2 <= current_time)%Z ->
                         e ∈ x.1 ++ task_queue x.2 \/ e.2 ∈ new)).
  assert (Hrec_due : forall i, from_recurring i -> from_due i).
  { intros i (e0 & H1 & H2 & H3 & _). by exists e0. }
  destruct (drain_keeps current_time P) with (fuel := fuel) (pending_tasks := @nil entry)
    (self := self) (r := (pend, s1)) as [(Hd & Hlate & Hkept & Horig & Hnew) Hq];
    [| |exact Hrun|].
  - intros x y (Hd & Hlate & Hkept & Horig & (new & Hnew & Hfrom & Hall)) Hstep.
    pose proof (draining_step current_time x y Hd Hstep) as Hd'.
    split; [exact Hd'|].
    destruct Hstep as [pd s e rest Hq Hnone
                      |pd s e rest Hq Hsome Hdue Hre
                      |pd s e rest d Hq Hsome Hdue Hre new_task
                      |pd s e rest Hq Hsome Hl]; simpl in *.
    + (* stale: excluded by the invariant *)
      destruct (draining_not_stale (pd, s) e rest Hd Hq) as (Hreg & _).
      simpl in Hreg. congruence.
    + (* due, once *)
      destruct (draining_not_stale (pd, s) e rest Hd Hq) as (_ & Hid & _).
      assert (He : from_due e.1.2).
      { destruct (Horig e) as [Hin|Hfd];
          [rewrite Hq; apply elem_of_app; right; by left| |by apply Hrec_due].
        exists e. auto. }
      split; [exact Hlate|]. split; [|split].
      * intros e' Hin Hl. specialize (Hkept e' Hin Hl). rewrite Hq in Hkept.
        apply elem_of_app in Hkept as [?|[->|?]%elem_of_cons];
          [apply elem_of_app; by left | lia | apply elem_of_app; by right].
      * intros e' Hin. apply Horig. rewrite Hq.
        apply elem_of_app in Hin as [?|?]; apply elem_of_app; [by left | right; by right].
      * exists (new ++ [e.2]). rewrite Hnew, <- app_assoc. split; [reflexivity|].
        split.
        -- apply Forall_app. split; [exact Hfrom|]. constructor; [|constructor].
           by rewrite Hid.
        -- intros e' Hin Hdue'. destruct (Hall e' Hin Hdue') as [Hq'|Hn].
           ++ rewrite Hq in Hq'.
              apply elem_of_app in Hq' as [?|[->|?]%elem_of_cons].
              ** left. apply elem_of_app. by left.
              ** right. apply elem_of_app. right. by left.
              ** left. apply elem_of_app. by right.
           ++ right. apply elem_of_app. by left.
    + (* due, again *)
      destruct (draining_not_stale (pd, s) e rest Hd Hq) as (_ & Hid & _).
      assert (He : from_recurring e.1.2).
      { destruct (Horig e) as [Hin|Hfd];
          [rewrite Hq; apply elem_of_app; right; by left| |exact Hfd].
        exists e. split; [exact Hin|]. split; [reflexivity|]. split; [exact Hdue|].
        rewrite Hre. eauto. }
      split; [exact Hlate|]. split; [|split].
      * intros e' Hin Hl. specialize (Hkept e' Hin Hl). rewrite Hq in Hkept.
        apply elem_of_app in Hkept as [?|[->|?]%elem_of_cons];
          [apply elem_of_app; by left | lia |].
        apply elem_of_app. right. rewrite put_perm. by right.
      * intros e' Hin.
        apply elem_of_app in Hin as [Hin|Hin].
        -- apply Horig. apply elem_of_app. by left.
        -- rewrite put_perm in Hin. apply elem_of_cons in Hin as [->|Hin].
           ++ right. exact He.
           ++ apply Horig. rewrite Hq. apply elem_of_app. right. by right.
      * exists (new ++ [e.2]). rewrite Hnew, <- app_assoc. split; [reflexivity|].
        split.
        -- apply Forall_app. split; [exact Hfrom|]. constructor; [|constructor].
           rewrite Hid. by apply Hrec_due.
        -- intros e' Hin Hdue'. destruct (Hall e' Hin Hdue') as [Hq'|Hn].
           ++ rewrite Hq in Hq'.
              apply elem_of_app in Hq' as [?|[->|?]%elem_of_cons].
              ** left. apply elem_of_app. by left.
              ** right. apply elem_of_app. right. by left.
              ** left. apply elem_of_app. right. rewrite put_perm. by right.
           ++ right. apply elem_of_app. by left.
    + (* not yet due *)
      split; [|split; [|split]].
      * apply Forall_app. split; [exact Hlate | by repeat constructor].
      * intros e' Hin Hl'. specialize (Hkept e' Hin Hl'). rewrite Hq in Hkept.
        by rewrite <- app_assoc.
      * intros e' Hin. apply Horig. rewrite Hq. by rewrite <- app_assoc in Hin.
      * exists new. split; [exact Hnew|]. split; [exact Hfrom|].
        intros e' Hin Hdue'. destruct (Hall e' Hin Hdue') as [Hq'|Hn]; [|by right].
        left. rewrite Hq in Hq'. by rewrite <- app_assoc.
  - split; [by apply coherent_draining|]. split; [constructor|].
    split; [auto|]. split; [by left|]. exists []. rewrite app_nil_r.
    split; [reflexivity|]. split; [constructor | auto].
  - simpl in *. rewrite Hq, app_nil_r in *.
    split; [reflexivity|]. split; [exact Hd|]. split; [exact Hlate|].
    split; [exact Hkept|]. split; [exact Horig|].
    destruct Hnew as (new & Hnew & Hfrom & Hall).
    exists new. split; [exact Hnew|]. split; [exact Hfrom|].
    intros e Hin Hdue. destruct (Hall e Hin Hdue) as [Hp|Hn]; [|exact Hn].
    rewrite Forall_forall in Hlate. specialize (Hlate e Hp). lia.
Qed.

End PassOrigins.

Section SchedulerExtras.

Import TaskScheduler.
Context {Callable Args Kwargs : Type}.
Abbreviation entry := (entry Callable Args Kwargs).
Abbreviation Task := (Task Callable Args Kwargs).
Abbreviation Scheduler := (Scheduler Callable Args Kwargs).

(** X17: on a coherent scheduler, remove_task of a registered id returns
  True, unregisters the id and takes its entry out of the queue, leaving
  the other entries in their order; no pass after it submits a task of
  that id, and add_task with that id succeeds again. *)
Theorem remove_task_cancels (self : Scheduler) (task_id : string)
  (task_func : Callable) (schedule_time' priority' : Z) (args : Args)
  (kwargs : Kwargs) (recurring' : bool) (interval' : option Z) (now : Z) :
coherent self ->
is_Some (registered_tasks self !! task_id) ->
let removed := (remove_task task_id self).2 in
remove_task task_id self
= (true,
   {| task_queue := filter (fun e : entry => e.1.2 <> task_id) (task_queue self);
      registered_tasks := delete task_id (registered_tasks self);
      submitted := submitted self |})
/\ (forall fuel current_time self',
      scheduler_pass fuel current_time removed = Some self' ->
      exists new, submitted self' = submitted self ++ new
                  /\ Forall (fun t : Task => id t <> task_id) new)
/\ (add_task task_id task_func schedule_time' priority' args kwargs
             recurring' interval' now removed).1 = true.
Proof.
intros Hc Hreg removed.
pose proof (remove_task_queue self task_id Hc Hreg) as Hrem.
pose proof (remove_task_coherent self task_id Hc) as Hc'. fold removed in Hc'.
assert (Hremoved : removed
          = {| task_queue := filter (fun e : entry => e.1.2 <> task_id) (task_queue self);
               registered_tasks := delete task_id (registered_tasks self);
               submitted := submitted self |}) by (unfold removed; by rewrite Hrem).
split; [exact Hrem|]. split.
- intros fuel current_time self' Hpass.
  pose proof Hpass as (pend & s1 & Hrun & _ & _ & Hsub)%scheduler_pass_inv.
  destruct (drain_origins fuel current_time removed s1 pend Hc' Hrun)
    as (_ & _ & _ & _ & _ & (new & Hnew & Hfrom & _)).
  exists new. rewrite Hsub, Hnew, Hremoved. split; [reflexivity|].
  eapply Forall_impl; [exact Hfrom|]. simpl.
  intros t (e0 & Hin & Hid & _) Heq. rewrite Hremoved in Hin. simpl in Hin.
  apply list_elem_of_filter in Hin as [Hne _]. congruence.
- unfold add_task. rewrite Hremoved. simpl. by rewrite lookup_delete_eq.
Qed.

(** X18: on a coherent scheduler, reschedule_task of a registered id
  returns True and changes the schedule time of the registered task and
  nothing else in it; the scheduler stays coherent, the entries of the
  other ids are kept, and a pass at a clock reading before the new time
  submits no task of that id. *)
Theorem reschedule_task_postpones (self : Scheduler) (task_id : string)
  (new_time : Z) (task : Task) :
coherent self ->
registered_tasks self !! task_id = Some task ->
let moved := (reschedule_task task_id new_time self).2 in
(reschedule_task task_id new_time self).1 = true
/\ registered_tasks moved
   = <[task_id := with_schedule_time task new_time]> (registered_tasks self)
/\ coherent moved
/\ (forall e, e ∈ task_queue self -> e.1.2 <> task_id -> e ∈ task_queue moved)
/\ (forall fuel current_time self',
      (current_time < new_time)%Z ->
      scheduler_pass fuel current_time moved = Some self' ->
      exists new, submitted self' = submitted self ++ new
                  /\ Forall (fun t : Task => id t <> task_id) new).
Proof.
intros Hc Hreg moved.
pose proof (reschedule_task_coherent self task_id new_time Hc) as Hc'.
fold moved in Hc'.
set (f := fun e : entry =>
            if decide (e.1.2 = task_id)
            then (e.1.1.1, new_time, task_id, with_schedule_time task new_time)
            else e).
assert (Hmoved : moved
          = {| task_queue := foldl (fun new_queue e => put e new_queue) []
                                   (f <$> task_queue self);
               registered_tasks :=
                 <[task_id := with_schedule_time task new_time]> (registered_tasks self);
               submitted := submitted self |}).
{ unfold moved, reschedule_task. by rewrite Hreg. }
assert (Hq : task_queue moved ≡ₚ f <$> task_queue self).
{ rewrite Hmoved. simpl. apply (rebuild_perm _ []). }
split; [unfold reschedule_task; by rewrite Hreg|].
split; [by rewrite Hmoved|]. split; [exact Hc'|]. split.
- intros e Hin Hne. rewrite Hq. apply list_elem_of_fmap. exists e.
  split; [|exact Hin]. unfold f. by rewrite decide_False.
- intros fuel current_time self' Hlt Hpass.
  pose proof Hpass as (pend & s1 & Hrun & _ & _ & Hsub)%scheduler_pass_inv.
  destruct (drain_origins fuel current_time moved s1 pend Hc' Hrun)
    as (_ & _ & _ & _ & _ & (new & Hnew & Hfrom & _)).
  exists new. rewrite Hsub, Hnew. split; [by rewrite Hmoved|].
  eapply Forall_impl; [exact Hfrom|]. simpl.
  intros t (e0 & Hin & Hid & Hdue) Heq. rewrite Hq in Hin.
  apply list_elem_of_fmap in Hin as (e1 & -> & Hin1).
  unfold f in *. destruct (decide (e1.1.2 = task_id)) as [_|Hne]; simpl in *.
  + lia.
  + congruence.
Qed.

(** X19: on a coherent scheduler get_pending_tasks changes nothing, and
  lists every queued entry once, in the order the queue hands them out
  (smaller priority number first), with the id, schedule time and
  priority of its tuple. *)
Theorem get_pending_tasks_snapshot (self : Scheduler) :
coherent self ->
get_pending_tasks self
= ((fun e : entry => (e.1.2, e.1.1.2, e.1.1.1, recurring e.2)) <$> task_queue self,
   self).
Proof.
intros Hc. rewrite (surjective_pairing (get_pending_tasks self)).
rewrite (get_pending_tasks_same self Hc). f_equal.
unfold get_pending_tasks. simpl.
pose proof (queue_agrees _ Hc) as Hag. revert Hag.
generalize (registered_tasks self) as registered.
generalize (task_queue self) as q.
induction q as [|e q IH]; intros registered Hag; simpl; [reflexivity|].
apply Forall_cons in Hag as [(Hr & _ & Hp & Ht) Hag].
rewrite Hr. f_equal; [by rewrite Hp, Ht | exact (IH registered Hag)].
Qed.

(** *** A recurring task that is overdue *)

Lemma with_schedule_time_twice (task : Task) (t1 t2 : Z) :
  with_schedule_time (with_schedule_time task t1) t2 = with_schedule_time task t2.
Proof. reflexivity. Qed.

Lemma with_schedule_time_same (task : Task) :
  with_schedule_time task (schedule_time task) = task.
Proof. by destruct task. Qed.

Lemma drain_due_recurring (fuel : nat) (current_time : Z) (pending_tasks : list entry)
    (p ts : Z) (i : string) (task : Task) (rest : list entry)
    (registered : gmap string Task) (sent : list Task) (d : Z) :
  is_Some (registered !! i) ->
  (schedule_time task <= current_time)%Z ->
  reschedules task = Some d ->
  drain (S fuel) current_time pending_tasks
        {| task_queue := (p, ts, i, task) :: rest;
           registered_tasks := registered; submitted := sent |}
  = drain fuel current_time pending_tasks
          {| task_queue :=
               put (p, (schedule_time task + d)%Z, i,
                    with_schedule_time task (schedule_time task + d)) rest;
             registered_tasks :=
               <[i := with_schedule_time task (schedule_time task + d)]> registered;
             submitted := sent ++ [task] |}.
Proof.
  intros [t0 Hreg] Hdue Hre. apply Z.leb_le in Hdue.
  simpl. rewrite Hreg, Hdue, Hre. reflexivity.
Qed.

(** The loop on a queue that holds one recurring task with a positive
    interval, [n] of whose occurrences are due. *)
Lemma drain_catches_up (current_time d : Z) (p : Z) (i : string) (n : nat) :
  (0 < d)%Z ->
  forall (task : Task) (registered : gmap string Task) (sent : list Task)
         (pending_tasks : list entry) (fuel : nat),
    is_Some (registered !! i) ->
    reschedules task = Some d ->
    (schedule_time task + Z.of_nat n * d > current_time)%Z ->
    (forall j : nat, (j < n)%nat ->
                     (schedule_time task + Z.of_nat j * d <= current_time)%Z) ->
    (n < fuel)%nat ->
    exists registered',
      drain fuel current_time pending_tasks
            {| task_queue := [(p, schedule_time task, i, task)];
               registered_tasks := registered; submitted := sent |}
      = Some (pending_tasks
                ++ [(p, (schedule_time task + Z.of_nat n * d)%Z, i,
                     with_schedule_time task (schedule_time task + Z.of_nat n * d))],
              {| task_queue := []; registered_tasks := registered';
                 submitted := sent ++ occurrences task d n |}).
Proof.
  intros Hd. induction n as [|n IH];
    intros task registered sent pending_tasks fuel [t0 Hreg] Hre Hnext Hdue Hfuel.
  - destruct fuel as [|fuel]; [lia|]. simpl. rewrite Hreg.
    assert (Hlate : (schedule_time task <=? current_time)%Z = false)
      by (apply Z.leb_gt; lia).
    rewrite Hlate.
    replace (schedule_time task + Z.of_nat 0 * d)%Z with (schedule_time task) by lia.
    rewrite with_schedule_time_same. exists registered.
    destruct fuel; simpl; by rewrite app_nil_r.
  - destruct fuel as [|fuel]; [lia|].
    assert (Hnow : (schedule_time task <= current_time)%Z).
    { specialize (Hdue 0%nat). simpl in Hdue. lia. }
    rewrite (drain_due_recurring fuel current_time pending_tasks p _ i task []
               registered sent d (ex_intro _ t0 Hreg) Hnow Hre).
    set (task1 := with_schedule_time task (schedule_time task + d)).
    change (put (p, (schedule_time task + d)%Z, i, task1) [])
      with [(p, schedule_time task1, i, task1)].
    destruct (IH task1 (<[i := task1]> registered) (sent ++ [task]) pending_tasks fuel)
      as (registered' & Hrun).
    + rewrite lookup_insert_eq. eauto.
    + exact Hre.
    + simpl. lia.
    + intros j Hj. specialize (Hdue (S j)). simpl. lia.
    + lia.
    + exists registered'. rewrite Hrun.
      assert (Hz : (schedule_time task1 + Z.of_nat n * d
                    = schedule_time task + Z.of_nat (S n) * d)%Z).
      { unfold task1. destruct task. simpl. lia. }
      assert (Hocc : (sent ++ [task]) ++ occurrences task1 d n
                     = sent ++ occurrences task d (S n)).
      { rewrite <- app_assoc. f_equal. unfold occurrences.
        rewrite <- cons_seq, fmap_cons. simpl app. f_equal.
        - replace (schedule_time task + Z.of_nat 0 * d)%Z
            with (schedule_time task) by lia.
          by rewrite with_schedule_time_same.
        - rewrite <- fmap_S_seq, <- list_fmap_compose.
          apply list_fmap_ext. intros _ j _. unfold compose, task1.
          rewrite with_schedule_time_twice. f_equal.
          destruct task. simpl. lia. }
      rewrite Hz, Hocc. unfold task1. by rewrite with_schedule_time_twice.
Qed.

(** X20: a recurring task with a positive interval that is overdue is
  caught up within one pass: when [n] of its occurrences are due (the
  one of its schedule time and one per interval up to the clock reading),
  a pass with enough fuel submits the [n] of them, in order, and leaves
  the task queued and registered at the first occurrence after the clock
  reading.  (Datetimes are unbounded here; Python's stop at year 9999.) *)
Theorem overdue_recurring_task_catches_up (current_time d p : Z) (i : string)
  (n fuel : nat) (task : Task) (registered : gmap string Task) (sent : list Task) :
(0 < d)%Z ->
is_Some (registered !! i) ->
reschedules task = Some d ->
(schedule_time task + Z.of_nat n * d > current_time)%Z ->
(forall j : nat, (j < n)%nat ->
                 (schedule_time task + Z.of_nat j * d <= current_time)%Z) ->
(n < fuel)%nat ->
let next := with_schedule_time task (schedule_time task + Z.of_nat n * d) in
exists self',
  scheduler_pass fuel current_time
    {| task_queue := [(p, schedule_time task, i, task)];
       registered_tasks := registered; submitted := sent |}
  = Some self'
  /\ submitted self' = sent ++ occurrences task d n
  /\ task_queue self' = [(p, schedule_time next, i, next)].
Proof.
intros Hd Hreg Hre Hnext Hdue Hfuel next.
destruct (drain_catches_up current_time d p i n Hd task registered sent [] fuel
            Hreg Hre Hnext Hdue Hfuel) as (registered' & Hrun).
unfold scheduler_pass. rewrite Hrun. eexists. split; [reflexivity|].
split; reflexivity.
Qed.

End SchedulerExtras.

Section SchedulerExamples.
Import TaskScheduler.
Local Open Scope Z_scope.

Lemma reached_scheduler_is_coherent_witness :
let calls : list (scheduler_call string () ()) :=
  [ Add "report" "make_report" 100 2 () () false None 0;
    Add "poll" "poll_feed" 50 1 () () true (Some 30) 0;
    Add "later" "cleanup" 500 0 () () false None 0;
    Pass 10 120;
    Reschedule "poll" 300;
    Remove "later";
    ListPending ] in
exists self, run_calls calls new_scheduler = Some self /\ coherent self.
Proof.
intros calls.
assert (H : exists self, run_calls calls new_scheduler = Some self)
  by (eexists; vm_compute; reflexivity).
destruct H as [self H]. exists self. split; [exact H|].
exact (reached_scheduler_is_coherent calls self H).
Defined.

Lemma pass_submits_only_due_tasks_witness :
let self : Scheduler string () () :=
  (add_task "later" "cleanup" 500 0 () () false None 0
     (add_task "poll" "poll_feed" 50 1 () () true (Some 30) 0
        (add_task "report" "make_report" 100 2 () () false None 0
           new_scheduler).2).2).2 in
exists self',
  scheduler_pass 10 120 self = Some self'
  /\ exists new, submitted self' = submitted self ++ new
                 /\ Forall (fun t => schedule_time t <= 120) new.
Proof.
intros self.
destruct (scheduler_pass 10 120 self) as [self'|] eqn:Hpass;
  [|vm_compute in Hpass; discriminate Hpass].
exists self'. split; [reflexivity|].
exact (pass_submits_only_due_tasks 10 120 self self' Hpass).
Defined.

Lemma pass_keeps_registered_ids_witness :
let self : Scheduler string () () :=
  (add_task "later" "cleanup" 500 0 () () false None 0
     (add_task "poll" "poll_feed" 50 1 () () true (Some 30) 0
        (add_task "report" "make_report" 100 2 () () false None 0
           new_scheduler).2).2).2 in
exists self',
  scheduler_pass 10 120 self = Some self'
  /\ (is_Some (registered_tasks self !! "report"%string)
      <-> is_Some (registered_tasks self' !! "report"%string)).
Proof.
intros self.
destruct (scheduler_pass 10 120 self) as [self'|] eqn:Hpass;
  [|vm_compute in Hpass; discriminate Hpass].
exists self'. split; [reflexivity|].
exact (pass_keeps_registered_ids 10 120 self self' "report" Hpass).
Defined.

Lemma remove_task_cancels_witness :
let self : Scheduler string () () :=
  (add_task "later" "cleanup" 500 0 () () false None 0
     (add_task "poll" "poll_feed" 50 1 () () true (Some 30) 0
        (add_task "report" "make_report" 100 2 () () false None 0
           new_scheduler).2).2).2 in
let removed := (remove_task "poll" self).2 in
is_Some (registered_tasks self !! "poll"%string)
/\ remove_task "poll" self
   = (true,
      {| task_queue := filter (fun e : entry string () () => e.1.2 <> "poll"%string)
                              (task_queue self);
         registered_tasks := delete "poll"%string (registered_tasks self);
         submitted := submitted self |})
/\ (forall fuel current_time self',
      scheduler_pass fuel current_time removed = Some self' ->
      exists new, submitted self' = submitted self ++ new
                  /\ Forall (fun t : Task string () () => id t <> "poll"%string) new)
/\ (add_task "poll" "poll_feed" 700 1 () () false None 130 removed).1 = true.
Proof.
intros self removed.
assert (Hc : coherent self).
{ apply (run_calls_coherent
           [ Add "report" "make_report" 100 2 () () false None 0;
                   Add "poll" "poll_feed" 50 1 () () true (Some 30) 0;
                   Add "later" "cleanup" 500 0 () () false None 0 ]
           new_scheduler self coherent_new).
  vm_compute. reflexivity. }
assert (Hreg : is_Some (registered_tasks self !! "poll"%string)).
{ eexists. vm_compute. reflexivity. }
split; [exact Hreg|].
exact (remove_task_cancels self "poll" "poll_feed" 700 1 () () false None 130 Hc Hreg).
Defined.

Lemma reschedule_task_postpones_witness :
let self : Scheduler string () () :=
  (add_task "later" "cleanup" 500 0 () () false None 0
     (add_task "poll" "poll_feed" 50 1 () () true (Some 30) 0
        (add_task "report" "make_report" 100 2 () () false None 0
           new_scheduler).2).2).2 in
let report : Task string () () :=
  {| id := "report"; function := "make_report"; schedule_time := 100;
     priority := 2; args := (); kwargs := (); recurring := false;
     interval := None; added_at := 0 |} in
let moved := (reschedule_task "report" 900 self).2 in
registered_tasks self !! "report"%string = Some report
/\ (reschedule_task "report" 900 self).1 = true
/\ registered_tasks moved
   = <["report"%string := with_schedule_time report 900]> (registered_tasks self)
/\ coherent moved
/\ (forall e, e ∈ task_queue self -> e.1.2 <> "report"%string -> e ∈ task_queue moved)
/\ (forall fuel current_time self',
      current_time < 900 ->
      scheduler_pass fuel current_time moved = Some self' ->
      exists new, submitted self' = submitted self ++ new
                  /\ Forall (fun t : Task string () () => id t <> "report"%string) new).
Proof.
intros self report moved.
assert (Hc : coherent self).
{ apply (run_calls_coherent
           [ Add "report" "make_report" 100 2 () () false None 0;
                   Add "poll" "poll_feed" 50 1 () () true (Some 30) 0;
                   Add "later" "cleanup" 500 0 () () false None 0 ]
           new_scheduler self coherent_new).
  vm_compute. reflexivity. }
assert (Hreg : registered_tasks self !! "report"%string = Some report)
  by (vm_compute; reflexivity).
split; [exact Hreg|].
exact (reschedule_task_postpones self "report" 900 report Hc Hreg).
Defined.

Lemma get_pending_tasks_snapshot_witness :
let self : Scheduler string () () :=
  (add_task "later" "cleanup" 500 0 () () false None 0
     (add_task "poll" "poll_feed" 50 1 () () true (Some 30) 0
        (add_task "report" "make_report" 100 2 () () false None 0
           new_scheduler).2).2).2 in
get_pending_tasks self
= ([ ("later"%string, 500, 0, false); ("poll"%string, 50, 1, true);
     ("report"%string, 100, 2, false) ], self).
Proof.
intros self.
assert (Hc : coherent self).
{ apply (run_calls_coherent
           [ Add "report" "make_report" 100 2 () () false None 0;
                   Add "poll" "poll_feed" 50 1 () () true (Some 30) 0;
                   Add "later" "cleanup" 500 0 () () false None 0 ]
           new_scheduler self coherent_new).
  vm_compute. reflexivity. }
rewrite (get_pending_tasks_snapshot self Hc). f_equal.
Defined.

Lemma overdue_recurring_task_catches_up_witness :
let poll : Task string () () :=
  {| id := "poll"; function := "poll_feed"; schedule_time := 50;
     priority := 1; args := (); kwargs := (); recurring := true;
     interval := Some 30; added_at := 0 |} in
exists self',
  scheduler_pass 10 120
    {| task_queue := [(1, 50, "poll"%string, poll)];
       registered_tasks := {[ "poll"%string := poll ]}; submitted := [] |}
  = Some self'
  /\ submitted self'
     = [ poll; with_schedule_time poll 80; with_schedule_time poll 110 ]
  /\ task_queue self' = [(1, 140, "poll"%string, with_schedule_time poll 140)].
Proof.
intros poll.
assert (Hd : 0 < 30) by lia.
assert (Hreg : is_Some (({[ "poll"%string := poll ]} : gmap string (Task string () ()))
                        !! "poll"%string)).
{ eexists. vm_compute. reflexivity. }
assert (Hre : reschedules poll = Some 30) by reflexivity.
assert (Hnext : schedule_time poll + Z.of_nat 3 * 30 > 120) by (vm_compute; reflexivity).
assert (Hdue : forall j : nat, (j < 3)%nat -> schedule_time poll + Z.of_nat j * 30 <= 120).
{ intros j Hj. change (schedule_time poll) with 50. lia. }
assert (Hfuel : (3 < 10)%nat) by lia.
destruct (overdue_recurring_task_catches_up 120 30 1 "poll" 3 10 poll
            {[ "poll"%string := poll ]} [] Hd Hreg Hre Hnext Hdue Hfuel)
  as (self' & Hpass & Hsub & Hq).
exists self'. split; [exact Hpass|]. split; [exact Hsub | exact Hq].
Defined.

End SchedulerExamples.

(** ** Ordering a list of tasks *)

Section Prioritizing.

Import PriorityManager.
Variable days_until_deadline : string -> result Z.

Abbreviation level := (calculate_priority days_until_deadline).
Abbreviation decorated := (with_priority days_until_deadline).
Abbreviation pair_of :=
  (fun task : gmap string pyval =>
     (inject_Z (value (level task)), decorated task)).
Abbreviation not_below :=
  (fun a b : gmap string pyval => (value (level b) <= value (level a))%Z).
Abbreviation of_value v :=
  (filter (fun t : gmap string pyval => value (level t) = v)).

Lemma Qltb_inject_Z (a b : Z) : Qltb (inject_Z a) (inject_Z b) = (a <? b)%Z.
Proof.
  unfold Qltb. destruct (Z.ltb_spec a b) as [H|H].
  - apply negb_true_iff. destruct (Qle_bool (inject_Z b) (inject_Z a)) eqn:E; [|reflexivity].
    apply Qle_bool_iff in E. rewrite <- Zle_Qle in E. lia.
  - apply negb_false_iff, Qle_bool_iff. rewrite <- Zle_Qle. exact H.
Qed.

Lemma score_key_decorated (task : gmap string pyval) :
  score_key (decorated task) = Ok (inject_Z (value (level task))).
Proof. unfold score_key, with_priority. by rewrite lookup_insert_eq. Qed.

Lemma keyed_decorated (tasks : list (gmap string pyval)) :
  keyed (decorated <$> tasks) = Ok (pair_of <$> tasks).
Proof.
  induction tasks as [|t tasks IH]; [reflexivity|].
  rewrite !fmap_cons. cbn [keyed]. rewrite score_key_decorated, IH. reflexivity.
Qed.

(** Inserting the pair of a task into the pairs of a list of tasks gives
    the pairs of a list of tasks: the same tasks, in descending order if
    they were, and with the tasks of each level in the order they had. *)
Lemma insert_by_score_tasks (x : gmap string pyval) (l : list (gmap string pyval)) :
  exists l2,
    insert_by_score (pair_of x) (pair_of <$> l) = pair_of <$> l2
    /\ l2 ≡ₚ x :: l
    /\ (StronglySorted not_below l -> StronglySorted not_below l2)
    /\ forall v, of_value v l2 = of_value v (x :: l).
Proof.
  induction l as [|y l (l2 & Heq & Hp & Hs & Hf)].
  - exists [x]. split; [reflexivity|]. split; [reflexivity|].
    split; [repeat constructor | reflexivity].
  - rewrite fmap_cons. cbn [insert_by_score fst]. rewrite Qltb_inject_Z.
    destruct (Z.ltb_spec (value (level x)) (value (level y))) as [Hlt|Hge].
    + exists (y :: l2). rewrite Heq. split; [reflexivity|].
      split; [rewrite Hp; apply Permutation_swap|]. split.
      * intros Hsorted. apply StronglySorted_inv in Hsorted as [Hl Hy].
        constructor; [by apply Hs|]. rewrite Hp.
        constructor; [lia | exact Hy].
      * intros v. rewrite (filter_cons _ y), Hf, !filter_cons.
        destruct (decide (value (level y) = v)), (decide (value (level x) = v));
          try reflexivity; lia.
    + exists (x :: y :: l). split; [reflexivity|]. split; [reflexivity|].
      split; [|reflexivity].
      intros Hsorted. constructor; [exact Hsorted|].
      apply StronglySorted_inv in Hsorted as [Hl Hy].
      constructor; [exact Hge|].
      eapply Forall_impl; [exact Hy|]. simpl. intros z Hz. lia.
Qed.

Lemma sort_by_score_tasks (tasks : list (gmap string pyval)) :
  exists sorted,
    foldr insert_by_score [] (pair_of <$> tasks) = pair_of <$> sorted
    /\ sorted ≡ₚ tasks
    /\ StronglySorted not_below sorted
    /\ forall v, of_value v sorted = of_value v tasks.
Proof.
  induction tasks as [|t tasks (l & Heq & Hp & Hs & Hf)].
  - exists []. split; [reflexivity|]. split; [reflexivity|].
    split; [constructor | reflexivity].
  - rewrite fmap_cons. cbn [foldr]. rewrite Heq.
    destruct (insert_by_score_tasks t l) as (l2 & Heq2 & Hp2 & Hs2 & Hf2).
    exists l2. split; [exact Heq2|]. split; [by rewrite Hp2, Hp|].
    split; [by apply Hs2|].
    intros v. by rewrite Hf2, !filter_cons, Hf.
Qed.

Lemma prioritize_tasks_sorted (tasks : list (gmap string pyval)) :
  exists sorted,
    prioritize_tasks days_until_deadline tasks = Ok (decorated <$> sorted)
    /\ sorted ≡ₚ tasks
    /\ StronglySorted not_below sorted
    /\ forall v, of_value v sorted = of_value v tasks.
Proof.
  destruct (sort_by_score_tasks tasks) as (sorted & Heq & H).
  exists sorted. split; [|exact H].
  unfold prioritize_tasks, sort_by_score. rewrite keyed_decorated.
  change (Ok (pair_of <$> tasks) ≫= _)
    with (Ok (A := list (gmap string outval))
             (foldr insert_by_score [] (pair_of <$> tasks)).*2).
  rewrite Heq. f_equal. rewrite <- list_fmap_compose.
  by apply list_fmap_ext.
Qed.

End Prioritizing.

Section PrioritizingResults.
Import PriorityManager.
Variable days_until_deadline : string -> result Z.

(** X21: prioritize_tasks never raises.  It returns one dictionary per
  task (the task with 'priority' and 'priority_score' set), made from
  the tasks rearranged so that the calculated level never increases
  along the list; the sort is stable, so the tasks of one level come out
  in the order in which they were given. *)
Theorem prioritize_tasks_stable_descending (tasks : list (gmap string pyval)) :
exists sorted,
  prioritize_tasks days_until_deadline tasks
  = Ok (with_priority days_until_deadline <$> sorted)
  /\ sorted ≡ₚ tasks
  /\ StronglySorted
       (fun a b => (value (calculate_priority days_until_deadline b)
                    <= value (calculate_priority days_until_deadline a))%Z)
       sorted
  /\ forall l : PriorityLevel,
       filter (fun t => value (calculate_priority days_until_deadline t) = value l) sorted
       = filter (fun t => value (calculate_priority days_until_deadline t) = value l) tasks.
Proof.
destruct (prioritize_tasks_sorted days_until_deadline tasks)
  as (sorted & Heq & Hp & Hs & Hf).
exists sorted. split; [exact Heq|]. split; [exact Hp|]. split; [exact Hs|].
intros l. apply Hf.
Qed.

End PrioritizingResults.
